(** * Prefix-list reconciliation engine of [cf-lambda.py]

    A shallow embedding of the engine that keeps an EC2 managed prefix list
    equal to the address ranges published by Cloudflare, and the properties
    of it that the specification states.

    Conventions of the embedding.
    - A Python [str] is a Rocq [string] read as a sequence of code points
      below 256, so that slicing, comparison and [lower] act per character.
    - A Python [dict] with a fixed set of keys is a record whose fields are
      [field]s: a key is absent, holds [None], or holds a value.
    - The provider (boto3's EC2 client) is a state machine over an abstract
      world [W]; the program runs in a state-and-exception monad that also
      keeps the chronological list of the calls it issued.
    - The three [while True] pagination loops take a [fuel]; running out of
      it is the outcome [Diverge], which no handler of the program catches. *)

From Stdlib Require Import ZArith Ascii String List.
From stdpp Require Import base decidable option list sorting gmap strings pretty.

Open Scope string_scope.
Open Scope list_scope.
Open Scope Z_scope.

(** ** Python values *)

(** The content of a dictionary key. *)
Inductive field (A : Type) : Type :=
| Absent
| Null
| Val (a : A).
Arguments Absent {A}.
Arguments Null {A}.
Arguments Val {A} a.

(** [d.get(k)]: [None] when the key is absent or holds [None]. *)
Definition get {A} (f : field A) : option A :=
  match f with
  | Val a => Some a
  | _ => None
  end.

(** Whether the key is present in the dictionary. *)
Definition present {A} (f : field A) : bool :=
  match f with
  | Absent => false
  | _ => true
  end.

(** [{..., k: d.get(k), ...}]: the key of a rebuilt dictionary. *)
Definition rebuilt {A} (f : field A) : field A :=
  match f with
  | Val a => Val a
  | _ => Null
  end.

(** Truth value of an optional string, an optional integer and a list. *)
Definition truthy_str (o : option string) : bool :=
  match o with
  | Some s => negb (String.eqb s "")
  | None => false
  end.

Definition truthy_int (o : option Z) : bool :=
  match o with
  | Some z => negb (z =? 0)
  | None => false
  end.

Definition truthy_list {A} (l : list A) : bool :=
  match l with
  | [] => false
  | _ => true
  end.

(** [x or d] on an optional string and on an optional integer. *)
Definition or_str (o : option string) (d : string) : string :=
  if truthy_str o then default d o else d.

Definition or_int (o : option Z) (d : Z) : Z :=
  if truthy_int o then default d o else d.

(** ** Strings *)

(** [c.lower()] for a code point below 256. *)
Definition lower_char (c : ascii) : ascii :=
  let n := nat_of_ascii c in
  if ((65 <=? n)%nat && (n <=? 90)%nat)
     || ((192 <=? n)%nat && (n <=? 222)%nat && negb (n =? 215)%nat)
  then ascii_of_nat (n + 32) else c.

Fixpoint lower (s : string) : string :=
  match s with
  | EmptyString => EmptyString
  | String c s' => String (lower_char c) (lower s')
  end.

(** [needle in hay]. *)
Fixpoint contains (needle hay : string) : bool :=
  String.prefix needle hay ||
  match hay with
  | EmptyString => false
  | String _ hay' => contains needle hay'
  end.

(** [s[:n]]. *)
Definition truncate (n : nat) (s : string) : string := String.substring 0 n s.

(** Characters that [str.strip()] removes, below 256. *)
Definition is_space (c : ascii) : bool :=
  let n := nat_of_ascii c in
  ((9 <=? n)%nat && (n <=? 13)%nat) || ((28 <=? n)%nat && (n <=? 32)%nat)
  || (n =? 133)%nat || (n =? 160)%nat.

Fixpoint lstrip (s : string) : string :=
  match s with
  | EmptyString => EmptyString
  | String c s' => if is_space c then lstrip s' else s
  end.

Definition strip (s : string) : string :=
  String.rev (lstrip (String.rev (lstrip s))).

(** ** Constants of the module *)

Definition DESCR_DEFAULT : string := "Cloudflare IP".
Definition MAX_BATCH : nat := 80.
Definition PL_DESCR_TRUNC : nat := 100.

(** ** Records exchanged with the provider *)

(** A prefix-list record, with the keys of both discovery shapes that the
    program reads or copies ([Cidrs] exists only in the second shape). *)
Module PL.
Record t : Type := mk {
  PrefixListId : field string;
  PrefixListName : field string;
  MaxEntries : field Z;
  OwnerId : field string;
  Version : field Z;
  State : field string;
  PrefixListArn : field string;
  Cidrs : field (list string)
}.

(** Truth value of the dictionary: it has at least one key. *)
Definition nonempty (pl : t) : bool :=
  present (PrefixListId pl) || present (PrefixListName pl)
  || present (MaxEntries pl) || present (OwnerId pl) || present (Version pl)
  || present (State pl) || present (PrefixListArn pl) || present (Cidrs pl).
End PL.

(** Response of [describe_managed_prefix_lists] and [describe_prefix_lists]. *)
Module DescribeResp.
Record t : Type := mk {
  ManagedPrefixLists : option (list PL.t);
  PrefixLists : option (list PL.t);
  NextToken : option string
}.
End DescribeResp.

(** Keyword arguments of the two describe calls. *)
Module DescribeKw.
Record t : Type := mk {
  PrefixListIds : option (list string);
  NextToken : option string
}.
End DescribeKw.

(** An entry of a prefix list and a page of entries. *)
Module Entry.
Record t : Type := mk { Cidr : field string; Description : field string }.
End Entry.

Module EntriesResp.
Record t : Type := mk {
  Entries : option (list Entry.t);
  NextToken : option string
}.
End EntriesResp.

Module EntriesKw.
Record t : Type := mk { PrefixListId : string; NextToken : option string }.
End EntriesKw.

(** Entries submitted to [modify_managed_prefix_list]. *)
Module AddEntry.
Record t : Type := mk { Cidr : string; Description : string }.
End AddEntry.

Module RemoveEntry.
Record t : Type := mk { Cidr : string }.
End RemoveEntry.

Module ModifyKw.
Record t : Type := mk {
  PrefixListId : string;
  CurrentVersion : Z;
  AddEntries : option (list AddEntry.t);
  RemoveEntries : option (list RemoveEntry.t)
}.
End ModifyKw.

(** Response of [modify_managed_prefix_list]: the program reads
    [resp["PrefixList"]["Version"]]; [None] is a missing key. *)
Module ModifyResp.
Record t : Type := mk { PrefixList : option (option Z) }.
End ModifyResp.

(** ** Exceptions *)

(** One row of the preview carried by the not-found error. *)
Record preview_row : Type := {
  Id : option string;
  Name : option string;
  Owner : option string
}.

Inductive exn : Type :=
| ClientError (msg : string)
    (** botocore's [ClientError]; [msg] is [str(e)] *)
| RuntimeError (msg : string)
    (** the capacity error of [apply_delta] *)
| NotFoundError (attempts : nat) (account region prefix_list_id : string)
    (fallback_name : option string) (preview : list preview_row)
    (** the [RuntimeError] of [_describe_pl_with_retries]; its message is
        formatted from these values *)
| KeyError (key : string)
| OtherError (cls msg : string)
    (** any other exception a collaborator raises *).

(** ** What the program does to the outside *)

(** Result of [apply_delta] (the per-target dictionary). *)
Record result : Type := {
  id : string;
  from_version : Z;
  to_version : Z;
  added : list string;
  removed : list string;
  changed : bool;
  note : option string;
  summary : option string
}.

(** The dictionary [handler] returns. *)
Record handler_out : Type := {
  account : string;
  default_region : string;
  used_regions : option string * option string;
  counts : nat * nat;
  results : list result
}.

Inductive printed : Type :=
| SlackStatus (code : Z)
| SlackError
| SlackSkipped
| Summary (out : handler_out).

(** A call issued by the program; provider calls carry the region of the
    client they went through. *)
Inductive event : Type :=
| EvDescribeManaged (region : string) (kw : DescribeKw.t)
| EvDescribePrefix (region : string) (kw : DescribeKw.t)
| EvGetEntries (region : string) (kw : EntriesKw.t)
| EvModify (region : string) (kw : ModifyKw.t)
| EvSleep (half_seconds : Z)
| EvFetch
| EvSlackPost (webhook : string) (reported : list result) (counts : nat * nat)
| EvPrint (p : printed).

Definition is_modify (ev : event) : bool :=
  match ev with
  | EvModify _ _ => true
  | _ => false
  end.

(** ** The monad *)

Inductive outcome (A : Type) : Type :=
| Return (a : A)
| Raise (e : exn)
| Diverge.
Arguments Return {A} a.
Arguments Raise {A} e.
Arguments Diverge {A}.

Record state (W : Type) : Type := mkState {
  world : W;
  calls : list event
}.
Arguments mkState {W} world calls.
Arguments world {W} s.
Arguments calls {W} s.

Definition M (W A : Type) : Type := state W → outcome A * state W.

Definition ret {W A} (a : A) : M W A := λ s, (Return a, s).

Definition raise {W A} (e : exn) : M W A := λ s, (Raise e, s).

Definition diverge {W A} : M W A := λ s, (Diverge, s).

Definition bind {W A B} (m : M W A) (k : A → M W B) : M W B :=
  λ s, match m s with
       | (Return a, s') => k a s'
       | (Raise e, s') => (Raise e, s')
       | (Diverge, s') => (Diverge, s')
       end.

Notation "'let*' p := m 'in' k" := (bind m (λ p, k))
  (at level 10, p pattern, m at level 100, k at level 200,
   format "'[v' 'let*'  p  :=  m  'in' '/' k ']'").
Notation "m ;;; k" := (bind m (λ _, k))
  (at level 100, k at level 200, right associativity).

(** [try: m except ClientError as e: h(str(e))]. *)
Definition except_ClientError {W A} (m : M W A) (h : string → M W A) : M W A :=
  λ s, match m s with
       | (Raise (ClientError msg), s') => h msg s'
       | r => r
       end.

(** The built-in classes that derive from [BaseException] without deriving
    from [Exception]. *)
Definition NOT_EXCEPTION : list string :=
  ["BaseException"; "KeyboardInterrupt"; "SystemExit"; "GeneratorExit"].

(** [isinstance(e, Exception)]: every class of [exn] derives from
    [Exception], but for an [OtherError] of one of the classes above. *)
Definition is_Exception (e : exn) : bool :=
  match e with
  | OtherError cls _ => negb (existsb (String.eqb cls) NOT_EXCEPTION)
  | _ => true
  end.

(** [try: m except Exception: h]. *)
Definition except_Exception {W A} (m h : M W A) : M W A :=
  λ s, match m s with
       | (Raise e, s') => if is_Exception e then h s' else (Raise e, s')
       | r => r
       end.

(** A call to a collaborator: it is recorded, then it answers or raises. *)
Definition call {W R} (ev : event) (op : W → (exn + R) * W) : M W R :=
  λ s, let '(r, w') := op (world s) in
       (match r with inl e => Raise e | inr x => Return x end,
        mkState w' (calls s ++ [ev])).

(** A recorded effect with no answer ([time.sleep], [print]). *)
Definition emit {W} (ev : event) : M W unit :=
  λ s, (Return tt, mkState (world s) (calls s ++ [ev])).

(** The EC2 client: its region and the four operations the program uses. *)
Record Ec2 (W : Type) : Type := {
  region_name : string;
  describe_managed_prefix_lists : DescribeKw.t → W → (exn + DescribeResp.t) * W;
  describe_prefix_lists : DescribeKw.t → W → (exn + DescribeResp.t) * W;
  get_managed_prefix_list_entries : EntriesKw.t → W → (exn + EntriesResp.t) * W;
  modify_managed_prefix_list : ModifyKw.t → W → (exn + ModifyResp.t) * W
}.
Arguments region_name {W} e.
Arguments describe_managed_prefix_lists {W} e.
Arguments describe_prefix_lists {W} e.
Arguments get_managed_prefix_list_entries {W} e.
Arguments modify_managed_prefix_list {W} e.

(** ** The engine *)

Section Engine.
Context {W : Type}.

(** The module-level [ACCOUNT]: the caller's account identity. *)
Variable ACCOUNT : string.

(** *** Prefix list discovery *)

(** [resp.get("ManagedPrefixLists") or resp.get("PrefixLists") or []]. *)
Definition _pls (resp : DescribeResp.t) : list PL.t :=
  let managed := default [] (DescribeResp.ManagedPrefixLists resp) in
  let plain := default [] (DescribeResp.PrefixLists resp) in
  if truthy_list managed then managed
  else if truthy_list plain then plain
  else [].

Definition _describe_managed_pls (ec2 : Ec2 W) (ids : option (list string))
    (next_token : option string) : M W DescribeResp.t :=
  let kw :=
    DescribeKw.mk
      (if truthy_list (default [] ids) then ids else None)
      (if truthy_str next_token then next_token else None) in
  except_ClientError
    (call (EvDescribeManaged (region_name ec2) kw)
          (describe_managed_prefix_lists ec2 kw))
    (λ _, ret (DescribeResp.mk (Some []) None None)).

Definition _describe_prefix_pls (ec2 : Ec2 W) (next_token : option string)
    : M W DescribeResp.t :=
  let kw :=
    DescribeKw.mk None (if truthy_str next_token then next_token else None) in
  except_ClientError
    (call (EvDescribePrefix (region_name ec2) kw)
          (describe_prefix_lists ec2 kw))
    (λ _, ret (DescribeResp.mk None (Some []) None)).

(** The dictionary that the second loop of [_list_all_pls] builds from a
    record of the second API: the seven common keys, each [pl.get(key)]. *)
Definition normalized (pl : PL.t) : PL.t :=
  PL.mk (rebuilt (PL.PrefixListId pl)) (rebuilt (PL.PrefixListName pl))
        (rebuilt (PL.MaxEntries pl)) (rebuilt (PL.OwnerId pl))
        (rebuilt (PL.Version pl)) (rebuilt (PL.State pl))
        (rebuilt (PL.PrefixListArn pl)) Absent.

(** Body of the [for pl in _pls(resp)] loops: [shape pl] is appended when
    the identifier is truthy and not yet seen. *)
Definition keep (shape : PL.t → PL.t) (acc : gset string * list PL.t)
    (pl : PL.t) : gset string * list PL.t :=
  let pid := get (PL.PrefixListId pl) in
  if truthy_str pid && bool_decide (default "" pid ∉ acc.1)
  then ({[default "" pid]} ∪ acc.1, acc.2 ++ [shape pl])
  else acc.

(** First [while True] loop of [_list_all_pls]. *)
Fixpoint managed_pages (fuel : nat) (ec2 : Ec2 W) (token : option string)
    (acc : gset string * list PL.t) : M W (gset string * list PL.t) :=
  match fuel with
  | O => diverge
  | S fuel' =>
      let* resp := _describe_managed_pls ec2 None token in
      let acc' := foldl (keep (λ pl, pl)) acc (_pls resp) in
      let token' := DescribeResp.NextToken resp in
      if truthy_str token' then managed_pages fuel' ec2 token' acc'
      else ret acc'
  end.

(** Second [while True] loop of [_list_all_pls]. *)
Fixpoint prefix_pages (fuel : nat) (ec2 : Ec2 W) (token : option string)
    (acc : gset string * list PL.t) : M W (gset string * list PL.t) :=
  match fuel with
  | O => diverge
  | S fuel' =>
      let* resp := _describe_prefix_pls ec2 token in
      let acc' := foldl (keep normalized) acc (_pls resp) in
      let token' := DescribeResp.NextToken resp in
      if truthy_str token' then prefix_pages fuel' ec2 token' acc'
      else ret acc'
  end.

Definition _list_all_pls (fuel : nat) (ec2 : Ec2 W) : M W (list PL.t) :=
  let* acc := managed_pages fuel ec2 None (∅, []) in
  let* acc' := prefix_pages fuel ec2 None acc in
  ret acc'.2.

Definition _find_pl (fuel : nat) (ec2 : Ec2 W) (prefix_list_id : string)
    (fallback_name : option string) : M W (option PL.t) :=
  let* direct :=
    (if truthy_str (Some prefix_list_id) then
       let* resp := _describe_managed_pls ec2 (Some [prefix_list_id]) None in
       ret (head (_pls resp))
     else ret None) in
  match direct with
  | Some pl => ret (Some pl)
  | None =>
      let* all := _list_all_pls fuel ec2 in
      match
        List.find
          (λ pl, truthy_str (Some prefix_list_id)
                 && bool_decide (get (PL.PrefixListId pl) = Some prefix_list_id))
          all
      with
      | Some pl => ret (Some pl)
      | None =>
          if truthy_str fallback_name then
            let* again := _list_all_pls fuel ec2 in
            match
              List.find
                (λ pl, bool_decide (get (PL.PrefixListName pl) = fallback_name))
                again
            with
            | Some pl => ret (Some pl)
            | None => ret None
            end
          else ret None
      end
  end.

Definition preview_of (p : PL.t) : preview_row :=
  {| Id := get (PL.PrefixListId p);
     Name := get (PL.PrefixListName p);
     Owner := get (PL.OwnerId p) |}.

(** The [for i in range(attempts)] loop of [_describe_pl_with_retries],
    from index [i] with [remaining] iterations to go; [if pl:] holds for a
    dictionary with at least one key. The result is the record found, or
    [last_seen] when the loop is exhausted. The delay
    [backoff * 2 ** i] is counted in half seconds. *)
Fixpoint retries (fuel : nat) (ec2 : Ec2 W) (prefix_list_id : string)
    (fallback_name : option string) (backoff : Z) (remaining : nat) (i : nat)
    (last_seen : list PL.t) : M W (PL.t + list PL.t) :=
  match remaining with
  | O => ret (inr last_seen)
  | S remaining' =>
      let* pl := _find_pl fuel ec2 prefix_list_id fallback_name in
      let again :=
        (let* last_seen' := _list_all_pls fuel ec2 in
         emit (EvSleep (backoff * 2 ^ Z.of_nat i)) ;;;
         retries fuel ec2 prefix_list_id fallback_name backoff remaining'
                 (S i) last_seen') in
      match pl with
      | Some p => if PL.nonempty p then ret (inl p) else again
      | None => again
      end
  end.

Definition _describe_pl_with_retries (fuel : nat) (ec2 : Ec2 W)
    (prefix_list_id : string) (fallback_name : option string)
    (attempts : nat) (backoff : Z) : M W PL.t :=
  let* r := retries fuel ec2 prefix_list_id fallback_name backoff attempts 0 [] in
  match r with
  | inl pl => ret pl
  | inr last_seen =>
      let region := region_name ec2 in
      let preview := preview_of <$> take 20 last_seen in
      raise (NotFoundError attempts ACCOUNT region prefix_list_id
                           fallback_name preview)
  end.

(** Default arguments of [_describe_pl_with_retries]: eight attempts,
    half a second of initial delay. *)
Definition ATTEMPTS : nat := 8.
Definition BACKOFF : Z := 1.

(** *** Entries and updates *)

(** Body of [for e in (resp.get("Entries") or [])]. *)
Definition add_cidr (have : gset string) (e : Entry.t) : gset string :=
  let cidr := get (Entry.Cidr e) in
  if truthy_str cidr then {[default "" cidr]} ∪ have else have.

(** The [while True] loop of [get_pl_entries]. *)
Fixpoint entry_pages (fuel : nat) (ec2 : Ec2 W) (prefix_list_id : string)
    (token : option string) (have : gset string) : M W (gset string) :=
  match fuel with
  | O => diverge
  | S fuel' =>
      let params :=
        EntriesKw.mk prefix_list_id
                     (if truthy_str token then token else None) in
      let* resp :=
        call (EvGetEntries (region_name ec2) params)
             (get_managed_prefix_list_entries ec2 params) in
      let have' := foldl add_cidr have (default [] (EntriesResp.Entries resp)) in
      let token' := EntriesResp.NextToken resp in
      if truthy_str token' then entry_pages fuel' ec2 prefix_list_id token' have'
      else ret have'
  end.

Definition get_pl_entries (fuel : nat) (ec2 : Ec2 W) (prefix_list_id : string)
    (fallback_name : option string) : M W (Z * gset string * Z * string) :=
  let* pl := _describe_pl_with_retries fuel ec2 prefix_list_id fallback_name
                                       ATTEMPTS BACKOFF in
  let version := or_int (get (PL.Version pl)) 1 in
  let max_entries := or_int (get (PL.MaxEntries pl)) 0 in
  let owner := or_str (get (PL.OwnerId pl)) "" in
  let* have := entry_pages fuel ec2 prefix_list_id None ∅ in
  ret (version, have, max_entries, owner).

(** [range(0, stop, step)] for a positive [step]. *)
Definition range_step (stop step : nat) : list nat :=
  (λ k, k * step)%nat <$> seq 0 ((stop + step - 1) / step)%nat.

(** [list(_chunks(seq, n))]: the slices [seq[i:i + n]]. The program calls
    it with [n = MAX_BATCH] only ([range] rejects a step of 0). *)
Definition _chunks {A} (l : list A) (n : nat) : list (list A) :=
  (λ i, take n (drop i l)) <$> range_step (length l) n.

(** [sorted(s)] on a set of strings. *)
Definition sorted (s : gset string) : list string :=
  merge_sort String.le (elements s).

(** The two halves of the delta of [apply_delta]. *)
Definition to_add (want have : gset string) : list string :=
  sorted (want ∖ have).

Definition to_remove (want have : gset string) : list string :=
  sorted (have ∖ want).

(** [resp["PrefixList"]["Version"]]. *)
Definition version_of (resp : ModifyResp.t) : M W Z :=
  match ModifyResp.PrefixList resp with
  | None => raise (KeyError "PrefixList")
  | Some None => raise (KeyError "Version")
  | Some (Some v) => ret v
  end.

(** Whether [_modify] takes a [ClientError] for a version conflict. *)
Definition version_conflict (msg : string) : bool :=
  contains "CurrentVersion" msg || contains "version" (lower msg).

(** The dictionary [kwargs] that [_modify] builds. *)
Definition modify_kwargs (prefix_list_id : string) (version_hint : Z)
    (add_batch : option (list AddEntry.t))
    (rem_batch : option (list RemoveEntry.t)) : ModifyKw.t :=
  ModifyKw.mk prefix_list_id version_hint
    (if truthy_list (default [] add_batch) then add_batch else None)
    (if truthy_list (default [] rem_batch) then rem_batch else None).

(** The closure [_modify] of [apply_delta]. *)
Definition _modify (fuel : nat) (ec2 : Ec2 W) (prefix_list_id : string)
    (fallback_name : option string) (add_batch : option (list AddEntry.t))
    (rem_batch : option (list RemoveEntry.t)) (version_hint : Z) : M W Z :=
  let kwargs := modify_kwargs prefix_list_id version_hint add_batch rem_batch in
  except_ClientError
    (let* resp := call (EvModify (region_name ec2) kwargs)
                       (modify_managed_prefix_list ec2 kwargs) in
     version_of resp)
    (λ msg,
       if version_conflict msg then
         let* fresh := _describe_pl_with_retries fuel ec2 prefix_list_id
                                                  fallback_name ATTEMPTS BACKOFF in
         let fresh_ver := or_int (get (PL.Version fresh)) version_hint in
         let kwargs' :=
           modify_kwargs prefix_list_id fresh_ver add_batch rem_batch in
         let* resp := call (EvModify (region_name ec2) kwargs')
                           (modify_managed_prefix_list ec2 kwargs') in
         version_of resp
       else raise (ClientError msg)).

(** The [while ai < len(add_batches) or ri < len(rem_batches)] loop.
    [steps] bounds the iterations; [apply_delta] passes the larger of the
    two lengths, which the loop never exceeds. *)
Fixpoint update_loop (steps fuel : nat) (ec2 : Ec2 W) (prefix_list_id : string)
    (fallback_name : option string) (add_batches : list (list AddEntry.t))
    (rem_batches : list (list RemoveEntry.t)) (ai ri : nat) (version : Z)
    : M W Z :=
  if (ai <? length add_batches)%nat || (ri <? length rem_batches)%nat then
    match steps with
    | O => diverge
    | S steps' =>
        let add_batch :=
          if (ai <? length add_batches)%nat then add_batches !! ai else None in
        let rem_batch :=
          if (ri <? length rem_batches)%nat then rem_batches !! ri else None in
        let* version' := _modify fuel ec2 prefix_list_id fallback_name
                                 add_batch rem_batch version in
        update_loop steps' fuel ec2 prefix_list_id fallback_name
                    add_batches rem_batches
                    (if (ai <? length add_batches)%nat then S ai else ai)
                    (if (ri <? length rem_batches)%nat then S ri else ri)
                    version'
    end
  else ret version.

(** The foreign-owner result of [apply_delta]. *)
Definition skipped (prefix_list_id : string) (current_version : Z)
    (owner account_owner : string) : result :=
  {| id := prefix_list_id;
     from_version := current_version;
     to_version := current_version;
     added := [];
     removed := [];
     changed := false;
     note := Some ("OWNER=" +:+ owner +:+ " != " +:+ account_owner
                   +:+ ". Lista AWS-managed; se omite modificaci"
                   +:+ String "243"%char "n.");
     summary := None |}.

(** The up-to-date result of [apply_delta]. *)
Definition up_to_date (prefix_list_id : string) (current_version : Z)
    (have : gset string) : result :=
  {| id := prefix_list_id;
     from_version := current_version;
     to_version := current_version;
     added := [];
     removed := [];
     changed := false;
     note := None;
     summary := Some (prefix_list_id +:+ ": up to date ("
                      +:+ pretty (size have) +:+ " entries)") |}.

(** The capacity error of [apply_delta]. *)
Definition capacity_error (wanted : nat) (max_entries : Z)
    (prefix_list_id : string) : exn :=
  RuntimeError ("Desired entries (" +:+ pretty wanted
                +:+ ") exceed MaxEntries (" +:+ pretty max_entries
                +:+ ") for " +:+ prefix_list_id
                +:+ ". Increase 'max_entries' in Terraform and re-apply.").

(** The result of [apply_delta] after the updates. *)
Definition applied (prefix_list_id : string) (current_version version : Z)
    (to_add to_remove : list string) : result :=
  {| id := prefix_list_id;
     from_version := current_version;
     to_version := version;
     added := to_add;
     removed := to_remove;
     changed := truthy_list to_add || truthy_list to_remove;
     note := None;
     summary := Some (prefix_list_id +:+ ": +" +:+ pretty (length to_add)
                      +:+ "/-" +:+ pretty (length to_remove)
                      +:+ " -> v" +:+ pretty version) |}.

(** The list [adds] of [apply_delta]. *)
Definition entries_to_add (desc : string) (to_add : list string)
    : list AddEntry.t :=
  (λ c, AddEntry.mk c (truncate PL_DESCR_TRUNC (or_str (Some desc) DESCR_DEFAULT)))
    <$> to_add.

(** [apply_delta] from the computation of the delta on (after the owner
    and capacity checks). *)
Definition push_delta (fuel : nat) (ec2 : Ec2 W) (prefix_list_id desc : string)
    (fallback_name : option string) (current_version : Z)
    (want have : gset string) : M W result :=
  let to_add := to_add want have in
  let to_remove := to_remove want have in
  if negb (truthy_list to_add) && negb (truthy_list to_remove) then
    ret (up_to_date prefix_list_id current_version have)
  else
    let adds := entries_to_add desc to_add in
    let rems := RemoveEntry.mk <$> to_remove in
    let add_batches := _chunks adds MAX_BATCH in
    let rem_batches := _chunks rems MAX_BATCH in
    let* version :=
      update_loop (length add_batches `max` length rem_batches) fuel ec2
                  prefix_list_id fallback_name add_batches rem_batches
                  0 0 current_version in
    ret (applied prefix_list_id current_version version to_add to_remove).

Definition apply_delta (fuel : nat) (ec2 : Ec2 W) (prefix_list_id desc : string)
    (want_list : list string) (fallback_name : option string)
    (account_owner : string) : M W result :=
  let* (current_version, have, max_entries, owner) :=
    get_pl_entries fuel ec2 prefix_list_id fallback_name in
  if truthy_str (Some owner) && negb (String.eqb owner account_owner) then
    ret (skipped prefix_list_id current_version owner account_owner)
  else
    let want : gset string := list_to_set want_list in
    if truthy_int (Some max_entries) && (max_entries <? Z.of_nat (size want)) then
      raise (capacity_error (size want) max_entries prefix_list_id)
    else
      push_delta fuel ec2 prefix_list_id desc fallback_name current_version
                 want have.

(** *** The update protocol in the specification's words *)

(** The batches of the two lists taken together, index by index: the
    next unconsumed add-batch with the next unconsumed remove-batch. *)
Fixpoint paired {A B} (l : list A) (k : list B) : list (option A * option B) :=
  match l with
  | [] => (λ b, (None, Some b)) <$> k
  | a :: l' =>
      match k with
      | [] => (Some a, None) :: paired l' []
      | b :: k' => (Some a, Some b) :: paired l' k'
      end
  end.

(** One update call per pair, in order; the version a call returns is the
    token of the next call. *)
Fixpoint submit_all (fuel : nat) (ec2 : Ec2 W) (prefix_list_id : string)
    (fallback_name : option string)
    (pairs : list (option (list AddEntry.t) * option (list RemoveEntry.t)))
    (version : Z) : M W Z :=
  match pairs with
  | [] => ret version
  | (add_batch, rem_batch) :: pairs' =>
      let* version' := _modify fuel ec2 prefix_list_id fallback_name
                               add_batch rem_batch version in
      submit_all fuel ec2 prefix_list_id fallback_name pairs' version'
  end.

(** *** Session, collaborators and entry point *)

(** Module-level state made by [_session_with_optional_assume]: the
    default region and client, and [SESSION.client("ec2", region_name=r)]. *)
Variable DEFAULT_REGION : string.
Variable DEFAULT_EC2 : Ec2 W.
Variable SESSION_client : string → Ec2 W.

(** External collaborators: the Cloudflare feed and the Slack webhook. *)
Variable fetch_cloudflare_ips : W → (exn + list string * list string) * W.
Variable http_post_json : string → list result → nat * nat → W → (exn + Z * string) * W.

(** The environment variables [handler] reads. *)
Record Env : Type := {
  DESCRIPTION : option string;
  SLACK_NOTIFY : option string;
  SLACK_WEBHOOK_URL : option string;
  PL_V4_ID : option string;
  PL_V6_ID : option string;
  PL_V4_NAME : option string;
  PL_V6_NAME : option string;
  PL_V4_REGION : option string;
  PL_V6_REGION : option string
}.

Definition env_bool (val : option string) (default : bool) : bool :=
  match val with
  | None => default
  | Some v =>
      bool_decide (lower (strip v) ∈ ["1"; "true"; "yes"; "y"; "on"])
  end.

Definition make_ec2 (region : string) : Ec2 W :=
  if truthy_str (Some region) && negb (String.eqb region DEFAULT_REGION)
  then SESSION_client region
  else DEFAULT_EC2.

(** [notify_slack]: the message is posted (its rendering into text is left
    out: the event carries what it is rendered from) and the outcome is
    printed; [except Exception] catches what the post raises, unless it is
    no [Exception]. *)
Definition notify_slack (webhook : string) (reported : list result)
    (counts : nat * nat) : M W unit :=
  except_Exception
    (let* (code, _) := call (EvSlackPost webhook reported counts)
                            (http_post_json webhook reported counts) in
     emit (EvPrint (SlackStatus code)))
    (emit (EvPrint SlackError)).

Definition handler (fuel : nat) (env : Env) : M W handler_out :=
  let desc :=
    truncate PL_DESCR_TRUNC (strip (or_str (DESCRIPTION env) DESCR_DEFAULT)) in
  let acct := ACCOUNT in
  let slack_notify := env_bool (SLACK_NOTIFY env) false in
  let slack_webhook := SLACK_WEBHOOK_URL env in
  let pl4_id := PL_V4_ID env in
  let pl6_id := PL_V6_ID env in
  let pl4_name := PL_V4_NAME env in
  let pl6_name := PL_V6_NAME env in
  let r4 := or_str (PL_V4_REGION env) DEFAULT_REGION in
  let r6 := or_str (PL_V6_REGION env) DEFAULT_REGION in
  let* (v4, v6) := call EvFetch fetch_cloudflare_ips in
  let* results4 :=
    (if truthy_str pl4_id || truthy_str pl4_name then
       let ec2_v4 := make_ec2 r4 in
       let* r := apply_delta fuel ec2_v4 (or_str pl4_id "") desc v4 pl4_name acct in
       ret [r]
     else ret []) in
  let* results :=
    (if truthy_str pl6_id || truthy_str pl6_name then
       let ec2_v6 := make_ec2 r6 in
       let* r := apply_delta fuel ec2_v6 (or_str pl6_id "") desc v6 pl6_name acct in
       ret (results4 ++ [r])
     else ret results4) in
  let out :=
    {| account := acct;
       default_region := DEFAULT_REGION;
       used_regions :=
         (if truthy_str pl4_id || truthy_str pl4_name then Some r4 else None,
          if truthy_str pl6_id || truthy_str pl6_name then Some r6 else None);
       counts := (length v4, length v6);
       results := results |} in
  let changed_results := filter (λ r, changed r = true) results in
  (if slack_notify && truthy_str slack_webhook && truthy_list changed_results
   then notify_slack (default "" slack_webhook) changed_results (counts out)
   else if slack_notify && truthy_str slack_webhook
        then emit (EvPrint SlackSkipped)
        else ret tt) ;;;
  emit (EvPrint (Summary out)) ;;;
  ret out.

End Engine.


(** ** An in-memory provider

    A small provider to run the engine on: its discovery answers and its
    entries are fixed, paginated by a page size, and the outcomes of the
    successive update calls are scripted. *)

Module Fake.

Record world : Type := mkWorld {
  managed : exn + list PL.t;
  plain : exn + list PL.t;
  entries : list Entry.t;
  page_size : nat;
  updates : list (exn + ModifyResp.t)
}.

(** The offset a continuation token stands for: tokens are the decimal
    offsets below [bound]. *)
Definition offset_of (bound : nat) (token : option string) : nat :=
  match token with
  | None => 0
  | Some t =>
      default 0%nat (List.find (λ i, bool_decide (pretty i = t)) (seq 0 (S bound)))
  end.

Definition page {A} (size : nat) (l : list A) (token : option string)
    : list A * option string :=
  let start := offset_of (length l) token in
  (take size (drop start l),
   if (start + size <? length l)%nat then Some (pretty (start + size)%nat)
   else None).

Definition matching (ids : option (list string)) (pl : PL.t) : bool :=
  match ids with
  | None => true
  | Some l => bool_decide (default "" (get (PL.PrefixListId pl)) ∈ l)
  end.

Definition describe_managed (kw : DescribeKw.t) (w : world)
    : (exn + DescribeResp.t) * world :=
  match managed w with
  | inl e => (inl e, w)
  | inr l =>
      let '(recs, next) :=
        page (page_size w) (List.filter (matching (DescribeKw.PrefixListIds kw)) l)
             (DescribeKw.NextToken kw) in
      (inr (DescribeResp.mk (Some recs) None next), w)
  end.

Definition describe_plain (kw : DescribeKw.t) (w : world)
    : (exn + DescribeResp.t) * world :=
  match plain w with
  | inl e => (inl e, w)
  | inr l =>
      let '(recs, next) := page (page_size w) l (DescribeKw.NextToken kw) in
      (inr (DescribeResp.mk None (Some recs) next), w)
  end.

Definition get_entries (kw : EntriesKw.t) (w : world)
    : (exn + EntriesResp.t) * world :=
  let '(es, next) := page (page_size w) (entries w) (EntriesKw.NextToken kw) in
  (inr (EntriesResp.mk (Some es) next), w).

Definition modify (kw : ModifyKw.t) (w : world)
    : (exn + ModifyResp.t) * world :=
  match updates w with
  | [] => (inl (OtherError "EndpointConnectionError" "no scripted answer"), w)
  | r :: rest =>
      (r, mkWorld (managed w) (plain w) (entries w) (page_size w) rest)
  end.

Definition ec2 (region : string) : Ec2 world :=
  {| region_name := region;
     describe_managed_prefix_lists := describe_managed;
     describe_prefix_lists := describe_plain;
     get_managed_prefix_list_entries := get_entries;
     modify_managed_prefix_list := modify |}.

Definition start (w : world) : state world := mkState w [].

(** A record as the first discovery API gives it. *)
Definition managed_record (pid name owner : string) (version max_entries : Z)
    : PL.t :=
  PL.mk (Val pid) (Val name) (Val max_entries) (Val owner) (Val version)
        (Val "modify-complete") Absent Absent.

Definition entry (cidr : string) : Entry.t := Entry.mk (Val cidr) Absent.

Definition updated (version : Z) : exn + ModifyResp.t :=
  inr (ModifyResp.mk (Some (Some version))).

End Fake.


(** ** Notions used by the properties *)

(** The calls a computation adds are not updates: [m] only reads. *)
Definition reads_only {W A} (m : M W A) : Prop :=
  ∀ s r s', m s = (r, s') →
    ∃ evs, calls s' = calls s ++ evs ∧ Forall (λ ev, is_modify ev = false) evs.

(** The identifier of a record, and the test that a record carries a given
    identifier. *)
Definition pl_id (pl : PL.t) : option string := get (PL.PrefixListId pl).

Definition same_id (o : option string) (pl : PL.t) : bool :=
  bool_decide (pl_id pl = o).

(** The pages a paginated read returns, from a continuation token and a
    state on: each page is asked for with the token of the page before, and
    the last one carries no token. *)
Inductive pages_of {W} (fetch : option string → M W DescribeResp.t)
    : option string → state W → list DescribeResp.t → state W → Prop :=
| pages_last token s resp s' :
    fetch token s = (Return resp, s') →
    truthy_str (DescribeResp.NextToken resp) = false →
    pages_of fetch token s [resp] s'
| pages_more token s resp s1 rest s' :
    fetch token s = (Return resp, s1) →
    truthy_str (DescribeResp.NextToken resp) = true →
    pages_of fetch (DescribeResp.NextToken resp) s1 rest s' →
    pages_of fetch token s (resp :: rest) s'.

(** All the records of a list of pages. *)
Definition records (pages : list DescribeResp.t) : list PL.t :=
  concat (_pls <$> pages).

(** ** Scenarios on the in-memory provider *)

Module Scenario.

(** One owned list [pl-4] at version 3 with room for 10 entries, holding
    two ranges served one per page; one update is scripted to succeed. *)
Definition owned : Fake.world :=
  Fake.mkWorld (inr [Fake.managed_record "pl-4" "cf-v4" "111" 3 10]) (inr [])
    [Fake.entry "10.0.0.0/8"; Fake.entry "192.168.0.0/16"] 1
    [Fake.updated 4].

(** The same list with room for 2 entries only. *)
Definition tight : Fake.world :=
  Fake.mkWorld (inr [Fake.managed_record "pl-4" "cf-v4" "111" 3 2]) (inr [])
    [Fake.entry "10.0.0.0/8"; Fake.entry "192.168.0.0/16"] 1
    [Fake.updated 4].

(** An empty list whose record carries its identifier and name only. *)
Definition bare_record : PL.t :=
  PL.mk (Val "pl-4") (Val "cf-v4") Absent Absent Absent Absent Absent Absent.

Definition bare : Fake.world :=
  Fake.mkWorld (inr [bare_record]) (inr []) [] 1
    [Fake.updated 2].

(** The owned list with two updates scripted to succeed. *)
Definition two_updates : Fake.world :=
  Fake.mkWorld (inr [Fake.managed_record "pl-4" "cf-v4" "111" 3 200]) (inr [])
    [Fake.entry "10.0.0.0/8"; Fake.entry "192.168.0.0/16"] 1
    [Fake.updated 4; Fake.updated 5].

(** The same provider after the first and after the second update. *)
Definition one_update_left : Fake.world :=
  Fake.mkWorld (Fake.managed two_updates) (Fake.plain two_updates)
               (Fake.entries two_updates) 1 [Fake.updated 5].

Definition no_update_left : Fake.world :=
  Fake.mkWorld (Fake.managed two_updates) (Fake.plain two_updates)
               (Fake.entries two_updates) 1 [].

(** 85 entries to add. *)
Definition adds_85 : list AddEntry.t :=
  (λ i, AddEntry.mk ("10.0.0." +:+ pretty i +:+ "/32") DESCR_DEFAULT)
    <$> seq 0 85.

(** The message of a rejected stale token. *)
Definition stale : string :=
  "An error occurred (PrefixListVersionMismatch) when calling the ModifyManagedPrefixList operation: The prefix list has the incorrect version number.".

(** The owned list, now at version 4, rejecting two updates in a row. *)
Definition contended : Fake.world :=
  Fake.mkWorld (inr [Fake.managed_record "pl-4" "cf-v4" "111" 4 10]) (inr [])
    [Fake.entry "10.0.0.0/8"; Fake.entry "192.168.0.0/16"] 1
    [inl (ClientError stale); inl (ClientError stale)].

Definition contended_once : Fake.world :=
  Fake.mkWorld (Fake.managed contended) (Fake.plain contended)
               (Fake.entries contended) 1 [inl (ClientError stale)].

Definition contended_twice : Fake.world :=
  Fake.mkWorld (Fake.managed contended) (Fake.plain contended)
               (Fake.entries contended) 1 [].

Definition one_add : option (list AddEntry.t) :=
  Some [AddEntry.mk "172.16.0.0/12" DESCR_DEFAULT].

(** Two discovery APIs that overlap on [pl-2]: the first knows [pl-1] and
    [pl-2] in full, the second knows [pl-2] and [pl-3] by identifier, name
    and ranges; both answer one record per page. *)
Definition short_record (pid name : string) (cidrs : list string) : PL.t :=
  PL.mk (Val pid) (Val name) Absent Absent Absent Absent Absent (Val cidrs).

Definition overlapping : Fake.world :=
  Fake.mkWorld
    (inr [Fake.managed_record "pl-1" "one" "111" 1 10;
          Fake.managed_record "pl-2" "two" "111" 7 20])
    (inr [short_record "pl-2" "two" ["10.0.0.0/8"];
          short_record "pl-3" "three" ["192.168.0.0/16"]])
    [] 1 [].

(** A provider whose describe calls are throttled, and one that has no
    prefix list at all. *)
Definition throttled : string :=
  "An error occurred (RequestLimitExceeded) when calling the DescribeManagedPrefixLists operation: Request limit exceeded.".

Definition down : Fake.world :=
  Fake.mkWorld (inl (ClientError throttled)) (inl (ClientError throttled)) [] 1 [].

Definition unreachable : Fake.world :=
  Fake.mkWorld (inl (OtherError "EndpointConnectionError" "Could not connect"))
               (inr []) [] 1 [].

Definition nothing : Fake.world := Fake.mkWorld (inr []) (inr []) [] 1 [].

(** Two targets in one region: [pl-4] has room for a single entry, [pl-6]
    for ten; the feed publishes two IPv4 ranges and one IPv6 range. *)
Definition two_targets : Fake.world :=
  Fake.mkWorld
    (inr [Fake.managed_record "pl-4" "cf-v4" "111" 3 1;
          Fake.managed_record "pl-6" "cf-v6" "111" 5 10])
    (inr []) [] 10 [Fake.updated 6].

Definition feed (w : Fake.world)
    : (exn + list string * list string) * Fake.world :=
  (inr (["173.245.48.0/20"; "103.21.244.0/22"], ["2400:cb00::/32"]), w).

Definition webhook (url : string) (reported : list result) (counts : nat * nat)
    (w : Fake.world) : (exn + Z * string) * Fake.world :=
  (inr (200, "ok"), w).

Definition both_lists : Env :=
  {| DESCRIPTION := None; SLACK_NOTIFY := None; SLACK_WEBHOOK_URL := None;
     PL_V4_ID := Some "pl-4"; PL_V6_ID := Some "pl-6";
     PL_V4_NAME := None; PL_V6_NAME := None;
     PL_V4_REGION := None; PL_V6_REGION := None |}.

Definition us_east_1 : Ec2 Fake.world := Fake.ec2 "us-east-1".

Definition have_owned : gset string := {["10.0.0.0/8"; "192.168.0.0/16"]}.

End Scenario.

(** ** Further notions used by the properties *)

(** The calls a computation adds all satisfy [P]. *)
Definition adds_only {W A} (P : event → bool) (m : M W A) : Prop :=
  ∀ s r s', m s = (r, s') →
    ∃ evs, calls s' = calls s ++ evs ∧ Forall (λ ev, P ev = true) evs.

(** A describe call through the client of [region]. *)
Definition describe_event (region : string) (ev : event) : bool :=
  match ev with
  | EvDescribeManaged r _ | EvDescribePrefix r _ => String.eqb r region
  | _ => false
  end.

(** What the locator does: describe calls through one client, and sleeps. *)
Definition locator_event (region : string) (ev : event) : bool :=
  describe_event region ev
  || match ev with
     | EvSleep _ => true
     | _ => false
     end.

(** What reading a list does: the locator's calls, and reads of the entries
    of [prefix_list_id] through the same client. *)
Definition read_event (region prefix_list_id : string) (ev : event) : bool :=
  locator_event region ev
  || match ev with
     | EvGetEntries r kw =>
         String.eqb r region
         && String.eqb (EntriesKw.PrefixListId kw) prefix_list_id
     | _ => false
     end.

(** What reconciling a list does: reads, and updates of [prefix_list_id]
    through the same client. *)
Definition engine_event (region prefix_list_id : string) (ev : event) : bool :=
  read_event region prefix_list_id ev
  || match ev with
     | EvModify r kw =>
         String.eqb r region
         && String.eqb (ModifyKw.PrefixListId kw) prefix_list_id
     | _ => false
     end.

(** The delays of the sleeps among some calls, in order. *)
Definition sleeps (evs : list event) : list Z :=
  omap (λ ev, match ev with EvSleep d => Some d | _ => None end) evs.

(** The Slack posts among some calls, in order. *)
Definition slack_posts (evs : list event) : list event :=
  List.filter (λ ev, match ev with EvSlackPost _ _ _ => true | _ => false end) evs.

(** The pages of entries a paginated read of [prefix_list_id] returns, from
    a continuation token and a state on. *)
Inductive entry_pages_of {W} (ec2 : Ec2 W) (prefix_list_id : string)
    : option string → state W → list EntriesResp.t → state W → Prop :=
| entry_pages_last token s resp s' :
    call (EvGetEntries (region_name ec2)
            (EntriesKw.mk prefix_list_id (if truthy_str token then token else None)))
         (get_managed_prefix_list_entries ec2
            (EntriesKw.mk prefix_list_id (if truthy_str token then token else None)))
         s = (Return resp, s') →
    truthy_str (EntriesResp.NextToken resp) = false →
    entry_pages_of ec2 prefix_list_id token s [resp] s'
| entry_pages_more token s resp s1 rest s' :
    call (EvGetEntries (region_name ec2)
            (EntriesKw.mk prefix_list_id (if truthy_str token then token else None)))
         (get_managed_prefix_list_entries ec2
            (EntriesKw.mk prefix_list_id (if truthy_str token then token else None)))
         s = (Return resp, s1) →
    truthy_str (EntriesResp.NextToken resp) = true →
    entry_pages_of ec2 prefix_list_id (EntriesResp.NextToken resp) s1 rest s' →
    entry_pages_of ec2 prefix_list_id token s (resp :: rest) s'.

(** All the entries of a list of pages. *)
Definition entries_of (pages : list EntriesResp.t) : list Entry.t :=
  concat ((λ resp, default [] (EntriesResp.Entries resp)) <$> pages).

(** ** The Cloudflare feed *)

Definition CF_V4_URL : string := "https://www.cloudflare.com/ips-v4".
Definition CF_V6_URL : string := "https://www.cloudflare.com/ips-v6".
Definition CF_API_URL : string := "https://api.cloudflare.com/client/v4/ips".

(** The two sets of request headers. *)
Inductive headers : Type :=
| UA_HEADERS_PLAIN
| UA_HEADERS_JSON.

(** The body of the API answer once parsed, with the keys [fetch_via_api]
    reads. *)
Module ApiResult.
Record t : Type := mk {
  ipv4_cidrs : field (list string);
  ipv6_cidrs : field (list string)
}.
End ApiResult.

Module ApiData.
Record t : Type := mk { result : field ApiResult.t }.
End ApiData.

(** [bytes.splitlines()]: lines end at a line feed, a carriage return or
    both in a row; there is no empty last line. [cur] is the line being
    read, backwards. *)
Fixpoint splitlines_from (cur : string) (raw : string) : list string :=
  match raw with
  | EmptyString =>
      if String.eqb cur "" then [] else [String.rev cur]
  | String c rest =>
      if Ascii.eqb c "010" then String.rev cur :: splitlines_from "" rest
      else if Ascii.eqb c "013" then
        match rest with
        | String c' rest' =>
            if Ascii.eqb c' "010" then String.rev cur :: splitlines_from "" rest'
            else String.rev cur :: splitlines_from "" rest
        | EmptyString => String.rev cur :: splitlines_from "" rest
        end
      else splitlines_from (String c cur) rest
  end.

Definition splitlines (raw : string) : list string := splitlines_from "" raw.

(** The exceptions that [except (HTTPError, URLError)] catches: [URLError]
    and the classes the library derives from it. *)
Definition is_url_error (e : exn) : bool :=
  match e with
  | OtherError cls _ =>
      bool_decide (cls ∈ ["URLError"; "HTTPError"; "ContentTooShortError"])
  | _ => false
  end.

Section Feed.
Context {W : Type}.

(** [http_get(url, headers)], the body as a string of bytes;
    [b.decode("utf-8")]; and [json.loads(raw.decode("utf-8"))]. *)
Variable http_get : string → headers → W → (exn + string) * W.
Variable decode_utf8 : string → exn + string.
Variable json_loads : string → exn + ApiData.t.

(** The loop of [fetch_plain_lines] over the lines of the body. *)
Fixpoint plain_lines (lines : list string) : exn + list string :=
  match lines with
  | [] => inr []
  | b :: rest =>
      if String.eqb b "" || String.prefix "#" b then plain_lines rest
      else
        match decode_utf8 b with
        | inl e => inl e
        | inr text =>
            match plain_lines rest with
            | inl e => inl e
            | inr out => inr (strip text :: out)
            end
        end
  end.

Definition fetch_plain_lines (url : string) (w : W) : (exn + list string) * W :=
  match http_get url UA_HEADERS_PLAIN w with
  | (inl e, w') => (inl e, w')
  | (inr raw, w') => (plain_lines (splitlines raw), w')
  end.

(** [x.get(key, []) or []]. *)
Definition list_or_empty (f : field (list string)) : list string :=
  default [] (get f).

Definition fetch_via_api (w : W) : (exn + list string * list string) * W :=
  match http_get CF_API_URL UA_HEADERS_JSON w with
  | (inl e, w') => (inl e, w')
  | (inr raw, w') =>
      match json_loads raw with
      | inl e => (inl e, w')
      | inr data =>
          match ApiData.result data with
          | Absent => (inr ([], []), w')
          | Null =>
              (inl (OtherError "AttributeError"
                      "'NoneType' object has no attribute 'get'"), w')
          | Val res =>
              (inr (list_or_empty (ApiResult.ipv4_cidrs res),
                    list_or_empty (ApiResult.ipv6_cidrs res)), w')
          end
      end
  end.

Definition fetch_cloudflare_ips (w : W)
    : (exn + list string * list string) * W :=
  match fetch_plain_lines CF_V4_URL w with
  | (inl e, w1) => if is_url_error e then fetch_via_api w1 else (inl e, w1)
  | (inr v4, w1) =>
      match fetch_plain_lines CF_V6_URL w1 with
      | (inl e, w2) => if is_url_error e then fetch_via_api w2 else (inl e, w2)
      | (inr v6, w2) =>
          if truthy_list v4 || truthy_list v6 then (inr (v4, v6), w2)
          else fetch_via_api w2
      end
  end.

End Feed.

(** A string made of white space only. *)
Fixpoint blank (s : string) : bool :=
  match s with
  | EmptyString => true
  | String c s' => is_space c && blank s'
  end.

(** [if pl:] on what [_find_pl] returns. *)
Definition found (o : option PL.t) : bool := from_option PL.nonempty false o.

(** [k] rounds of the locator in a row that find nothing, from round [i]
    on: each looks the list up, lists what is visible and sleeps
    [backoff * 2 ** i]. The relation carries the last listing. *)
Inductive failed_rounds {W} (fuel : nat) (ec2 : Ec2 W) (prefix_list_id : string)
    (fallback_name : option string) (backoff : Z)
    : nat → nat → list PL.t → state W → list PL.t → state W → Prop :=
| failed_none i last s :
    failed_rounds fuel ec2 prefix_list_id fallback_name backoff i 0 last s last s
| failed_more i k last s o s1 l s2 last' s' :
    _find_pl fuel ec2 prefix_list_id fallback_name s = (Return o, s1) →
    found o = false →
    _list_all_pls fuel ec2 s1 = (Return l, s2) →
    failed_rounds fuel ec2 prefix_list_id fallback_name backoff (S i) k l
      (mkState (world s2) (calls s2 ++ [EvSleep (backoff * 2 ^ Z.of_nat i)]))
      last' s' →
    failed_rounds fuel ec2 prefix_list_id fallback_name backoff i (S k) last s
      last' s'.

(** A run of update calls that the provider accepts one after the other:
    from a token and a world, the pairs submitted, the calls issued, and the
    token and world reached. *)
Inductive all_accepted {W} (ec2 : Ec2 W) (prefix_list_id : string)
    : Z → W → list (option (list AddEntry.t) * option (list RemoveEntry.t))
      → list event → Z → W → Prop :=
| accepted_none v w : all_accepted ec2 prefix_list_id v w [] [] v w
| accepted_more v w a r resp w1 v1 pairs evs v' w' :
    modify_managed_prefix_list ec2 (modify_kwargs prefix_list_id v a r) w
    = (inr resp, w1) →
    ModifyResp.PrefixList resp = Some (Some v1) →
    all_accepted ec2 prefix_list_id v1 w1 pairs evs v' w' →
    all_accepted ec2 prefix_list_id v w ((a, r) :: pairs)
      (EvModify (region_name ec2) (modify_kwargs prefix_list_id v a r) :: evs)
      v' w'.

(** ** A provider that lags

    A provider on which a list created elsewhere becomes visible only after
    a number of describe calls: the world is the number of calls of the
    first discovery API still to be answered with nothing. *)

Module Lagging.

Definition record : PL.t :=
  PL.mk (Val "pl-4") (Val "cf-v4") (Val 10) (Val "111") (Val 1)
        (Val "create-complete") Absent Absent.

Definition describe_managed (kw : DescribeKw.t) (w : nat)
    : (exn + DescribeResp.t) * nat :=
  match w with
  | O => (inr (DescribeResp.mk (Some [record]) None None), O)
  | S w' => (inr (DescribeResp.mk (Some []) None None), w')
  end.

Definition describe_plain (kw : DescribeKw.t) (w : nat)
    : (exn + DescribeResp.t) * nat :=
  (inr (DescribeResp.mk None (Some []) None), w).

Definition get_entries (kw : EntriesKw.t) (w : nat)
    : (exn + EntriesResp.t) * nat :=
  (inr (EntriesResp.mk (Some []) None), w).

Definition modify (kw : ModifyKw.t) (w : nat) : (exn + ModifyResp.t) * nat :=
  (inl (OtherError "EndpointConnectionError" "no answer"), w).

Definition ec2 : Ec2 nat :=
  {| region_name := "eu-west-1";
     describe_managed_prefix_lists := describe_managed;
     describe_prefix_lists := describe_plain;
     get_managed_prefix_list_entries := get_entries;
     modify_managed_prefix_list := modify |}.

End Lagging.

(** ** More scenarios on the in-memory provider *)

Module Cases.

(** An owned list whose second entry has no range, served two per page. *)
Definition gappy : Fake.world :=
  Fake.mkWorld (inr [Fake.managed_record "pl-4" "cf-v4" "111" 3 10]) (inr [])
    [Fake.entry "10.0.0.0/8"; Entry.mk Absent (Val "no range");
     Fake.entry "192.168.0.0/16"] 2 [].

(** The owned list, rejecting an update for a reason other than its
    version. *)
Definition denied : string :=
  "An error occurred (UnauthorizedOperation) when calling the ModifyManagedPrefixList operation: You are not authorized to perform this operation.".

Definition refusing : Fake.world :=
  Fake.mkWorld (inr [Fake.managed_record "pl-4" "cf-v4" "111" 3 10]) (inr [])
    [Fake.entry "10.0.0.0/8"; Fake.entry "192.168.0.0/16"] 1
    [inl (ClientError denied); Fake.updated 4].

(** A provider on which the list has vanished when an update is rejected
    for its version. *)
Definition vanished : Fake.world :=
  Fake.mkWorld (inr []) (inr []) [] 1
    [inl (ClientError Scenario.stale); Fake.updated 4].

(** The owned list, answering an update without the new version. *)
Definition mute : Fake.world :=
  Fake.mkWorld (inr [Fake.managed_record "pl-4" "cf-v4" "111" 3 10]) (inr [])
    [Fake.entry "10.0.0.0/8"; Fake.entry "192.168.0.0/16"] 1
    [inr (ModifyResp.mk None)].

End Cases.

(** Two lists with room for the feed of [Scenario.feed], both empty, and two
    updates scripted to succeed; then the same with the second update
    refused. *)
Module Passes.

Definition roomy : Fake.world :=
  Fake.mkWorld
    (inr [Fake.managed_record "pl-4" "cf-v4" "111" 3 10;
          Fake.managed_record "pl-6" "cf-v6" "111" 5 10])
    (inr []) [] 10 [Fake.updated 4; Fake.updated 6].

Definition half_refused : Fake.world :=
  Fake.mkWorld
    (inr [Fake.managed_record "pl-4" "cf-v4" "111" 3 10;
          Fake.managed_record "pl-6" "cf-v6" "111" 5 10])
    (inr []) [] 10 [Fake.updated 4; inl (ClientError Cases.denied)].

Definition notifying : Env :=
  {| DESCRIPTION := None;
     SLACK_NOTIFY := Some " True ";
     SLACK_WEBHOOK_URL := Some "https://hooks.slack.example/services/T0";
     PL_V4_ID := Some "pl-4"; PL_V6_ID := Some "pl-6";
     PL_V4_NAME := None; PL_V6_NAME := None;
     PL_V4_REGION := None; PL_V6_REGION := None |}.

Definition broken_feed (w : Fake.world)
    : (exn + list string * list string) * Fake.world :=
  (inl (OtherError "JSONDecodeError" "Expecting value"), w).

(** A webhook that cannot be reached, and one whose post is interrupted
    from the keyboard. *)
Definition slack_down (url : string) (reported : list result)
    (counts : nat * nat) (w : Fake.world) : (exn + Z * string) * Fake.world :=
  (inl (OtherError "URLError" "timed out"), w).

Definition interrupted (url : string) (reported : list result)
    (counts : nat * nat) (w : Fake.world) : (exn + Z * string) * Fake.world :=
  (inl (OtherError "KeyboardInterrupt" ""), w).

End Passes.

(** A line that [fetch_plain_lines] keeps. *)
Definition kept (b : string) : bool :=
  negb (String.eqb b "" || String.prefix "#" b).

(** A body of the plain feed: a padded range, a comment, an empty line, a
    line of spaces and a range ended by carriage return and line feed; and
    endpoints serving it, with a decoder for text below 128. *)
Module PlainFeed.

Definition lf : string := String "010" "".
Definition crlf : string := String "013" (String "010" "").

Definition body : string :=
  " 173.245.48.0/20 " +:+ lf +:+ "# Cloudflare" +:+ lf +:+ lf +:+ "  " +:+ lf
  +:+ "103.21.244.0/22" +:+ crlf.

Definition http_get (url : string) (h : headers) (w : unit)
    : (exn + string) * unit :=
  (inr body, w).

Definition unreachable (url : string) (h : headers) (w : unit)
    : (exn + string) * unit :=
  match h with
  | UA_HEADERS_PLAIN => (inl (OtherError "URLError" "timed out"), w)
  | UA_HEADERS_JSON => (inr "{}", w)
  end.

Definition decode_utf8 (b : string) : exn + string := inr b.

Definition json_loads (raw : string) : exn + ApiData.t :=
  inr (ApiData.mk
         (Val (ApiResult.mk (Val ["173.245.48.0/20"]) Null))).

End PlainFeed.

(** The located record and the provider of a list that only the second
    discovery API shows: no owner, no version, no maximum entry count. *)
Module Unowned.

Definition listed : PL.t :=
  Scenario.short_record "pl-63a5400a" "com.amazonaws.us-east-1.s3" ["52.216.0.0/15"].

Definition world : Fake.world :=
  Fake.mkWorld (inr []) (inr [listed]) [Fake.entry "52.216.0.0/15"] 5
    [Fake.updated 2].

End Unowned.

(** What an update call carries: the entries to add and the entries to
    remove of one call, and of a list of calls in order. *)
Definition add_entries_of (ev : event) : option (list AddEntry.t) :=
  match ev with
  | EvModify _ kw => ModifyKw.AddEntries kw
  | _ => None
  end.

Definition remove_entries_of (ev : event) : option (list RemoveEntry.t) :=
  match ev with
  | EvModify _ kw => ModifyKw.RemoveEntries kw
  | _ => None
  end.

Definition adds_sent (evs : list event) : list AddEntry.t :=
  concat (omap add_entries_of evs).

Definition rems_sent (evs : list event) : list RemoveEntry.t :=
  concat (omap remove_entries_of evs).

(** An update call of at most [n] entries to add and [n] to remove, and not
    empty on both sides. *)
Definition update_of_at_most (n : nat) (ev : event) : Prop :=
  is_modify ev = true
  ∧ (length (default [] (add_entries_of ev)) ≤ n)%nat
  ∧ (length (default [] (remove_entries_of ev)) ≤ n)%nat
  ∧ (is_Some (add_entries_of ev) ∨ is_Some (remove_entries_of ev)).

Module Batches.

(** 170 ranges wanted on the owned list of two entries: three batches to
    add, one to remove. The provider accepts the first update, refuses the
    second and would accept a third. *)
Definition wide : gset string :=
  list_to_set ((λ i, "10.1.0." +:+ pretty i +:+ "/32") <$> seq 0 170).

Definition refusing_second : Fake.world :=
  Fake.mkWorld (inr [Fake.managed_record "pl-4" "cf-v4" "111" 3 200]) (inr [])
    [Fake.entry "10.0.0.0/8"; Fake.entry "192.168.0.0/16"] 1
    [Fake.updated 4; inl (ClientError Cases.denied); Fake.updated 6].

Definition after_refusal : Fake.world :=
  Fake.mkWorld (Fake.managed refusing_second) (Fake.plain refusing_second)
               (Fake.entries refusing_second) 1 [Fake.updated 6].

Definition adds : list AddEntry.t :=
  entries_to_add "" (to_add wide Scenario.have_owned).

Definition rems : list RemoveEntry.t :=
  RemoveEntry.mk <$> to_remove wide Scenario.have_owned.

End Batches.

(** * Properties *)

(** ** The delta *)

Section Delta.
Implicit Types want have : gset string.

Lemma sorted_elements (X : gset string) :
  list_to_set (sorted X) = X ∧ NoDup (sorted X)
  ∧ StronglySorted String.le (sorted X).
Proof.
  unfold sorted. split_and!.
  - rewrite (list_to_set_perm_L _ (elements X)) by apply merge_sort_Permutation.
    apply list_to_set_elements_L.
  - rewrite merge_sort_Permutation. apply NoDup_elements.
  - apply StronglySorted_merge_sort; apply _.
Qed.

Lemma elem_of_sorted (X : gset string) x : x ∈ sorted X ↔ x ∈ X.
Proof.
  unfold sorted. rewrite merge_sort_Permutation. apply elem_of_elements.
Qed.

End Delta.

(** C7. The delta of [apply_delta] is the pair of set differences, each as
    a sorted sequence without repetition: [to_add] lists exactly [D − C] and
    [to_remove] exactly [C − D]; hence the two are disjoint, nothing to add
    is in the current set, and everything to remove is. *)
Theorem delta_is_set_difference (D C : gset string) :
  list_to_set (to_add D C) = D ∖ C
  ∧ list_to_set (to_remove D C) = C ∖ D
  ∧ StronglySorted String.le (to_add D C) ∧ NoDup (to_add D C)
  ∧ StronglySorted String.le (to_remove D C) ∧ NoDup (to_remove D C)
  ∧ (∀ x, x ∈ to_add D C → x ∉ to_remove D C)
  ∧ (∀ x, x ∈ to_add D C → x ∉ C)
  ∧ (∀ x, x ∈ to_remove D C → x ∈ C).
Proof.
  unfold to_add, to_remove.
  assert (∀ x, x ∈ sorted (D ∖ C) → x ∉ sorted (C ∖ D)) as Hdisj
    by (intros x; rewrite !elem_of_sorted, !elem_of_difference; tauto).
  assert (∀ x, x ∈ sorted (D ∖ C) → x ∉ C) as Hfresh
    by (intros x; rewrite elem_of_sorted, elem_of_difference; tauto).
  assert (∀ x, x ∈ sorted (C ∖ D) → x ∈ C) as Hsub
    by (intros x; rewrite elem_of_sorted, elem_of_difference; tauto).
  destruct (sorted_elements (D ∖ C)) as (Ea & Na & Sa).
  destruct (sorted_elements (C ∖ D)) as (Er & Nr & Sr).
  by split_and!.
Qed.

(** ** Running the monad *)

Section Run.
Context {W : Type}.
Implicit Types s : state W.

Lemma bind_Return {A B} (m : M W A) (k : A → M W B) s a s' :
  m s = (Return a, s') → bind m k s = k a s'.
Proof. unfold bind. by intros ->. Qed.

Lemma reads_only_ret {A} (a : A) : reads_only (ret (W:=W) a).
Proof. intros s r s' [= <- <-]. exists []. by rewrite app_nil_r. Qed.

Lemma reads_only_raise {A} e : reads_only (raise (W:=W) (A:=A) e).
Proof. intros s r s' [= <- <-]. exists []. by rewrite app_nil_r. Qed.

Lemma reads_only_diverge {A} : reads_only (diverge (W:=W) (A:=A)).
Proof. intros s r s' [= <- <-]. exists []. by rewrite app_nil_r. Qed.

Lemma reads_only_bind {A B} (m : M W A) (k : A → M W B) :
  reads_only m → (∀ a, reads_only (k a)) → reads_only (bind m k).
Proof.
  intros Hm Hk s r s'. unfold bind.
  destruct (m s) as [[a|e|] s1] eqn:E; destruct (Hm _ _ _ E) as (evs & Hc & Hevs).
  - intros Hka. destruct (Hk _ _ _ _ Hka) as (evs' & -> & Hevs').
    exists (evs ++ evs'). rewrite Hc, app_assoc. split; [done|].
    by apply Forall_app.
  - intros [= <- <-]. eauto.
  - intros [= <- <-]. eauto.
Qed.

Lemma reads_only_call {R} ev (op : W → (exn + R) * W) :
  is_modify ev = false → reads_only (call ev op).
Proof.
  intros Hev s r s'. unfold call. destruct (op (world s)) as [x w'].
  intros [= <- <-]. exists [ev]. split; [done|]. by constructor.
Qed.

Lemma reads_only_emit ev : is_modify ev = false → reads_only (emit (W:=W) ev).
Proof.
  intros Hev s r s' [= <- <-]. exists [ev]. split; [done|]. by constructor.
Qed.

Lemma reads_only_except {A} (m : M W A) h :
  reads_only m → (∀ msg, reads_only (h msg)) → reads_only (except_ClientError m h).
Proof.
  intros Hm Hh s r s'. unfold except_ClientError.
  destruct (m s) as [[a|e|] s1] eqn:E; destruct (Hm _ _ _ E) as (evs & Hc & Hevs);
    try (intros [= <- <-]; by eauto).
  destruct e; try (intros [= <- <-]; by eauto).
  intros Hh'. destruct (Hh _ _ _ _ Hh') as (evs' & -> & Hevs').
  exists (evs ++ evs'). rewrite Hc, app_assoc. split; [done|]. by apply Forall_app.
Qed.

Lemma reads_only_if {A} (b : bool) (m1 m2 : M W A) :
  reads_only m1 → reads_only m2 → reads_only (if b then m1 else m2).
Proof. by destruct b. Qed.
End Run.

Create HintDb reads.

#[local] Hint Resolve reads_only_ret reads_only_raise reads_only_diverge
  reads_only_bind reads_only_call reads_only_emit reads_only_except
  reads_only_if : reads.

(** The discovery functions and the entry reader issue no update call. *)
Section ReadsOnly.
Context {W : Type} (ACCOUNT : string) (ec2 : Ec2 W).

Lemma _describe_managed_pls_reads ids tok :
  reads_only (_describe_managed_pls ec2 ids tok).
Proof. unfold _describe_managed_pls. auto with reads. Qed.

Lemma _describe_prefix_pls_reads tok : reads_only (_describe_prefix_pls ec2 tok).
Proof. unfold _describe_prefix_pls. auto with reads. Qed.

Lemma managed_pages_reads fuel tok acc :
  reads_only (managed_pages fuel ec2 tok acc).
Proof.
  revert tok acc. induction fuel as [|fuel IH]; intros tok acc; simpl.
  - auto with reads.
  - apply reads_only_bind; [apply _describe_managed_pls_reads|].
    intros resp. apply reads_only_if; auto with reads.
Qed.

Lemma prefix_pages_reads fuel tok acc :
  reads_only (prefix_pages fuel ec2 tok acc).
Proof.
  revert tok acc. induction fuel as [|fuel IH]; intros tok acc; simpl.
  - auto with reads.
  - apply reads_only_bind; [apply _describe_prefix_pls_reads|].
    intros resp. apply reads_only_if; auto with reads.
Qed.

Lemma _list_all_pls_reads fuel : reads_only (_list_all_pls fuel ec2).
Proof.
  unfold _list_all_pls.
  auto using managed_pages_reads, prefix_pages_reads with reads.
Qed.

Lemma _find_pl_reads fuel pid name : reads_only (_find_pl fuel ec2 pid name).
Proof.
  unfold _find_pl. apply reads_only_bind.
  - apply reads_only_if; auto using _describe_managed_pls_reads with reads.
  - intros [pl|]; [auto with reads|].
    apply reads_only_bind; [apply _list_all_pls_reads|]. intros all.
    destruct (List.find _ all); [auto with reads|].
    apply reads_only_if; [|auto with reads].
    apply reads_only_bind; [apply _list_all_pls_reads|]. intros again.
    destruct (List.find _ again); auto with reads.
Qed.

Lemma retries_reads fuel pid name backoff remaining i last_seen :
  reads_only (retries fuel ec2 pid name backoff remaining i last_seen).
Proof.
  revert i last_seen.
  induction remaining as [|remaining IH]; intros i last_seen; simpl.
  - auto with reads.
  - apply reads_only_bind; [apply _find_pl_reads|]. intros pl.
    assert (reads_only
              (let* last_seen' := _list_all_pls fuel ec2 in
               emit (EvSleep (backoff * 2 ^ Z.of_nat i)) ;;;
               retries fuel ec2 pid name backoff remaining (S i) last_seen'))
      as Hagain.
    { apply reads_only_bind; [apply _list_all_pls_reads|]. intros l.
      apply reads_only_bind; [by apply reads_only_emit|]. intros _. apply IH. }
    destruct pl as [p|]; [|done].
    apply reads_only_if; [auto with reads|done].
Qed.

Lemma _describe_pl_with_retries_reads fuel pid name attempts backoff :
  reads_only (_describe_pl_with_retries ACCOUNT fuel ec2 pid name attempts backoff).
Proof.
  unfold _describe_pl_with_retries.
  apply reads_only_bind; [apply retries_reads|].
  intros [pl|l]; auto with reads.
Qed.

Lemma entry_pages_reads fuel pid tok have :
  reads_only (entry_pages fuel ec2 pid tok have).
Proof.
  revert tok have. induction fuel as [|fuel IH]; intros tok have; simpl.
  - auto with reads.
  - apply reads_only_bind; [by apply reads_only_call|].
    intros resp. apply reads_only_if; auto with reads.
Qed.

Lemma get_pl_entries_reads fuel pid name :
  reads_only (get_pl_entries ACCOUNT fuel ec2 pid name).
Proof.
  unfold get_pl_entries.
  apply reads_only_bind; [apply _describe_pl_with_retries_reads|]. intros pl.
  apply reads_only_bind; [apply entry_pages_reads|]. auto with reads.
Qed.
End ReadsOnly.


(** ** Owner, capacity and no-op checks of [apply_delta] *)

Section Checks.
Context {W : Type} (ACCOUNT : string).
Implicit Types s : state W.

(** [apply_delta] once the resource has been read. *)
Lemma apply_delta_after_read fuel (ec2 : Ec2 W) pid desc want_list name acct s
    v have m owner s' :
  get_pl_entries ACCOUNT fuel ec2 pid name s = (Return (v, have, m, owner), s') →
  apply_delta ACCOUNT fuel ec2 pid desc want_list name acct s =
    (if truthy_str (Some owner) && negb (String.eqb owner acct) then
       ret (skipped pid v owner acct)
     else if truthy_int (Some m)
             && (m <? Z.of_nat (size (list_to_set want_list : gset string)))
          then raise (capacity_error (size (list_to_set want_list : gset string))
                                     m pid)
          else push_delta ACCOUNT fuel ec2 pid desc name v
                          (list_to_set want_list) have) s'.
Proof. intros H. unfold apply_delta. by rewrite (bind_Return _ _ _ _ _ H). Qed.

Lemma owned_passes_guard owner acct :
  owner = "" ∨ owner = acct →
  truthy_str (Some owner) && negb (String.eqb owner acct) = false.
Proof.
  intros [->| ->]; [done|]. rewrite String.eqb_refl. simpl.
  apply andb_false_r.
Qed.

Lemma foreign_fails_guard owner acct :
  owner ≠ "" → owner ≠ acct →
  truthy_str (Some owner) && negb (String.eqb owner acct) = true.
Proof.
  intros H1 H2. simpl.
  apply String.eqb_neq in H1, H2. by rewrite H1, H2.
Qed.
End Checks.

(** C2. When the owner read for a resource is present and is not the caller's
    account, [apply_delta] returns the skip result ([changed] false, with a
    note) in the very state in which the read of the resource ended: nothing
    is read after the owner is known, and no update call is among the calls
    issued. *)
Theorem foreign_owner_is_skipped {W} ACCOUNT fuel (ec2 : Ec2 W) pid desc
    want_list name acct s v have m owner s' :
  get_pl_entries ACCOUNT fuel ec2 pid name s = (Return (v, have, m, owner), s') →
  owner ≠ "" →
  owner ≠ acct →
  apply_delta ACCOUNT fuel ec2 pid desc want_list name acct s
    = (Return (skipped pid v owner acct), s')
  ∧ changed (skipped pid v owner acct) = false
  ∧ is_Some (note (skipped pid v owner acct))
  ∧ ∃ evs, calls s' = calls s ++ evs ∧ Forall (λ ev, is_modify ev = false) evs.
Proof.
  intros Hread Hpresent Hdiffers. split_and!.
  - rewrite (apply_delta_after_read _ _ _ _ _ _ _ _ _ _ _ _ _ _ Hread).
    by rewrite foreign_fails_guard.
  - reflexivity.
  - by eexists.
  - eapply get_pl_entries_reads, Hread.
Qed.

Lemma foreign_owner_is_skipped_witness :
  let s := Fake.start Scenario.owned in
  let s' := (get_pl_entries "999" 5 Scenario.us_east_1 "pl-4" None s).2 in
  apply_delta "999" 5 Scenario.us_east_1 "pl-4" "" ["172.16.0.0/12"] None "999" s
    = (Return (skipped "pl-4" 3 "111" "999"), s')
  ∧ changed (skipped "pl-4" 3 "111" "999") = false
  ∧ is_Some (note (skipped "pl-4" 3 "111" "999"))
  ∧ ∃ evs, calls s' = calls s ++ evs ∧ Forall (λ ev, is_modify ev = false) evs.
Proof.
  intros s s'.
  apply (foreign_owner_is_skipped "999" 5%nat Scenario.us_east_1 "pl-4" ""
           ["172.16.0.0/12"] None "999" s 3 Scenario.have_owned 10 "111" s').
  - vm_compute. reflexivity.
  - discriminate.
  - discriminate.
Defined.

(** C5. When the resource is the caller's (its owner is empty or the
    caller's account), reports a maximum entry count above 0, and the
    desired set has more elements than that, [apply_delta] raises the
    capacity error, whose message names both counts, in the state in which
    the read of the resource ended; no update call is among the calls
    issued. *)
Theorem capacity_exceeded_fails {W} ACCOUNT fuel (ec2 : Ec2 W) pid desc
    want_list name acct s v have m owner s' :
  get_pl_entries ACCOUNT fuel ec2 pid name s = (Return (v, have, m, owner), s') →
  owner = "" ∨ owner = acct →
  0 < m →
  m < Z.of_nat (size (list_to_set want_list : gset string)) →
  apply_delta ACCOUNT fuel ec2 pid desc want_list name acct s
    = (Raise (RuntimeError
               ("Desired entries ("
                +:+ pretty (size (list_to_set want_list : gset string))
                +:+ ") exceed MaxEntries (" +:+ pretty m +:+ ") for " +:+ pid
                +:+ ". Increase 'max_entries' in Terraform and re-apply.")), s')
  ∧ ∃ evs, calls s' = calls s ++ evs ∧ Forall (λ ev, is_modify ev = false) evs.
Proof.
  intros Hread Howned Hpos Hover. split.
  - rewrite (apply_delta_after_read _ _ _ _ _ _ _ _ _ _ _ _ _ _ Hread).
    rewrite owned_passes_guard by done.
    assert (truthy_int (Some m) = true) as -> by (simpl; apply negb_true_iff; lia).
    assert ((m <? Z.of_nat (size (list_to_set want_list : gset string))) = true)
      as -> by lia.
    reflexivity.
  - eapply get_pl_entries_reads, Hread.
Qed.

Lemma capacity_exceeded_fails_witness :
  let s := Fake.start Scenario.tight in
  let s' := (get_pl_entries "111" 5 Scenario.us_east_1 "pl-4" None s).2 in
  apply_delta "111" 5 Scenario.us_east_1 "pl-4" ""
              ["10.0.0.0/8"; "172.16.0.0/12"; "10.0.0.0/8"; "192.168.0.0/16"]
              None "111" s
    = (Raise (RuntimeError
               "Desired entries (3) exceed MaxEntries (2) for pl-4. Increase 'max_entries' in Terraform and re-apply."),
       s')
  ∧ ∃ evs, calls s' = calls s ++ evs ∧ Forall (λ ev, is_modify ev = false) evs.
Proof.
  intros s s'.
  apply (capacity_exceeded_fails "111" 5%nat Scenario.us_east_1 "pl-4" ""
           ["10.0.0.0/8"; "172.16.0.0/12"; "10.0.0.0/8"; "192.168.0.0/16"]
           None "111" s 3 Scenario.have_owned 2 "111" s').
  - vm_compute. reflexivity.
  - by right.
  - reflexivity.
  - vm_compute. reflexivity.
Defined.

(** C8. When the resource is the caller's, holds no more entries than its
    maximum entry count allows, and the desired set equals the set read
    from it, both halves of the delta are empty and [apply_delta] returns
    the up-to-date result ([changed] false, [from_version] equal to
    [to_version]) in the state in which the read of the resource ended; no
    update call is among the calls issued. *)
Theorem unchanged_set_is_noop {W} ACCOUNT fuel (ec2 : Ec2 W) pid desc
    want_list name acct s v have m owner s' :
  get_pl_entries ACCOUNT fuel ec2 pid name s = (Return (v, have, m, owner), s') →
  owner = "" ∨ owner = acct →
  m = 0 ∨ Z.of_nat (size have) ≤ m →
  list_to_set want_list = have →
  to_add (list_to_set want_list) have = []
  ∧ to_remove (list_to_set want_list) have = []
  ∧ apply_delta ACCOUNT fuel ec2 pid desc want_list name acct s
      = (Return (up_to_date pid v have), s')
  ∧ changed (up_to_date pid v have) = false
  ∧ from_version (up_to_date pid v have) = to_version (up_to_date pid v have)
  ∧ ∃ evs, calls s' = calls s ++ evs ∧ Forall (λ ev, is_modify ev = false) evs.
Proof.
  intros Hread Howned Hroom Hsame.
  assert (to_add (list_to_set want_list) have = []) as Hadd.
  { rewrite Hsame. unfold to_add. by rewrite difference_diag_L. }
  assert (to_remove (list_to_set want_list) have = []) as Hrem.
  { rewrite Hsame. unfold to_remove. by rewrite difference_diag_L. }
  split_and!; try done.
  - rewrite (apply_delta_after_read _ _ _ _ _ _ _ _ _ _ _ _ _ _ Hread).
    rewrite owned_passes_guard by done.
    assert (truthy_int (Some m)
            && (m <? Z.of_nat (size (list_to_set want_list : gset string))) = false)
      as ->.
    { rewrite Hsame. destruct Hroom as [->|Hle]; [done|].
      apply andb_false_iff. right. lia. }
    unfold push_delta. by rewrite Hadd, Hrem.
  - eapply get_pl_entries_reads, Hread.
Qed.

Lemma unchanged_set_is_noop_witness :
  let s := Fake.start Scenario.owned in
  let s' := (get_pl_entries "111" 5 Scenario.us_east_1 "pl-4" None s).2 in
  let want_list := ["192.168.0.0/16"; "10.0.0.0/8"; "192.168.0.0/16"] in
  to_add (list_to_set want_list) Scenario.have_owned = []
  ∧ to_remove (list_to_set want_list) Scenario.have_owned = []
  ∧ apply_delta "111" 5 Scenario.us_east_1 "pl-4" "" want_list None "111" s
      = (Return (up_to_date "pl-4" 3 Scenario.have_owned), s')
  ∧ changed (up_to_date "pl-4" 3 Scenario.have_owned) = false
  ∧ from_version (up_to_date "pl-4" 3 Scenario.have_owned)
    = to_version (up_to_date "pl-4" 3 Scenario.have_owned)
  ∧ ∃ evs, calls s' = calls s ++ evs ∧ Forall (λ ev, is_modify ev = false) evs.
Proof.
  intros s s' want_list.
  apply (unchanged_set_is_noop "111" 5%nat Scenario.us_east_1 "pl-4" ""
           want_list None "111" s 3 Scenario.have_owned 10 "111" s').
  - vm_compute. reflexivity.
  - by right.
  - right. vm_compute. discriminate.
  - vm_compute. reflexivity.
Defined.

(** C10. The entry reader reports what the located record carries, with
    defaults: version 1 when [Version] is absent or null, maximum entry
    count 0 when [MaxEntries] is absent, null or 0. With a reported maximum
    of 0 on a resource of the caller, [apply_delta] raises no capacity
    error whatever the desired list: it goes on to compute and push the
    delta. *)
Theorem reader_defaults {W} ACCOUNT fuel (ec2 : Ec2 W) pid name :
  (∀ s pl s1 have s2,
     _describe_pl_with_retries ACCOUNT fuel ec2 pid name ATTEMPTS BACKOFF s
       = (Return pl, s1) →
     entry_pages fuel ec2 pid None ∅ s1 = (Return have, s2) →
     ∃ v m owner,
       get_pl_entries ACCOUNT fuel ec2 pid name s = (Return (v, have, m, owner), s2)
       ∧ (get (PL.Version pl) = None → v = 1)
       ∧ (get (PL.MaxEntries pl) = None ∨ get (PL.MaxEntries pl) = Some 0 → m = 0))
  ∧ (∀ s v have owner s' desc want_list acct,
       get_pl_entries ACCOUNT fuel ec2 pid name s = (Return (v, have, 0, owner), s') →
       owner = "" ∨ owner = acct →
       apply_delta ACCOUNT fuel ec2 pid desc want_list name acct s
       = push_delta ACCOUNT fuel ec2 pid desc name v (list_to_set want_list) have s').
Proof.
  split.
  - intros s pl s1 have s2 Hpl Hhave.
    exists (or_int (get (PL.Version pl)) 1), (or_int (get (PL.MaxEntries pl)) 0),
      (or_str (get (PL.OwnerId pl)) "").
    split_and!.
    + unfold get_pl_entries.
      rewrite (bind_Return _ _ _ _ _ Hpl). by rewrite (bind_Return _ _ _ _ _ Hhave).
    + by intros ->.
    + by intros [-> | ->].
  - intros s v have owner s' desc want_list acct Hread Howned.
    rewrite (apply_delta_after_read _ _ _ _ _ _ _ _ _ _ _ _ _ _ Hread).
    by rewrite owned_passes_guard.
Qed.

Lemma reader_defaults_witness :
  let s := Fake.start Scenario.bare in
  let s1 := (_describe_pl_with_retries "111" 5 Scenario.us_east_1 "pl-4" None
                                       ATTEMPTS BACKOFF s).2 in
  let s2 := (get_pl_entries "111" 5 Scenario.us_east_1 "pl-4" None s).2 in
  let want_list := ["10.0.0.0/8"; "172.16.0.0/12"; "192.168.0.0/16"] in
  (∃ v m owner,
     get_pl_entries "111" 5 Scenario.us_east_1 "pl-4" None s
       = (Return (v, ∅, m, owner), s2)
     ∧ (get (PL.Version Scenario.bare_record) = None → v = 1)
     ∧ (get (PL.MaxEntries Scenario.bare_record) = None
        ∨ get (PL.MaxEntries Scenario.bare_record) = Some 0 → m = 0))
  ∧ apply_delta "111" 5 Scenario.us_east_1 "pl-4" "" want_list None "111" s
    = push_delta "111" 5 Scenario.us_east_1 "pl-4" "" None 1
                 (list_to_set want_list) ∅ s2.
Proof.
  intros s s1 s2 want_list.
  destruct (reader_defaults "111" 5%nat Scenario.us_east_1 "pl-4" None) as [Hr Ha].
  split.
  - apply (Hr s Scenario.bare_record s1 ∅ s2); vm_compute; reflexivity.
  - apply (Ha s 1 ∅ "" s2 "" want_list "111"); [vm_compute; reflexivity | by left].
Defined.

(** ** Batches *)

Section Chunks.
Context {A : Type}.
Implicit Types l : list A.

Lemma range_step_lookup stop step i j :
  range_step stop step !! i = Some j → j = (i * step)%nat.
Proof.
  unfold range_step. rewrite list_lookup_fmap.
  destruct (seq 0 _ !! i) as [k|] eqn:E; [|done].
  apply lookup_seq in E as [-> _]. by intros [= <-].
Qed.

Lemma count_step stop step :
  (0 < step)%nat → (0 < stop)%nat →
  ((stop + step - 1) / step = S ((stop - step + step - 1) / step))%nat.
Proof.
  intros Hstep Hstop. destruct (decide (stop ≤ step)%nat) as [Hle|Hgt].
  - replace (stop - step + step - 1)%nat with (step - 1)%nat by lia.
    rewrite (Nat.div_small (step - 1) step) by lia.
    symmetry. apply (Nat.div_unique _ _ _ (stop - 1)%nat); lia.
  - replace (stop + step - 1)%nat with ((stop - step + step - 1) + 1 * step)%nat
      by lia.
    rewrite Nat.div_add by lia. lia.
Qed.

Lemma _chunks_nil n : (0 < n)%nat → _chunks (@nil A) n = [].
Proof.
  intros Hn. unfold _chunks, range_step. simpl.
  by rewrite (Nat.div_small (n - 1) n) by lia.
Qed.

Lemma _chunks_cons n l :
  (0 < n)%nat → l ≠ [] → _chunks l n = take n l :: _chunks (drop n l) n.
Proof.
  intros Hn Hl. unfold _chunks, range_step.
  assert (0 < length l)%nat as Hlen by (destruct l; [done|simpl; lia]).
  rewrite (count_step (length l) n) by done.
  rewrite length_drop. simpl. f_equal.
  rewrite <- fmap_S_seq, <- !list_fmap_compose.
  apply list_fmap_ext. intros i k _. simpl.
  by rewrite drop_drop, Nat.add_comm.
Qed.

Lemma _chunks_concat n l : (0 < n)%nat → concat (_chunks l n) = l.
Proof.
  intros Hn.
  enough (∀ k l, (length l < k)%nat → concat (_chunks l n) = l) as H
    by (apply (H (S (length l))); lia).
  clear l. induction k as [|k IH]; intros l Hk; [lia|].
  destruct l as [|x l']; [by rewrite _chunks_nil|].
  rewrite _chunks_cons by done. simpl concat.
  rewrite IH; [apply take_drop|].
  rewrite length_drop. simpl in *. lia.
Qed.

Lemma _chunks_sizes n l :
  (0 < n)%nat → Forall (λ b, (0 < length b ≤ n)%nat) (_chunks l n).
Proof.
  intros Hn.
  enough (∀ k l, (length l < k)%nat →
                 Forall (λ b, (0 < length b ≤ n)%nat) (_chunks l n)) as H
    by (apply (H (S (length l))); lia).
  clear l. induction k as [|k IH]; intros l Hk; [lia|].
  destruct l as [|x l']; [rewrite _chunks_nil by done; constructor|].
  rewrite _chunks_cons by done. constructor.
  - rewrite length_take. simpl. lia.
  - apply IH. rewrite length_drop. simpl in *. lia.
Qed.

Lemma _chunks_lookup n l i b :
  _chunks l n !! i = Some b → b = take n (drop (i * n) l).
Proof.
  unfold _chunks. rewrite list_lookup_fmap.
  destruct (range_step (length l) n !! i) as [j|] eqn:E; [|done].
  apply range_step_lookup in E as ->. by intros [= <-].
Qed.

Lemma _chunks_85 l :
  length l = 85%nat → _chunks l MAX_BATCH = [take 80 l; drop 80 l].
Proof.
  intros Hlen. unfold _chunks, range_step, MAX_BATCH. rewrite Hlen. simpl.
  rewrite drop_0. do 2 f_equal. apply take_ge. rewrite length_drop. lia.
Qed.
End Chunks.

(** ** The update loop *)

Section Updates.
Context {W : Type} (ACCOUNT : string) (fuel : nat) (ec2 : Ec2 W)
  (pid : string) (name : option string).
Implicit Types (s : state W) (a : list (list AddEntry.t))
  (r : list (list RemoveEntry.t)).

(** The loop of [apply_delta] submits the pairs that remain from its two
    indices on, in order. *)
Lemma update_loop_from steps a r ai ri v s :
  (length a - ai ≤ steps)%nat → (length r - ri ≤ steps)%nat →
  update_loop ACCOUNT steps fuel ec2 pid name a r ai ri v s
  = submit_all ACCOUNT fuel ec2 pid name (paired (drop ai a) (drop ri r)) v s.
Proof.
  revert ai ri v s.
  induction steps as [|steps IH]; intros ai ri v s Ha Hr; cbn [update_loop];
    destruct (Nat.ltb_spec ai (length a)) as [Hai|Hai];
    destruct (Nat.ltb_spec ri (length r)) as [Hri|Hri];
    cbn [orb]; try lia.
  - by rewrite !drop_ge by lia.
  - destruct (lookup_lt_is_Some_2 a ai) as [x Hx]; [lia|].
    destruct (lookup_lt_is_Some_2 r ri) as [y Hy]; [lia|].
    rewrite (drop_S _ _ _ Hx), (drop_S _ _ _ Hy), Hx, Hy.
    cbn [paired submit_all]. unfold bind.
    destruct (_modify _ _ _ _ _ _ _ _ s) as [[v'| |] s1]; try done.
    apply IH; lia.
  - destruct (lookup_lt_is_Some_2 a ai) as [x Hx]; [lia|].
    rewrite (drop_S _ _ _ Hx), Hx, (drop_ge r ri) by lia.
    cbn [paired submit_all]. unfold bind.
    destruct (_modify _ _ _ _ _ _ _ _ s) as [[v'| |] s1]; try done.
    rewrite IH by lia. by rewrite (drop_ge r ri) by lia.
  - destruct (lookup_lt_is_Some_2 r ri) as [y Hy]; [lia|].
    rewrite (drop_S _ _ _ Hy), Hy, (drop_ge a ai) by lia.
    cbn [paired submit_all fmap list_fmap]. unfold bind.
    destruct (_modify _ _ _ _ _ _ _ _ s) as [[v'| |] s1]; try done.
    rewrite IH by lia. by rewrite (drop_ge a ai) by lia.
  - by rewrite !drop_ge by lia.
Qed.

(** A call that the provider accepts: one update call with the current
    token, answered with the next token. *)
Lemma _modify_accepted add_batch rem_batch hint s resp w' v' :
  modify_managed_prefix_list ec2 (modify_kwargs pid hint add_batch rem_batch)
                             (world s) = (inr resp, w') →
  ModifyResp.PrefixList resp = Some (Some v') →
  _modify ACCOUNT fuel ec2 pid name add_batch rem_batch hint s
  = (Return v',
     mkState w' (calls s ++ [EvModify (region_name ec2)
                               (modify_kwargs pid hint add_batch rem_batch)])).
Proof.
  intros Hcall Hv. unfold _modify, except_ClientError, bind, call, version_of.
  by rewrite Hcall, Hv.
Qed.
End Updates.

(** The pairs hold batches of the two lists, and no pair is empty on both
    sides. *)
Lemma paired_elem {A B} (l : list A) (k : list B) a r :
  (a, r) ∈ paired l k →
  (∀ x, a = Some x → x ∈ l) ∧ (∀ y, r = Some y → y ∈ k)
  ∧ (is_Some a ∨ is_Some r).
Proof.
  revert k. induction l as [|x l IH]; intros k; cbn [paired].
  - intros (y & [= -> ->] & Hy)%list_elem_of_fmap.
    split_and!; [done|by intros ? [= <-]|right; by eexists].
  - destruct k as [|y k].
    + intros [[= -> ->]|H]%elem_of_cons.
      * split_and!; [intros ? [= <-]; left|done|left; by eexists].
      * destruct (IH _ H) as (Ha & Hr & Hs).
        split_and!; [intros ? ->; right; by apply Ha|done|done].
    + intros [[= -> ->]|H]%elem_of_cons.
      * split_and!; [intros ? [= <-]; left|intros ? [= <-]; left|left; by eexists].
      * destruct (IH _ H) as (Ha & Hr & Hs).
        split_and!; [intros ? ->; right; by apply Ha
                    |intros ? ->; right; by apply Hr|done].
Qed.

(** What [_modify] sends: the identifier, the token, and each batch that is
    not empty. *)
Lemma modify_kwargs_carries pid hint add_batch rem_batch :
  add_batch ≠ Some [] → rem_batch ≠ Some [] →
  modify_kwargs pid hint add_batch rem_batch
  = ModifyKw.mk pid hint add_batch rem_batch.
Proof.
  intros Ha Hr. unfold modify_kwargs.
  destruct add_batch as [[|x a]|], rem_batch as [[|y r]|]; done.
Qed.

(** C6. The add list and the remove list are each cut into consecutive
    batches of at most [MAX_BATCH] = 80 entries. For a delta that is not
    empty, [apply_delta] issues one [_modify] per index, pairing the add-batch
    and the remove-batch of that index, and passes the version each one
    returns on to the next. Every pair holds a batch, and what [_modify] sends
    for it is the identifier, the current token and the batches of the pair.
    A call the provider accepts is a single update call carrying them. With
    85 entries to add and none to remove, two accepted update calls are
    issued: the first carries the first 80 entries and the version read, the
    second the last 5 and the version the first returned. *)
Theorem batches_are_paired_and_chained {W} ACCOUNT fuel (ec2 : Ec2 W) pid name :
  (∀ A (l : list A),
     concat (_chunks l MAX_BATCH) = l
     ∧ Forall (λ b, (0 < length b ≤ 80)%nat) (_chunks l MAX_BATCH)
     ∧ ∀ i b, _chunks l MAX_BATCH !! i = Some b
              → b = take 80 (drop (i * 80) l))
  ∧ (∀ desc v want have s,
       to_add want have ≠ [] ∨ to_remove want have ≠ [] →
       push_delta ACCOUNT fuel ec2 pid desc name v want have s
       = (let* version :=
            submit_all ACCOUNT fuel ec2 pid name
              (paired (_chunks (entries_to_add desc (to_add want have)) MAX_BATCH)
                      (_chunks (RemoveEntry.mk <$> to_remove want have) MAX_BATCH))
              v in
          ret (applied pid v version (to_add want have) (to_remove want have))) s)
  ∧ (∀ (adds : list AddEntry.t) (rems : list RemoveEntry.t) add_batch rem_batch hint,
       (add_batch, rem_batch)
         ∈ paired (_chunks adds MAX_BATCH) (_chunks rems MAX_BATCH) →
       (is_Some add_batch ∨ is_Some rem_batch)
       ∧ (∀ b, add_batch = Some b → b ∈ _chunks adds MAX_BATCH)
       ∧ (∀ b, rem_batch = Some b → b ∈ _chunks rems MAX_BATCH)
       ∧ modify_kwargs pid hint add_batch rem_batch
         = ModifyKw.mk pid hint add_batch rem_batch)
  ∧ (∀ add_batch rem_batch hint s resp w' v',
       add_batch ≠ Some [] → rem_batch ≠ Some [] →
       modify_managed_prefix_list ec2 (ModifyKw.mk pid hint add_batch rem_batch)
                                  (world s) = (inr resp, w') →
       ModifyResp.PrefixList resp = Some (Some v') →
       _modify ACCOUNT fuel ec2 pid name add_batch rem_batch hint s
       = (Return v',
          mkState w' (calls s ++ [EvModify (region_name ec2)
                                    (ModifyKw.mk pid hint add_batch rem_batch)])))
  ∧ (∀ adds v s resp1 w1 v1 resp2 w2 v2,
       length adds = 85%nat →
       modify_managed_prefix_list ec2 (ModifyKw.mk pid v (Some (take 80 adds)) None)
                                  (world s) = (inr resp1, w1) →
       ModifyResp.PrefixList resp1 = Some (Some v1) →
       modify_managed_prefix_list ec2 (ModifyKw.mk pid v1 (Some (drop 80 adds)) None)
                                  w1 = (inr resp2, w2) →
       ModifyResp.PrefixList resp2 = Some (Some v2) →
       let first := ModifyKw.mk pid v (Some (take 80 adds)) None in
       let second := ModifyKw.mk pid v1 (Some (drop 80 adds)) None in
       update_loop ACCOUNT
         (length (_chunks adds MAX_BATCH)
          `max` length (_chunks (@nil RemoveEntry.t) MAX_BATCH))
         fuel ec2 pid name (_chunks adds MAX_BATCH) (_chunks [] MAX_BATCH) 0 0 v s
       = (Return v2,
          mkState w2 (calls s ++ [EvModify (region_name ec2) first;
                                  EvModify (region_name ec2) second]))
       ∧ length <$> ModifyKw.AddEntries first = Some 80%nat
       ∧ length <$> ModifyKw.AddEntries second = Some 5%nat
       ∧ ModifyKw.CurrentVersion first = v
       ∧ ModifyKw.CurrentVersion second = v1).
Proof.
  assert (∀ A (l : list A) b, b ∈ _chunks l MAX_BATCH → b ≠ []) as Hfull.
  { intros A l b Hb.
    pose proof (_chunks_sizes MAX_BATCH l ltac:(unfold MAX_BATCH; lia)) as Hs.
    rewrite Forall_forall in Hs. specialize (Hs _ Hb). intros ->. cbn in Hs. lia. }
  split_and!.
  - intros A l. split_and!.
    + apply _chunks_concat. unfold MAX_BATCH. lia.
    + apply (_chunks_sizes MAX_BATCH). unfold MAX_BATCH. lia.
    + intros i b. apply _chunks_lookup.
  - intros desc v want have s Hdelta. unfold push_delta.
    assert (negb (truthy_list (to_add want have))
            && negb (truthy_list (to_remove want have)) = false) as ->.
    { destruct Hdelta as [H|H]; [destruct (to_add want have)|
                                 destruct (to_remove want have)]; try done.
      apply andb_false_r. }
    unfold bind. rewrite update_loop_from by lia. by rewrite !drop_0.
  - intros adds rems add_batch rem_batch hint (Ha & Hr & Hs)%paired_elem.
    split_and!; [done|done|done|].
    apply modify_kwargs_carries.
    + intros ->. by apply (Hfull _ adds []); [apply Ha|].
    + intros ->. by apply (Hfull _ rems []); [apply Hr|].
  - intros add_batch rem_batch hint s resp w' v' Ha Hr Hcall Hv.
    rewrite <- (modify_kwargs_carries pid hint add_batch rem_batch Ha Hr) in *.
    eapply _modify_accepted; [exact Hcall|exact Hv].
  - intros adds v s resp1 w1 v1 resp2 w2 v2 Hlen H1 Hv1 H2 Hv2.
    assert (length (take 80 adds) = 80%nat) as Ht by (rewrite length_take; lia).
    assert (length (drop 80 adds) = 5%nat) as Hd by (rewrite length_drop; lia).
    split_and!; [|cbn; by rewrite Ht|cbn; by rewrite Hd|done|done].
    assert (∀ hint, modify_kwargs pid hint (Some (take 80 adds)) None
                    = ModifyKw.mk pid hint (Some (take 80 adds)) None) as E1.
    { intros hint. apply modify_kwargs_carries; [|done].
      intros [= E]. by rewrite E in Ht. }
    assert (∀ hint, modify_kwargs pid hint (Some (drop 80 adds)) None
                    = ModifyKw.mk pid hint (Some (drop 80 adds)) None) as E2.
    { intros hint. apply modify_kwargs_carries; [|done].
      intros [= E]. by rewrite E in Hd. }
    rewrite <- E1 in H1 |- *. rewrite <- E2 in H2 |- *.
    rewrite update_loop_from by lia. rewrite !drop_0.
    rewrite (_chunks_85 adds) by done. rewrite _chunks_nil by (unfold MAX_BATCH; lia).
    cbn [paired submit_all]. unfold bind.
    rewrite (_modify_accepted _ _ _ _ _ _ _ _ _ _ _ _ H1 Hv1).
    rewrite (_modify_accepted _ _ _ _ _ _ _ _ (mkState w1 _) _ _ _ H2 Hv2).
    unfold ret. cbn [calls]. by rewrite <- app_assoc.
Qed.

Lemma batches_are_paired_and_chained_witness :
  let s := Fake.start Scenario.two_updates in
  let ec2 := Scenario.us_east_1 in
  let adds := Scenario.adds_85 in
  let want : gset string := {["172.16.0.0/12"]} in
  let have := Scenario.have_owned in
  let first := ModifyKw.mk "pl-4" 3 (Some (take 80 adds)) None in
  let second := ModifyKw.mk "pl-4" 4 (Some (drop 80 adds)) None in
  push_delta "111" 5 ec2 "pl-4" "" None 3 want have s
  = (let* version :=
       submit_all "111" 5 ec2 "pl-4" None
         (paired (_chunks (entries_to_add "" (to_add want have)) MAX_BATCH)
                 (_chunks (RemoveEntry.mk <$> to_remove want have) MAX_BATCH))
         3 in
     ret (applied "pl-4" 3 version (to_add want have) (to_remove want have))) s
  ∧ modify_kwargs "pl-4" 3 (Some (take 80 adds)) None = first
  ∧ _modify "111" 5 ec2 "pl-4" None (Some (take 80 adds)) None 3 s
    = (Return 4, mkState Scenario.one_update_left [EvModify "us-east-1" first])
  ∧ update_loop "111"
      (length (_chunks adds MAX_BATCH) `max` length (_chunks (@nil RemoveEntry.t) MAX_BATCH))
      5 ec2 "pl-4" None (_chunks adds MAX_BATCH) (_chunks [] MAX_BATCH) 0 0 3 s
    = (Return 5,
       mkState Scenario.no_update_left
         [EvModify "us-east-1" first; EvModify "us-east-1" second])
  ∧ length <$> ModifyKw.AddEntries first = Some 80%nat
  ∧ length <$> ModifyKw.AddEntries second = Some 5%nat
  ∧ ModifyKw.CurrentVersion first = 3
  ∧ ModifyKw.CurrentVersion second = 4.
Proof.
  intros s ec2 adds want have first second.
  destruct (batches_are_paired_and_chained "111" 5%nat ec2 "pl-4" None)
    as (_ & Hpush & Hpair & Hcall & H85).
  split; [|split; [|split]].
  - apply Hpush. left. vm_compute. discriminate.
  - apply (Hpair adds [] (Some (take 80 adds)) None 3). vm_compute. left.
  - apply (Hcall (Some (take 80 adds)) None 3 s (ModifyResp.mk (Some (Some 4)))
                 Scenario.one_update_left 4);
      [vm_compute; discriminate|done|reflexivity|reflexivity].
  - apply (H85 adds 3 s (ModifyResp.mk (Some (Some 4))) Scenario.one_update_left 4
               (ModifyResp.mk (Some (Some 5))) Scenario.no_update_left 5);
      reflexivity.
Defined.

(** ** Version conflicts *)

(** C4. When the provider rejects an update call with a [ClientError] that
    [_modify] takes for a version conflict, and the locator then returns a
    record, [_modify] issues exactly one more update call: the same
    identifier and batches, with the version of the located record as token
    (the stale token when the record carries no version). Whatever that
    second call answers is the outcome: its error propagates, and the
    update calls issued for the batch are these two. *)
Theorem conflict_is_retried_once {W} ACCOUNT fuel (ec2 : Ec2 W) pid name
    add_batch rem_batch hint s msg w1 fresh s2 :
  let kwargs := modify_kwargs pid hint add_batch rem_batch in
  let kwargs' :=
    modify_kwargs pid (or_int (get (PL.Version fresh)) hint) add_batch rem_batch in
  modify_managed_prefix_list ec2 kwargs (world s) = (inl (ClientError msg), w1) →
  version_conflict msg = true →
  _describe_pl_with_retries ACCOUNT fuel ec2 pid name ATTEMPTS BACKOFF
    (mkState w1 (calls s ++ [EvModify (region_name ec2) kwargs])) = (Return fresh, s2) →
  (∀ v', get (PL.Version fresh) = Some v' → v' ≠ 0 →
         ModifyKw.CurrentVersion kwargs' = v')
  ∧ ModifyKw.PrefixListId kwargs' = ModifyKw.PrefixListId kwargs
  ∧ ModifyKw.AddEntries kwargs' = ModifyKw.AddEntries kwargs
  ∧ ModifyKw.RemoveEntries kwargs' = ModifyKw.RemoveEntries kwargs
  ∧ ∀ r w3,
      modify_managed_prefix_list ec2 kwargs' (world s2) = (r, w3) →
      let s3 := mkState w3 (calls s2 ++ [EvModify (region_name ec2) kwargs']) in
      _modify ACCOUNT fuel ec2 pid name add_batch rem_batch hint s
      = match r with
        | inl e => (Raise e, s3)
        | inr resp => version_of resp s3
        end
      ∧ List.filter is_modify (calls s3)
        = List.filter is_modify (calls s)
          ++ [EvModify (region_name ec2) kwargs; EvModify (region_name ec2) kwargs'].
Proof.
  intros kwargs kwargs' Hfirst Hconflict Hfresh. split_and!; try done.
  - intros v' Hv Hnz. unfold kwargs', modify_kwargs, or_int. cbn.
    rewrite Hv. cbn. by destruct (Z.eqb_spec v' 0).
  - intros r w3 Hsecond s3. split.
    + unfold _modify, except_ClientError. fold kwargs.
      unfold bind at 1, call at 1. rewrite Hfirst. cbn iota beta.
      rewrite Hconflict. unfold bind at 1. rewrite Hfresh.
      fold kwargs'. unfold bind, call. rewrite Hsecond. by destruct r.
    + destruct (_describe_pl_with_retries_reads _ _ _ _ _ _ _ _ _ _ Hfresh)
        as (evs & Hcalls & Hevs).
      unfold s3. cbn [calls] in *. rewrite Hcalls.
      rewrite !List.filter_app. cbn [List.filter is_modify].
      assert (List.filter is_modify evs = []) as ->.
      { clear -Hevs. induction Hevs as [|ev evs Hev _ IH]; [done|].
        cbn. by rewrite Hev. }
      by rewrite app_nil_r, <- app_assoc.
Qed.

Lemma conflict_is_retried_once_witness :
  let s := Fake.start Scenario.contended in
  let first := EvModify "us-east-1" (modify_kwargs "pl-4" 3 Scenario.one_add None) in
  let second := EvModify "us-east-1" (modify_kwargs "pl-4" 4 Scenario.one_add None) in
  let s2 :=
    (_describe_pl_with_retries "111" 5 Scenario.us_east_1 "pl-4" None ATTEMPTS BACKOFF
       (mkState Scenario.contended_once [first])).2 in
  let s3 := mkState Scenario.contended_twice (calls s2 ++ [second]) in
  _modify "111" 5 Scenario.us_east_1 "pl-4" None Scenario.one_add None 3 s
  = (Raise (ClientError Scenario.stale), s3)
  ∧ List.filter is_modify (calls s3) = [first; second].
Proof.
  intros s first second s2 s3.
  destruct (conflict_is_retried_once "111" 5%nat Scenario.us_east_1 "pl-4" None
              Scenario.one_add None 3 s Scenario.stale Scenario.contended_once
              (Fake.managed_record "pl-4" "cf-v4" "111" 4 10) s2)
    as (_ & _ & _ & _ & Hretry).
  - reflexivity.
  - reflexivity.
  - reflexivity.
  - apply (Hretry (inl (ClientError Scenario.stale)) Scenario.contended_twice).
    reflexivity.
Defined.

(** ** The merged view of discovery *)

Section Merge.
Context {W : Type} (ec2 : Ec2 W).
Implicit Types (acc : gset string * list PL.t) (l : list PL.t).

Lemma managed_pages_run fuel token acc s ps s' :
  pages_of (_describe_managed_pls ec2 None) token s ps s' →
  (length ps ≤ fuel)%nat →
  managed_pages fuel ec2 token acc s
  = (Return (foldl (keep (λ pl, pl)) acc (records ps)), s').
Proof.
  intros Hpages. revert fuel acc.
  induction Hpages as [token s resp s' Hresp Hlast
                      |token s resp s1 rest s' Hresp Hmore _ IH];
    intros [|fuel] acc Hfuel; simpl in Hfuel; try lia;
    cbn [managed_pages]; rewrite (bind_Return _ _ _ _ _ Hresp).
  - rewrite Hlast. unfold records. cbn. by rewrite app_nil_r.
  - rewrite Hmore, IH by lia. unfold records. cbn. by rewrite foldl_app.
Qed.

Lemma prefix_pages_run fuel token acc s ps s' :
  pages_of (_describe_prefix_pls ec2) token s ps s' →
  (length ps ≤ fuel)%nat →
  prefix_pages fuel ec2 token acc s
  = (Return (foldl (keep normalized) acc (records ps)), s').
Proof.
  intros Hpages. revert fuel acc.
  induction Hpages as [token s resp s' Hresp Hlast
                      |token s resp s1 rest s' Hresp Hmore _ IH];
    intros [|fuel] acc Hfuel; simpl in Hfuel; try lia;
    cbn [prefix_pages]; rewrite (bind_Return _ _ _ _ _ Hresp).
  - rewrite Hlast. unfold records. cbn. by rewrite app_nil_r.
  - rewrite Hmore, IH by lia. unfold records. cbn. by rewrite foldl_app.
Qed.

Lemma normalized_id pl : pl_id (normalized pl) = pl_id pl.
Proof. unfold pl_id, normalized. cbn. by destruct (PL.PrefixListId pl). Qed.

(** Keeping the normalized records is keeping the records normalized
    beforehand. *)
Lemma keep_normalized acc l :
  foldl (keep normalized) acc l = foldl (keep (λ pl, pl)) acc (normalized <$> l).
Proof.
  revert acc. induction l as [|pl l IH]; intros acc; [done|].
  cbn [foldl fmap list_fmap]. rewrite IH. f_equal.
  unfold keep. fold (pl_id pl). fold (pl_id (normalized pl)).
  by rewrite normalized_id.
Qed.

Lemma find_app {A} (f : A → bool) (l k : list A) :
  List.find f (l ++ k)
  = match List.find f l with Some x => Some x | None => List.find f k end.
Proof. induction l as [|x l IH]; [done|]. cbn. by destruct (f x). Qed.

(** What the loops have kept after the records [l]: the identifiers seen,
    and for each the first record that carries it. *)
Lemma keep_first_seen l :
  let acc := foldl (keep (λ pl, pl)) (∅, []) l in
  (∀ p, p ∈ acc.1 ↔ p ≠ "" ∧ ∃ pl, pl ∈ l ∧ pl_id pl = Some p)
  ∧ NoDup (pl_id <$> acc.2)
  ∧ (∀ pl, pl ∈ acc.2 ↔
           truthy_str (pl_id pl) = true
           ∧ List.find (same_id (pl_id pl)) l = Some pl).
Proof.
  induction l as [|x l IH] using rev_ind.
  { cbn. split_and!.
    - intros p. rewrite elem_of_empty. split; [done|].
      intros (_ & pl & Hpl & _). by apply elem_of_nil in Hpl.
    - constructor.
    - intros pl. rewrite elem_of_nil. split; [done|]. by intros [_ ?]. }
  rewrite foldl_snoc. cbn zeta in *.
  destruct (foldl (keep (λ pl, pl)) (∅, []) l) as [seen out].
  cbn [fst snd] in IH. destruct IH as (Hseen & Hnodup & Hout).
  unfold keep. fold (pl_id x). cbn [fst snd].
  destruct (pl_id x) as [p|] eqn:Ex;
    cbn [truthy_str from_option Datatypes.id andb].
  2:{ split_and!; [|done|].
      - intros q. rewrite Hseen. split; intros (Hq & pl & Hpl & Hid);
          (split; [done|]); exists pl.
        + split; [|done]. apply elem_of_app. by left.
        + split; [|done]. apply elem_of_app in Hpl as [Hpl|Hpl]; [done|].
          apply list_elem_of_singleton in Hpl. congruence.
      - intros pl. rewrite Hout, find_app.
        split; intros [Ht Hf]; (split; [done|]).
        + by rewrite Hf.
        + destruct (List.find _ l) eqn:E; [done|]. cbn in Hf.
          destruct (same_id (pl_id pl) x) eqn:Ey; [|done].
          injection Hf as <-. by rewrite Ex in Ht. }
  destruct (String.eqb_spec p "") as [->|Hp]; cbn [negb andb].
  { split_and!; [|done|].
    - intros q. rewrite Hseen. split; intros (Hq & pl & Hpl & Hid);
        (split; [done|]); exists pl.
      + split; [|done]. apply elem_of_app. by left.
      + split; [|done]. apply elem_of_app in Hpl as [Hpl|Hpl]; [done|].
        apply list_elem_of_singleton in Hpl. congruence.
    - intros pl. rewrite Hout, find_app.
      split; intros [Ht Hf]; (split; [done|]).
      + by rewrite Hf.
      + destruct (List.find _ l) eqn:E; [done|]. cbn in Hf.
        destruct (same_id (pl_id pl) x) eqn:Ey; [|done].
        injection Hf as <-. by rewrite Ex in Ht. }
  destruct (decide (p ∈ seen)) as [Hin|Hnotin].
  - rewrite bool_decide_eq_false_2 by (by intros ?). cbn [fst snd].
    split_and!; [|done|].
    + intros q. rewrite Hseen. split; intros (Hq & pl & Hpl & Hid);
        (split; [done|]).
      * exists pl. split; [|done]. apply elem_of_app. by left.
      * apply elem_of_app in Hpl as [Hpl|Hpl]; [by exists pl|].
        apply list_elem_of_singleton in Hpl. subst pl.
        assert (q = p) as -> by congruence.
        by apply Hseen in Hin as [_ ?].
    + intros pl. rewrite Hout, find_app.
      split; intros [Ht Hf]; (split; [done|]).
      * by rewrite Hf.
      * destruct (List.find _ l) eqn:E; [done|]. cbn in Hf.
        destruct (same_id (pl_id pl) x) eqn:Ey; [|done].
        injection Hf as <-.
        apply Hseen in Hin as (_ & y & Hy & Hidy).
        apply list_elem_of_In in Hy.
        pose proof (find_none _ _ E _ Hy) as Hno.
        unfold same_id in Hno. rewrite bool_decide_eq_false in Hno.
        congruence.
  - rewrite bool_decide_eq_true_2 by done. cbn [fst snd].
    assert (List.find (same_id (Some p)) l = None) as Hnone.
    { destruct (List.find (same_id (Some p)) l) as [y|] eqn:E; [|done].
      apply find_some in E as [Hy Hidy]. apply list_elem_of_In in Hy.
      unfold same_id in Hidy. rewrite bool_decide_eq_true in Hidy.
      destruct Hnotin. apply Hseen. eauto. }
    split_and!.
    + intros q. rewrite elem_of_union, elem_of_singleton, Hseen.
      split.
      * intros [->|(Hq & pl & Hpl & Hid)]; (split; [done|]).
        -- exists x. split; [|done]. apply elem_of_app. right. by left.
        -- exists pl. split; [|done]. apply elem_of_app. by left.
      * intros (Hq & pl & Hpl & Hid).
        apply elem_of_app in Hpl as [Hpl|Hpl]; [right; eauto|].
        apply list_elem_of_singleton in Hpl. subst pl. left. congruence.
    + rewrite fmap_app. apply NoDup_app. split_and!; [done| |].
      * intros o Ho Hx. cbn in Hx. apply list_elem_of_singleton in Hx.
        rewrite Ex in Hx. subst o.
        apply list_elem_of_fmap in Ho as (y & Hidy & Hy).
        apply Hout in Hy as [_ Hy]. apply find_some in Hy as [Hy _].
        apply list_elem_of_In in Hy. destruct Hnotin. apply Hseen. eauto.
      * cbn. apply NoDup_singleton.
    + intros pl. rewrite elem_of_app, list_elem_of_singleton, Hout, find_app.
      split.
      * intros [[Ht Hf]| ->].
        -- split; [done|]. by rewrite Hf.
        -- rewrite Ex. split; [cbn; by destruct (String.eqb_spec p "")|].
           rewrite Hnone. cbn. unfold same_id.
           by rewrite bool_decide_eq_true_2.
      * intros [Ht Hf]. revert Hf.
        destruct (List.find (same_id (pl_id pl)) l) eqn:E; intros Hf.
        -- left. split; [done|]. congruence.
        -- right. cbn [List.find] in Hf.
           destruct (same_id (pl_id pl) x); congruence.
Qed.
End Merge.

(** C9. When the first discovery API answers with the pages [ps] and the
    second with the pages [qs], [_list_all_pls] returns a list with one
    record per truthy identifier among the records of both; the record kept
    for an identifier is the first that carries it in the records of the
    first API followed by the normalized records of the second, so a record
    of the first API wins over one of the second, and a record kept from the
    second API is the normalized one. *)
Theorem merged_view_is_first_seen {W} fuel (ec2 : Ec2 W) s ps s1 qs s2 :
  pages_of (_describe_managed_pls ec2 None) None s ps s1 →
  pages_of (_describe_prefix_pls ec2) None s1 qs s2 →
  (length ps ≤ fuel)%nat →
  (length qs ≤ fuel)%nat →
  ∃ out,
    _list_all_pls fuel ec2 s = (Return out, s2)
    ∧ NoDup (pl_id <$> out)
    ∧ (∀ p, p ≠ "" →
            (∃ pl, pl ∈ out ∧ pl_id pl = Some p)
            ↔ (∃ pl, pl ∈ records ps ++ records qs ∧ pl_id pl = Some p))
    ∧ (∀ pl, pl ∈ out →
             truthy_str (pl_id pl) = true
             ∧ List.find (same_id (pl_id pl))
                         (records ps ++ (normalized <$> records qs)) = Some pl
             ∧ (pl ∈ records ps ∨ ∃ r, r ∈ records qs ∧ pl = normalized r)).
Proof.
  intros Hps Hqs Hfuel1 Hfuel2.
  pose proof (keep_first_seen (records ps ++ (normalized <$> records qs))) as Hkept.
  cbn zeta in Hkept. rewrite foldl_app, <- keep_normalized in Hkept.
  set (merged := foldl (keep normalized)
                       (foldl (keep (λ pl, pl)) (∅, []) (records ps))
                       (records qs)) in *.
  destruct Hkept as (Hseen & Hnodup & Hout).
  assert (∀ pl, pl ∈ records ps ++ (normalized <$> records qs) →
                pl ∈ records ps ∨ ∃ r, r ∈ records qs ∧ pl = normalized r) as Hsplit.
  { intros pl [Hl|Hr]%elem_of_app; [by left|right].
    apply list_elem_of_fmap in Hr as (r & -> & Hr). eauto. }
  exists merged.2. split_and!.
  - unfold _list_all_pls.
    rewrite (bind_Return _ _ _ _ _ (managed_pages_run ec2 _ _ _ _ _ _ Hps Hfuel1)).
    by rewrite (bind_Return _ _ _ _ _ (prefix_pages_run ec2 _ _ _ _ _ _ Hqs Hfuel2)).
  - done.
  - intros p Hp. split.
    + intros (pl & Hpl & Hid). apply Hout in Hpl as [_ Hfind].
      apply find_some in Hfind as [Hin _]. apply list_elem_of_In in Hin.
      destruct (Hsplit _ Hin) as [Hl|(r & Hr & ->)].
      * exists pl. split; [|done]. apply elem_of_app. by left.
      * exists r. split; [apply elem_of_app; by right|].
        by rewrite <- normalized_id.
    + intros (pl & Hpl & Hid).
      assert (∃ y, y ∈ records ps ++ (normalized <$> records qs)
                   ∧ pl_id y = Some p) as (y & Hy & Hidy).
      { apply elem_of_app in Hpl as [Hl|Hr].
        - exists pl. split; [|done]. apply elem_of_app. by left.
        - exists (normalized pl). rewrite normalized_id. split; [|done].
          apply elem_of_app. right. apply list_elem_of_fmap. eauto. }
      destruct (List.find (same_id (Some p))
                          (records ps ++ (normalized <$> records qs)))
        as [z|] eqn:E.
      * pose proof (find_some _ _ E) as [_ Hz].
        unfold same_id in Hz. rewrite bool_decide_eq_true in Hz.
        exists z. split; [|done]. apply Hout. rewrite Hz. split; [|done].
        cbn. by destruct (String.eqb_spec p "").
      * apply list_elem_of_In in Hy. pose proof (find_none _ _ E _ Hy) as Hno.
        unfold same_id in Hno. by rewrite bool_decide_eq_false in Hno.
  - intros pl Hpl. apply Hout in Hpl as [Ht Hfind]. split_and!; try done.
    apply find_some in Hfind as [Hin _]. apply list_elem_of_In in Hin. auto.
Qed.

Lemma merged_view_is_first_seen_witness :
  let s := Fake.start Scenario.overlapping in
  let out :=
    [Fake.managed_record "pl-1" "one" "111" 1 10;
     Fake.managed_record "pl-2" "two" "111" 7 20;
     PL.mk (Val "pl-3") (Val "three") Null Null Null Null Null Absent] in
  (_list_all_pls 2 Scenario.us_east_1 s).1 = Return out
  ∧ ∃ out',
      _list_all_pls 2 Scenario.us_east_1 s
      = (Return out', (_list_all_pls 2 Scenario.us_east_1 s).2)
      ∧ NoDup (pl_id <$> out').
Proof.
  intros s out. split; [reflexivity|].
  set (s1 := (managed_pages 2 Scenario.us_east_1 None (∅, []) s).2).
  set (s2 := (_list_all_pls 2 Scenario.us_east_1 s).2).
  set (a1 := Fake.managed_record "pl-1" "one" "111" 1 10).
  set (a2 := Fake.managed_record "pl-2" "two" "111" 7 20).
  set (b2 := Scenario.short_record "pl-2" "two" ["10.0.0.0/8"]).
  set (b3 := Scenario.short_record "pl-3" "three" ["192.168.0.0/16"]).
  destruct (merged_view_is_first_seen 2 Scenario.us_east_1 s
              [DescribeResp.mk (Some [a1]) None (Some "1");
               DescribeResp.mk (Some [a2]) None None]
              s1
              [DescribeResp.mk None (Some [b2]) (Some "1");
               DescribeResp.mk None (Some [b3]) None]
              s2) as (out' & Hrun & Hnodup & _).
  - eapply pages_more; [reflexivity|reflexivity|].
    eapply pages_last; reflexivity.
  - eapply pages_more; [reflexivity|reflexivity|].
    eapply pages_last; reflexivity.
  - cbn. lia.
  - cbn. lia.
  - exists out'. by split.
Defined.

(** ** Provider failures during discovery *)

(** Against C3 as stated: a throttled describe call is answered like an
    account without prefix lists. The provider raises a [ClientError], the
    wrapper returns an empty page instead of raising, and the merged view is
    the empty list, as it is when no prefix list exists. *)
Lemma client_error_reads_as_no_resources :
  (Fake.describe_managed (DescribeKw.mk None None) Scenario.down).1
  = inl (ClientError Scenario.throttled)
  ∧ (_describe_managed_pls Scenario.us_east_1 None None
       (Fake.start Scenario.down)).1
    = Return (DescribeResp.mk (Some []) None None)
  ∧ (_list_all_pls 3 Scenario.us_east_1 (Fake.start Scenario.down)).1 = Return []
  ∧ (_list_all_pls 3 Scenario.us_east_1 (Fake.start Scenario.nothing)).1 = Return [].
Proof. by split_and!. Qed.

(** C3, as the code has it. A [ClientError] raised by either describe call
    is caught by its wrapper and replaced by an empty page, with no records
    and no continuation token; any other exception the call raises
    propagates to the caller, and an answer is returned as it is. *)
Theorem describe_wrappers_catch_client_error {W} (ec2 : Ec2 W) ids token s :
  let kw :=
    DescribeKw.mk (if truthy_list (default [] ids) then ids else None)
                  (if truthy_str token then token else None) in
  let kw' := DescribeKw.mk None (if truthy_str token then token else None) in
  (∀ r w',
     describe_managed_prefix_lists ec2 kw (world s) = (r, w') →
     _describe_managed_pls ec2 ids token s
     = (match r with
        | inl (ClientError _) => Return (DescribeResp.mk (Some []) None None)
        | inl e => Raise e
        | inr resp => Return resp
        end,
        mkState w' (calls s ++ [EvDescribeManaged (region_name ec2) kw])))
  ∧ (∀ r w',
       describe_prefix_lists ec2 kw' (world s) = (r, w') →
       _describe_prefix_pls ec2 token s
       = (match r with
          | inl (ClientError _) => Return (DescribeResp.mk None (Some []) None)
          | inl e => Raise e
          | inr resp => Return resp
          end,
          mkState w' (calls s ++ [EvDescribePrefix (region_name ec2) kw']))).
Proof.
  intros kw kw'. split; intros r w' Hcall.
  - unfold _describe_managed_pls, except_ClientError, call. fold kw.
    rewrite Hcall. by destruct r as [[]|].
  - unfold _describe_prefix_pls, except_ClientError, call. fold kw'.
    rewrite Hcall. by destruct r as [[]|].
Qed.

Lemma describe_wrappers_catch_client_error_witness :
  _describe_managed_pls Scenario.us_east_1 None None (Fake.start Scenario.down)
  = (Return (DescribeResp.mk (Some []) None None),
     mkState Scenario.down
             [EvDescribeManaged "us-east-1" (DescribeKw.mk None None)])
  ∧ _describe_managed_pls Scenario.us_east_1 None None
      (Fake.start Scenario.unreachable)
    = (Raise (OtherError "EndpointConnectionError" "Could not connect"),
       mkState Scenario.unreachable
               [EvDescribeManaged "us-east-1" (DescribeKw.mk None None)])
  ∧ _describe_prefix_pls Scenario.us_east_1 None (Fake.start Scenario.down)
    = (Return (DescribeResp.mk None (Some []) None),
       mkState Scenario.down
               [EvDescribePrefix "us-east-1" (DescribeKw.mk None None)]).
Proof.
  split_and!.
  - apply (proj1 (describe_wrappers_catch_client_error Scenario.us_east_1 None None
                    (Fake.start Scenario.down))
             (inl (ClientError Scenario.throttled)) Scenario.down).
    reflexivity.
  - apply (proj1 (describe_wrappers_catch_client_error Scenario.us_east_1 None None
                    (Fake.start Scenario.unreachable))
             (inl (OtherError "EndpointConnectionError" "Could not connect"))
             Scenario.unreachable).
    reflexivity.
  - apply (proj2 (describe_wrappers_catch_client_error Scenario.us_east_1 None None
                    (Fake.start Scenario.down))
             (inl (ClientError Scenario.throttled)) Scenario.down).
    reflexivity.
Defined.

(** ** Targets of one pass *)

(** Against C1 as stated: with both lists configured and the first one too
    small for the feed, [handler] raises the capacity error of the first
    target. The calls issued are the feed and the read of the first list:
    nothing is asked about the second list, whose reconciliation would have
    succeeded, and no summary is printed or returned. *)
Lemma first_failure_ends_the_pass :
  let run :=
    handler "111" "us-east-1" Scenario.us_east_1 Fake.ec2 Scenario.feed
            Scenario.webhook 3 Scenario.both_lists
            (Fake.start Scenario.two_targets) in
  run.1
  = Raise (RuntimeError
             "Desired entries (2) exceed MaxEntries (1) for pl-4. Increase 'max_entries' in Terraform and re-apply.")
  ∧ calls run.2
    = [EvFetch;
       EvDescribeManaged "us-east-1" (DescribeKw.mk (Some ["pl-4"]) None);
       EvGetEntries "us-east-1" (EntriesKw.mk "pl-4" None)]
  ∧ (apply_delta "111" 3 Scenario.us_east_1 "pl-6" DESCR_DEFAULT
                 ["2400:cb00::/32"] None "111" run.2).1
    = Return (applied "pl-6" 5 6 ["2400:cb00::/32"] []).
Proof. by split_and!. Qed.

(** C1, as the code has it. When the first target is configured and its
    reconciliation raises, [handler] raises that error in the state in which
    the reconciliation failed: the second target is not attempted and no
    summary is produced. *)
Theorem first_target_failure_propagates {W} ACCOUNT DEFAULT_REGION
    (DEFAULT_EC2 : Ec2 W) SESSION_client fetch_cloudflare_ips http_post_json
    fuel env s v4 v6 w1 e s' :
  fetch_cloudflare_ips (world s) = (inr (v4, v6), w1) →
  truthy_str (PL_V4_ID env) || truthy_str (PL_V4_NAME env) = true →
  apply_delta ACCOUNT fuel
    (make_ec2 DEFAULT_REGION DEFAULT_EC2 SESSION_client
              (or_str (PL_V4_REGION env) DEFAULT_REGION))
    (or_str (PL_V4_ID env) "")
    (truncate PL_DESCR_TRUNC (strip (or_str (DESCRIPTION env) DESCR_DEFAULT)))
    v4 (PL_V4_NAME env) ACCOUNT (mkState w1 (calls s ++ [EvFetch]))
  = (Raise e, s') →
  handler ACCOUNT DEFAULT_REGION DEFAULT_EC2 SESSION_client fetch_cloudflare_ips
          http_post_json fuel env s
  = (Raise e, s').
Proof.
  intros Hfetch Hconfigured Hfails. unfold handler.
  unfold bind at 1, call at 1. rewrite Hfetch. cbn iota beta.
  rewrite Hconfigured. unfold bind at 1, bind at 1. by rewrite Hfails.
Qed.

Lemma first_target_failure_propagates_witness :
  let s' :=
    (apply_delta "111" 3 Scenario.us_east_1 "pl-4" DESCR_DEFAULT
                 ["173.245.48.0/20"; "103.21.244.0/22"] None "111"
                 (mkState Scenario.two_targets [EvFetch])).2 in
  handler "111" "us-east-1" Scenario.us_east_1 Fake.ec2 Scenario.feed
          Scenario.webhook 3 Scenario.both_lists (Fake.start Scenario.two_targets)
  = (Raise (RuntimeError
              "Desired entries (2) exceed MaxEntries (1) for pl-4. Increase 'max_entries' in Terraform and re-apply."),
     s').
Proof.
  intros s'.
  apply (first_target_failure_propagates "111" "us-east-1" Scenario.us_east_1
           Fake.ec2 Scenario.feed Scenario.webhook 3%nat Scenario.both_lists
           (Fake.start Scenario.two_targets)
           ["173.245.48.0/20"; "103.21.244.0/22"] ["2400:cb00::/32"]
           Scenario.two_targets).
  - reflexivity.
  - reflexivity.
  - reflexivity.
Defined.

(** * Further properties of the code *)

(** ** The delta and its batches *)

(** X1. Applying the delta gives the desired set: the current set without
    the entries to remove, with the entries to add, is the desired set; and
    the two lists are as long as the two set differences are large. *)
Theorem delta_reaches_desired (want have : gset string) :
  (have ∖ list_to_set (to_remove want have)) ∪ list_to_set (to_add want have) = want
  ∧ length (to_add want have) = size (want ∖ have)
  ∧ length (to_remove want have) = size (have ∖ want).
Proof.
  destruct (sorted_elements (want ∖ have)) as (Ea & _ & _).
  destruct (sorted_elements (have ∖ want)) as (Er & _ & _).
  unfold to_add, to_remove. rewrite Ea, Er. split_and!.
  - apply set_eq. intros x.
    rewrite elem_of_union, !elem_of_difference.
    destruct (decide (x ∈ have)); destruct (decide (x ∈ want)); tauto.
  - unfold sorted. by rewrite merge_sort_Permutation.
  - unfold sorted. by rewrite merge_sort_Permutation.
Qed.

Section ChunkCount.
Context {A : Type}.
Implicit Types l : list A.

Lemma _chunks_length n l :
  length (_chunks l n) = ((length l + n - 1) / n)%nat.
Proof. unfold _chunks, range_step. by rewrite !length_fmap, length_seq. Qed.

Lemma below_last_chunk n len i :
  (0 < n)%nat → (S i < (len + n - 1) / n)%nat → (S i * n < len)%nat.
Proof.
  intros Hn Hi.
  pose proof (Nat.div_mod_eq (len + n - 1) n) as Hdiv.
  pose proof (Nat.mod_upper_bound (len + n - 1) n) as Hmod.
  nia.
Qed.
End ChunkCount.

(** X2. For a positive batch size [n], a list of [len] elements is cut into
    the ceiling of [len / n] batches, and every batch but the last one has
    exactly [n] elements. *)
Theorem chunk_count_and_fullness {A} (l : list A) (n : nat) :
  (0 < n)%nat →
  length (_chunks l n) = ((length l + n - 1) / n)%nat
  ∧ ∀ i b, _chunks l n !! i = Some b →
           (S i < length (_chunks l n))%nat → length b = n.
Proof.
  intros Hn. split; [apply _chunks_length|].
  intros i b Hb Hi. rewrite _chunks_length in Hi.
  apply _chunks_lookup in Hb as ->.
  pose proof (below_last_chunk n (length l) i Hn Hi).
  rewrite length_take, length_drop. lia.
Qed.

Lemma chunk_count_and_fullness_witness :
  length (_chunks (seq 0 7) 3) = 3%nat
  ∧ ∀ i b, _chunks (seq 0 7) 3 !! i = Some b →
           (S i < length (_chunks (seq 0 7) 3))%nat → length b = 3%nat.
Proof. apply (chunk_count_and_fullness (seq 0 7) 3). lia. Defined.

Section Pairing.
Context {A B : Type}.
Implicit Types (l : list A) (k : list B).

Lemma paired_length l k : length (paired l k) = (length l `max` length k)%nat.
Proof.
  revert k. induction l as [|a l IH]; intros k; cbn [paired].
  - by rewrite length_fmap.
  - destruct k as [|b k]; cbn [length]; rewrite IH; cbn [length]; lia.
Qed.

Lemma paired_fst l k : omap fst (paired l k) = l.
Proof.
  revert k. induction l as [|a l IH]; intros k; cbn [paired].
  - induction k as [|b k IHk]; [done|]. by cbn.
  - destruct k as [|b k]; cbn; by rewrite IH.
Qed.

Lemma paired_snd l k : omap snd (paired l k) = k.
Proof.
  revert k. induction l as [|a l IH]; intros k; cbn [paired].
  - induction k as [|b k IHk]; [done|]. cbn. by rewrite IHk.
  - destruct k as [|b k]; cbn; by rewrite IH.
Qed.

Lemma paired_some l k :
  Forall (λ p, is_Some p.1 ∨ is_Some p.2) (paired l k).
Proof.
  revert k. induction l as [|a l IH]; intros k; cbn [paired].
  - apply Forall_fmap, Forall_true. intros b. right. by eexists.
  - destruct k as [|b k]; constructor; try apply IH; left; by eexists.
Qed.
End Pairing.

(** ** Strings *)

Section Strings.
Implicit Types s t : string.

Lemma string_app_cons c s t : String c s +:+ t = String c (s +:+ t).
Proof. reflexivity. Qed.

Lemma string_app_nil_r s : s +:+ "" = s.
Proof. induction s as [|c s IH]; [done|]. by rewrite string_app_cons, IH. Qed.

Lemma string_app_assoc s t u : (s +:+ t) +:+ u = s +:+ (t +:+ u).
Proof. induction s as [|c s IH]; [done|]. by rewrite !string_app_cons, IH. Qed.

Lemma lower_app s t : lower (s +:+ t) = lower s +:+ lower t.
Proof.
  induction s as [|c s IH]; [done|].
  rewrite string_app_cons. cbn [lower]. by rewrite string_app_cons, IH.
Qed.

Lemma lower_char_idemp c : lower_char (lower_char c) = lower_char c.
Proof. by destruct c as [[] [] [] [] [] [] [] []]. Qed.

Lemma lower_idemp s : lower (lower s) = lower s.
Proof.
  induction s as [|c s IH]; [done|]. cbn [lower].
  by rewrite lower_char_idemp, IH.
Qed.

Lemma is_space_lower c : is_space (lower_char c) = is_space c.
Proof. by destruct c as [[] [] [] [] [] [] [] []]. Qed.

Lemma prefix_app s t : String.prefix s (s +:+ t) = true.
Proof.
  induction s as [|c s IH]; [by destruct t|].
  rewrite string_app_cons. cbn [String.prefix].
  by destruct (ascii_dec c c).
Qed.

Lemma prefix_elim s t : String.prefix s t = true → ∃ u, t = s +:+ u.
Proof.
  revert t. induction s as [|c s IH]; intros t H; [by exists t|].
  destruct t as [|d t]; [done|]. cbn in H.
  destruct (ascii_dec c d) as [->|]; [|done].
  destruct (IH _ H) as [u ->]. by exists u.
Qed.

Lemma contains_cons needle c hay :
  contains needle (String c hay)
  = String.prefix needle (String c hay) || contains needle hay.
Proof. reflexivity. Qed.

Lemma contains_prefix needle hay :
  String.prefix needle hay = true → contains needle hay = true.
Proof. intros H. destruct hay; unfold contains; fold contains; by rewrite H. Qed.

Lemma contains_intro needle pre post :
  contains needle (pre +:+ needle +:+ post) = true.
Proof.
  induction pre as [|c pre IH].
  - change ("" +:+ needle +:+ post) with (needle +:+ post).
    apply contains_prefix, prefix_app.
  - rewrite string_app_cons, contains_cons, IH. apply orb_true_r.
Qed.

Lemma contains_elim needle hay :
  contains needle hay = true → ∃ pre post, hay = pre +:+ needle +:+ post.
Proof.
  induction hay as [|c hay IH]; intros H.
  - unfold contains in H. rewrite orb_false_r in H.
    destruct (prefix_elim _ _ H) as [u Hu]. by exists "", u.
  - rewrite contains_cons in H. apply orb_true_iff in H as [H|H].
    + destruct (prefix_elim _ _ H) as [u Hu]. by exists "", u.
    + destruct (IH H) as (pre & post & ->). by exists (String c pre), post.
Qed.

Lemma rev_app_spec s t : String.rev_app s t = String.rev s +:+ t.
Proof.
  revert t. induction s as [|c s IH]; intros t; [done|].
  unfold String.rev. cbn [String.rev_app].
  rewrite (IH (String c t)), (IH (String c "")).
  by rewrite string_app_assoc.
Qed.

Lemma rev_app_distr s t : String.rev (s +:+ t) = String.rev t +:+ String.rev s.
Proof.
  induction s as [|c s IH]; [by rewrite string_app_nil_r|].
  unfold String.rev at 1 3.
  change (String c s +:+ t) with (String c (s +:+ t)).
  cbn [String.rev_app]. rewrite !rev_app_spec, IH.
  by rewrite string_app_assoc.
Qed.

Lemma blank_app s t : blank (s +:+ t) = blank s && blank t.
Proof.
  induction s as [|c s IH]; [done|].
  change (String c s +:+ t) with (String c (s +:+ t)). cbn [blank].
  by rewrite IH, andb_assoc.
Qed.

Lemma blank_rev s : blank (String.rev s) = blank s.
Proof.
  induction s as [|c s IH]; [done|].
  unfold String.rev. cbn [String.rev_app]. rewrite rev_app_spec, blank_app, IH.
  cbn [blank]. by rewrite andb_true_r, andb_comm.
Qed.

Lemma lstrip_blank s t : blank s = true → lstrip (s +:+ t) = lstrip t.
Proof.
  induction s as [|c s IH]; [done|]. cbn [blank]. intros [Hc Hs]%andb_true_iff.
  change (String c s +:+ t) with (String c (s +:+ t)). cbn [lstrip].
  rewrite Hc. by apply IH.
Qed.

Lemma lstrip_app s t :
  lstrip s ≠ "" → lstrip (s +:+ t) = lstrip s +:+ t.
Proof.
  induction s as [|c s IH]; [done|]. intros H.
  change (String c s +:+ t) with (String c (s +:+ t)).
  cbn [lstrip] in *. destruct (is_space c); [by apply IH|done].
Qed.

Lemma lstrip_nil_blank s : lstrip s = "" → blank s = true.
Proof.
  induction s as [|c s IH]; [done|]. cbn [lstrip blank].
  destruct (is_space c); [by apply IH|done].
Qed.

Lemma strip_padding pre s post :
  blank pre = true → blank post = true → strip (pre +:+ s +:+ post) = strip s.
Proof.
  intros Hpre Hpost. unfold strip. rewrite (lstrip_blank pre) by done.
  destruct (decide (lstrip s = "")) as [Hs|Hs].
  - rewrite Hs. rewrite (lstrip_blank s post) by by apply lstrip_nil_blank.
    replace (lstrip post) with "".
    2:{ symmetry. rewrite <- (string_app_nil_r post). by rewrite lstrip_blank. }
    done.
  - rewrite lstrip_app by done. rewrite rev_app_distr.
    rewrite lstrip_blank; [done|]. by rewrite blank_rev.
Qed.

Lemma lstrip_lower s : lstrip (lower s) = lower (lstrip s).
Proof.
  induction s as [|c s IH]; [done|]. cbn [lower lstrip].
  rewrite is_space_lower. by destruct (is_space c).
Qed.

Lemma rev_lower s : String.rev (lower s) = lower (String.rev s).
Proof.
  induction s as [|c s IH]; [done|].
  unfold String.rev. cbn [lower String.rev_app].
  rewrite !rev_app_spec, IH, lower_app. done.
Qed.

Lemma strip_lower s : strip (lower s) = lower (strip s).
Proof. unfold strip. by rewrite lstrip_lower, rev_lower, lstrip_lower, rev_lower. Qed.

Lemma truncate_length n s : (String.length (truncate n s) ≤ n)%nat.
Proof.
  unfold truncate. revert s. induction n as [|n IH]; intros [|c s]; cbn; try lia.
  specialize (IH s). lia.
Qed.

Lemma truncate_short n s : (String.length s ≤ n)%nat → truncate n s = s.
Proof.
  unfold truncate. revert s. induction n as [|n IH]; intros [|c s] H; cbn in *;
    try done; try lia.
  rewrite IH; [done|lia].
Qed.
End Strings.

(** X4. [_modify] takes a [ClientError] for a version conflict exactly when
    its message, in lower case, contains "version": the test for
    "CurrentVersion" adds nothing, and any spelling of the word in the
    message, in whatever letter case, makes the error a conflict. *)
Theorem version_conflict_is_any_version msg :
  version_conflict msg = contains "version" (lower msg)
  ∧ ∀ pre word post,
      msg = pre +:+ word +:+ post → lower word = "version" →
      version_conflict msg = true.
Proof.
  assert (∀ pre word post,
            msg = pre +:+ word +:+ post → lower word = "version" →
            contains "version" (lower msg) = true) as Hany.
  { intros pre word post -> Hword.
    rewrite !lower_app, Hword. apply contains_intro. }
  split.
  - unfold version_conflict.
    destruct (contains "CurrentVersion" msg) eqn:E; [|done].
    apply contains_elim in E as (pre & post & ->).
    cbn [orb]. symmetry.
    apply (Hany (pre +:+ "Current") "Version" post); [|done].
    by rewrite string_app_assoc.
  - intros pre word post Hmsg Hword. unfold version_conflict.
    rewrite (Hany pre word post Hmsg Hword). apply orb_true_r.
Qed.

Lemma version_conflict_is_any_version_witness :
  version_conflict "InvalidParameterValue: unsupported API VERSION"
  = contains "version" (lower "InvalidParameterValue: unsupported API VERSION")
  ∧ version_conflict "InvalidParameterValue: unsupported API VERSION" = true.
Proof.
  destruct (version_conflict_is_any_version
              "InvalidParameterValue: unsupported API VERSION") as [H1 H2].
  split; [exact H1|].
  apply (H2 "InvalidParameterValue: unsupported API " "VERSION" ""); reflexivity.
Defined.

(** X5. A flag read by [env_bool] is the default when the variable is
    unset; when it is set the default plays no part, and the value is
    compared without regard to letter case or to white space around it. *)
Theorem env_bool_reads_flags (default : bool) :
  env_bool None default = default
  ∧ (∀ v, env_bool (Some v) default = env_bool (Some v) (negb default))
  ∧ (∀ v, env_bool (Some (lower v)) default = env_bool (Some v) default)
  ∧ (∀ pre v post,
       blank pre = true → blank post = true →
       env_bool (Some (pre +:+ v +:+ post)) default = env_bool (Some v) default).
Proof.
  split_and!; try done.
  - intros v. unfold env_bool. by rewrite strip_lower, lower_idemp.
  - intros pre v post Hpre Hpost. unfold env_bool.
    by rewrite strip_padding.
Qed.

Lemma env_bool_reads_flags_witness :
  env_bool (Some (" " +:+ "Yes" +:+ "  ")) false = env_bool (Some "Yes") false
  ∧ env_bool (Some "Yes") false = true.
Proof.
  split; [|reflexivity].
  by apply (proj2 (proj2 (proj2 (env_bool_reads_flags false))) " " "Yes" "  ").
Defined.

(** X6. Every entry submitted for addition carries one range to add, in the
    order of the delta, and a description of at most 100 characters: the
    description given, or "Cloudflare IP" when none is given; a description
    of at most 100 characters is attached unchanged. *)
Theorem added_entries_are_described (desc : string) (cidrs : list string) :
  AddEntry.Cidr <$> entries_to_add desc cidrs = cidrs
  ∧ Forall (λ e, (String.length (AddEntry.Description e) ≤ 100)%nat
                 ∧ AddEntry.Description e
                   = truncate 100 (if String.eqb desc "" then "Cloudflare IP"
                                   else desc))
           (entries_to_add desc cidrs)
  ∧ (desc ≠ "" → (String.length desc ≤ 100)%nat →
     Forall (λ e, AddEntry.Description e = desc) (entries_to_add desc cidrs)).
Proof.
  unfold entries_to_add. split_and!.
  - rewrite <- list_fmap_compose. by rewrite <- (list_fmap_id cidrs) at 2.
  - apply Forall_fmap, Forall_true. intros c. cbn. split.
    + apply truncate_length.
    + unfold or_str, truthy_str. by destruct (String.eqb desc "").
  - intros Hne Hlen. apply Forall_fmap, Forall_true. intros c. cbn.
    unfold or_str, truthy_str. apply String.eqb_neq in Hne. rewrite Hne. cbn.
    by apply truncate_short.
Qed.

Lemma added_entries_are_described_witness :
  Forall (λ e, AddEntry.Description e = "edge allow-list")
         (entries_to_add "edge allow-list" ["10.0.0.0/8"; "172.16.0.0/12"]).
Proof.
  apply (proj2 (proj2 (added_entries_are_described "edge allow-list"
                         ["10.0.0.0/8"; "172.16.0.0/12"]))).
  - discriminate.
  - cbn. lia.
Defined.

(** ** The calls a computation issues *)

Section Adds.
Context {W : Type}.
Implicit Types (s : state W) (P Q : event → bool).

Lemma adds_only_ret {A} P (a : A) : adds_only P (ret (W:=W) a).
Proof. intros s r s' [= <- <-]. exists []. by rewrite app_nil_r. Qed.

Lemma adds_only_raise {A} P e : adds_only P (raise (W:=W) (A:=A) e).
Proof. intros s r s' [= <- <-]. exists []. by rewrite app_nil_r. Qed.

Lemma adds_only_diverge {A} P : adds_only P (diverge (W:=W) (A:=A)).
Proof. intros s r s' [= <- <-]. exists []. by rewrite app_nil_r. Qed.

Lemma adds_only_bind {A B} P (m : M W A) (k : A → M W B) :
  adds_only P m → (∀ a, adds_only P (k a)) → adds_only P (bind m k).
Proof.
  intros Hm Hk s r s'. unfold bind.
  destruct (m s) as [[a|e|] s1] eqn:E; destruct (Hm _ _ _ E) as (evs & Hc & Hevs).
  - intros Hka. destruct (Hk _ _ _ _ Hka) as (evs' & -> & Hevs').
    exists (evs ++ evs'). rewrite Hc, app_assoc. split; [done|].
    by apply Forall_app.
  - intros [= <- <-]. eauto.
  - intros [= <- <-]. eauto.
Qed.

Lemma adds_only_call {R} P ev (op : W → (exn + R) * W) :
  P ev = true → adds_only P (call ev op).
Proof.
  intros Hev s r s'. unfold call. destruct (op (world s)) as [x w'].
  intros [= <- <-]. exists [ev]. split; [done|]. by constructor.
Qed.

Lemma adds_only_emit P ev : P ev = true → adds_only P (emit (W:=W) ev).
Proof.
  intros Hev s r s' [= <- <-]. exists [ev]. split; [done|]. by constructor.
Qed.

Lemma adds_only_except {A} P (m : M W A) h :
  adds_only P m → (∀ msg, adds_only P (h msg)) →
  adds_only P (except_ClientError m h).
Proof.
  intros Hm Hh s r s'. unfold except_ClientError.
  destruct (m s) as [[a|e|] s1] eqn:E; destruct (Hm _ _ _ E) as (evs & Hc & Hevs);
    try (intros [= <- <-]; by eauto).
  destruct e; try (intros [= <- <-]; by eauto).
  intros Hh'. destruct (Hh _ _ _ _ Hh') as (evs' & -> & Hevs').
  exists (evs ++ evs'). rewrite Hc, app_assoc. split; [done|]. by apply Forall_app.
Qed.

Lemma adds_only_if {A} P (b : bool) (m1 m2 : M W A) :
  adds_only P m1 → adds_only P m2 → adds_only P (if b then m1 else m2).
Proof. by destruct b. Qed.

Lemma adds_only_weaken {A} P Q (m : M W A) :
  (∀ ev, P ev = true → Q ev = true) → adds_only P m → adds_only Q m.
Proof.
  intros HPQ Hm s r s' Hrun. destruct (Hm _ _ _ Hrun) as (evs & Hc & Hevs).
  exists evs. split; [done|]. eapply Forall_impl; [done|]. auto.
Qed.
End Adds.

Create HintDb adds.

#[local] Hint Resolve adds_only_ret adds_only_raise adds_only_diverge
  adds_only_bind adds_only_call adds_only_emit adds_only_except
  adds_only_if : adds.

Section AddsEngine.
Context {W : Type} (ACCOUNT : string) (ec2 : Ec2 W).

Lemma describe_is_locator region ev :
  describe_event region ev = true → locator_event region ev = true.
Proof. unfold locator_event. by intros ->. Qed.

Lemma locator_is_read region pid ev :
  locator_event region ev = true → read_event region pid ev = true.
Proof. unfold read_event. by intros ->. Qed.

Lemma read_is_engine region pid ev :
  read_event region pid ev = true → engine_event region pid ev = true.
Proof. unfold engine_event. by intros ->. Qed.

Lemma _describe_managed_pls_adds ids tok :
  adds_only (describe_event (region_name ec2)) (_describe_managed_pls ec2 ids tok).
Proof.
  unfold _describe_managed_pls. apply adds_only_except; [|auto with adds].
  apply adds_only_call. cbn. apply String.eqb_refl.
Qed.

Lemma _describe_prefix_pls_adds tok :
  adds_only (describe_event (region_name ec2)) (_describe_prefix_pls ec2 tok).
Proof.
  unfold _describe_prefix_pls. apply adds_only_except; [|auto with adds].
  apply adds_only_call. cbn. apply String.eqb_refl.
Qed.

Lemma managed_pages_adds fuel tok acc :
  adds_only (describe_event (region_name ec2)) (managed_pages fuel ec2 tok acc).
Proof.
  revert tok acc. induction fuel as [|fuel IH]; intros tok acc; cbn [managed_pages].
  - auto with adds.
  - apply adds_only_bind; [apply _describe_managed_pls_adds|].
    intros resp. apply adds_only_if; auto with adds.
Qed.

Lemma prefix_pages_adds fuel tok acc :
  adds_only (describe_event (region_name ec2)) (prefix_pages fuel ec2 tok acc).
Proof.
  revert tok acc. induction fuel as [|fuel IH]; intros tok acc; cbn [prefix_pages].
  - auto with adds.
  - apply adds_only_bind; [apply _describe_prefix_pls_adds|].
    intros resp. apply adds_only_if; auto with adds.
Qed.

Lemma _list_all_pls_adds fuel :
  adds_only (describe_event (region_name ec2)) (_list_all_pls fuel ec2).
Proof.
  unfold _list_all_pls.
  auto using managed_pages_adds, prefix_pages_adds with adds.
Qed.

Lemma _find_pl_adds fuel pid name :
  adds_only (describe_event (region_name ec2)) (_find_pl fuel ec2 pid name).
Proof.
  unfold _find_pl. apply adds_only_bind.
  - apply adds_only_if; auto using _describe_managed_pls_adds with adds.
  - intros [pl|]; [auto with adds|].
    apply adds_only_bind; [apply _list_all_pls_adds|]. intros all.
    destruct (List.find _ all); [auto with adds|].
    apply adds_only_if; [|auto with adds].
    apply adds_only_bind; [apply _list_all_pls_adds|]. intros again.
    destruct (List.find _ again); auto with adds.
Qed.

Lemma retries_adds fuel pid name backoff remaining i last_seen :
  adds_only (locator_event (region_name ec2))
            (retries fuel ec2 pid name backoff remaining i last_seen).
Proof.
  revert i last_seen.
  induction remaining as [|remaining IH]; intros i last_seen; cbn [retries].
  - auto with adds.
  - apply adds_only_bind.
    { eapply adds_only_weaken; [apply describe_is_locator|apply _find_pl_adds]. }
    intros pl.
    assert (adds_only (locator_event (region_name ec2))
              (let* last_seen' := _list_all_pls fuel ec2 in
               emit (EvSleep (backoff * 2 ^ Z.of_nat i)) ;;;
               retries fuel ec2 pid name backoff remaining (S i) last_seen'))
      as Hagain.
    { apply adds_only_bind.
      { eapply adds_only_weaken; [apply describe_is_locator|apply _list_all_pls_adds]. }
      intros l. apply adds_only_bind; [by apply adds_only_emit|]. intros _. apply IH. }
    destruct pl as [p|]; [|done].
    apply adds_only_if; [auto with adds|done].
Qed.

Lemma _describe_pl_with_retries_adds fuel pid name attempts backoff :
  adds_only (locator_event (region_name ec2))
            (_describe_pl_with_retries ACCOUNT fuel ec2 pid name attempts backoff).
Proof.
  unfold _describe_pl_with_retries.
  apply adds_only_bind; [apply retries_adds|].
  intros [pl|l]; auto with adds.
Qed.

Lemma entry_pages_adds fuel pid tok have :
  adds_only (read_event (region_name ec2) pid) (entry_pages fuel ec2 pid tok have).
Proof.
  revert tok have. induction fuel as [|fuel IH]; intros tok have; cbn [entry_pages].
  - auto with adds.
  - apply adds_only_bind.
    + apply adds_only_call. unfold read_event. cbn.
      by rewrite !String.eqb_refl.
    + intros resp. apply adds_only_if; auto with adds.
Qed.

Lemma get_pl_entries_adds fuel pid name :
  adds_only (read_event (region_name ec2) pid)
            (get_pl_entries ACCOUNT fuel ec2 pid name).
Proof.
  unfold get_pl_entries. apply adds_only_bind.
  { eapply adds_only_weaken; [apply (locator_is_read _ pid)|].
    apply _describe_pl_with_retries_adds. }
  intros pl. apply adds_only_bind; [apply entry_pages_adds|]. auto with adds.
Qed.

Lemma version_of_adds P resp : adds_only P (version_of (W:=W) resp).
Proof. unfold version_of. destruct (ModifyResp.PrefixList resp) as [[v|]|]; auto with adds. Qed.

Lemma modify_event_is_engine pid hint a r :
  engine_event (region_name ec2) pid
    (EvModify (region_name ec2) (modify_kwargs pid hint a r)) = true.
Proof. unfold engine_event. cbn. by rewrite !String.eqb_refl. Qed.

Lemma _modify_adds fuel pid name a r hint :
  adds_only (engine_event (region_name ec2) pid)
            (_modify ACCOUNT fuel ec2 pid name a r hint).
Proof.
  unfold _modify. apply adds_only_except.
  - apply adds_only_bind; [|intros; apply version_of_adds].
    apply adds_only_call, modify_event_is_engine.
  - intros msg. apply adds_only_if; [|auto with adds].
    apply adds_only_bind.
    { eapply adds_only_weaken; [|apply _describe_pl_with_retries_adds].
      intros ev Hev. by apply read_is_engine, locator_is_read. }
    intros fresh. apply adds_only_bind; [|intros; apply version_of_adds].
    apply adds_only_call, modify_event_is_engine.
Qed.

Lemma update_loop_adds steps fuel pid name a r ai ri v :
  adds_only (engine_event (region_name ec2) pid)
            (update_loop ACCOUNT steps fuel ec2 pid name a r ai ri v).
Proof.
  revert ai ri v. induction steps as [|steps IH]; intros ai ri v;
    cbn [update_loop]; apply adds_only_if; auto with adds.
  apply adds_only_bind; [apply _modify_adds|]. intros v'. apply IH.
Qed.

Lemma push_delta_adds fuel pid desc name v want have :
  adds_only (engine_event (region_name ec2) pid)
            (push_delta ACCOUNT fuel ec2 pid desc name v want have).
Proof.
  unfold push_delta. apply adds_only_if; [auto with adds|].
  apply adds_only_bind; [apply update_loop_adds|]. auto with adds.
Qed.

Lemma apply_delta_adds fuel pid desc want_list name acct :
  adds_only (engine_event (region_name ec2) pid)
            (apply_delta ACCOUNT fuel ec2 pid desc want_list name acct).
Proof.
  unfold apply_delta. apply adds_only_bind.
  { eapply adds_only_weaken; [apply read_is_engine|apply get_pl_entries_adds]. }
  intros [[[v have] m] owner].
  apply adds_only_if; [auto with adds|].
  apply adds_only_if; [auto with adds|]. apply push_delta_adds.
Qed.
End AddsEngine.

(** ** What the engine calls *)

Lemma read_event_cases region pid ev :
  read_event region pid ev = true →
  (∃ kw, ev = EvDescribeManaged region kw) ∨ (∃ kw, ev = EvDescribePrefix region kw)
  ∨ (∃ d, ev = EvSleep d)
  ∨ (∃ token, ev = EvGetEntries region (EntriesKw.mk pid token)).
Proof.
  unfold read_event, locator_event, describe_event.
  destruct ev as [r kw|r kw|r [p tok]| | | | |]; cbn;
    rewrite ?orb_false_r, ?andb_true_iff, ?String.eqb_eq; try done.
  - intros ->. left. by exists kw.
  - intros ->. right. left. by exists kw.
  - intros [-> ->]. right. right. right. by exists tok.
  - intros _. right. right. left. by eexists.
Qed.

Lemma engine_event_cases region pid ev :
  engine_event region pid ev = true →
  read_event region pid ev = true
  ∨ (∃ kw, ev = EvModify region kw ∧ ModifyKw.PrefixListId kw = pid).
Proof.
  unfold engine_event. intros [H|H]%orb_true_iff; [by left|right].
  destruct ev as [| | |r kw| | | |]; try done.
  apply andb_true_iff in H as [->%String.eqb_eq H%String.eqb_eq]. by exists kw.
Qed.

(** X7. Locating a list and reading its entries issues nothing but describe
    calls through the client given, sleeps, and reads of entries through the
    same client that name the identifier passed in, also when the list was
    found by its name: no update, no print, no post. *)
Theorem reader_calls_are_reads {W} ACCOUNT fuel (ec2 : Ec2 W) pid name s r s' :
  get_pl_entries ACCOUNT fuel ec2 pid name s = (r, s') →
  ∃ evs,
    calls s' = calls s ++ evs
    ∧ Forall (λ ev,
                (∃ kw, ev = EvDescribeManaged (region_name ec2) kw)
                ∨ (∃ kw, ev = EvDescribePrefix (region_name ec2) kw)
                ∨ (∃ d, ev = EvSleep d)
                ∨ (∃ token, ev = EvGetEntries (region_name ec2)
                                   (EntriesKw.mk pid token))) evs.
Proof.
  intros Hrun.
  destruct (get_pl_entries_adds ACCOUNT ec2 _ _ _ _ _ _ Hrun) as (evs & Hc & Hevs).
  exists evs. split; [done|].
  eapply Forall_impl; [exact Hevs|]. intros ev. apply read_event_cases.
Qed.

Lemma reader_calls_are_reads_witness :
  let run := get_pl_entries "111" 5 Scenario.us_east_1 "" (Some "cf-v4")
                            (Fake.start Scenario.owned) in
  ∃ evs,
    calls run.2 = [] ++ evs
    ∧ Forall (λ ev,
                (∃ kw, ev = EvDescribeManaged "us-east-1" kw)
                ∨ (∃ kw, ev = EvDescribePrefix "us-east-1" kw)
                ∨ (∃ d, ev = EvSleep d)
                ∨ (∃ token, ev = EvGetEntries "us-east-1"
                                   (EntriesKw.mk "" token))) evs.
Proof.
  intros run.
  apply (reader_calls_are_reads "111" 5%nat Scenario.us_east_1 "" (Some "cf-v4")
           (Fake.start Scenario.owned) run.1 run.2).
  apply surjective_pairing.
Defined.

(** X8. Reconciling a list issues nothing but the calls of its read and
    update calls through the same client, each naming the identifier passed
    in; a target configured by name alone is therefore read and updated
    under the empty identifier. Nothing is fetched, printed or posted. *)
Theorem reconciliation_calls_are_engine_calls {W} ACCOUNT fuel (ec2 : Ec2 W)
    pid desc want_list name acct s r s' :
  apply_delta ACCOUNT fuel ec2 pid desc want_list name acct s = (r, s') →
  ∃ evs,
    calls s' = calls s ++ evs
    ∧ Forall (λ ev,
                (∃ kw, ev = EvDescribeManaged (region_name ec2) kw)
                ∨ (∃ kw, ev = EvDescribePrefix (region_name ec2) kw)
                ∨ (∃ d, ev = EvSleep d)
                ∨ (∃ token, ev = EvGetEntries (region_name ec2)
                                   (EntriesKw.mk pid token))
                ∨ (∃ kw, ev = EvModify (region_name ec2) kw
                         ∧ ModifyKw.PrefixListId kw = pid)) evs.
Proof.
  intros Hrun.
  destruct (apply_delta_adds ACCOUNT ec2 _ _ _ _ _ _ _ _ _ Hrun)
    as (evs & Hc & Hevs).
  exists evs. split; [done|].
  eapply Forall_impl; [exact Hevs|]. intros ev Hev.
  destruct (engine_event_cases _ _ _ Hev) as [Hread|Hmod].
  - destruct (read_event_cases _ _ _ Hread) as [H|[H|[H|H]]]; tauto.
  - tauto.
Qed.

Lemma reconciliation_calls_are_engine_calls_witness :
  let run := apply_delta "111" 5 Scenario.us_east_1 "" "" ["172.16.0.0/12"]
                         (Some "cf-v4") "111" (Fake.start Scenario.owned) in
  ∃ evs,
    calls run.2 = [] ++ evs
    ∧ Forall (λ ev,
                (∃ kw, ev = EvDescribeManaged "us-east-1" kw)
                ∨ (∃ kw, ev = EvDescribePrefix "us-east-1" kw)
                ∨ (∃ d, ev = EvSleep d)
                ∨ (∃ token, ev = EvGetEntries "us-east-1" (EntriesKw.mk "" token))
                ∨ (∃ kw, ev = EvModify "us-east-1" kw
                         ∧ ModifyKw.PrefixListId kw = "")) evs.
Proof.
  intros run.
  apply (reconciliation_calls_are_engine_calls "111" 5%nat Scenario.us_east_1 ""
           "" ["172.16.0.0/12"] (Some "cf-v4") "111" (Fake.start Scenario.owned)
           run.1 run.2).
  apply surjective_pairing.
Defined.

(** ** The locator *)

Section Locator.
Context {W : Type} (ACCOUNT : string) (fuel : nat) (ec2 : Ec2 W)
  (pid : string) (name : option string) (backoff : Z).
Implicit Types s : state W.

Lemma sleeps_app evs evs' : sleeps (evs ++ evs') = sleeps evs ++ sleeps evs'.
Proof. apply omap_app. Qed.

Lemma sleeps_describe region evs :
  Forall (λ ev, describe_event region ev = true) evs → sleeps evs = [].
Proof.
  induction 1 as [|ev evs Hev _ IH]; [done|].
  unfold sleeps in *. cbn. rewrite IH. by destruct ev.
Qed.

(** The loop of the locator after [k] failed rounds. *)
Lemma retries_after_failed i k last s last' s' rest :
  failed_rounds fuel ec2 pid name backoff i k last s last' s' →
  retries fuel ec2 pid name backoff (k + rest) i last s
  = retries fuel ec2 pid name backoff rest (i + k) last' s'.
Proof.
  induction 1 as [i last s|i k last s o s1 l s2 last' s' Hfind Hnot Hlist _ IH].
  - by rewrite Nat.add_0_r.
  - cbn [Nat.add retries]. rewrite (bind_Return _ _ _ _ _ Hfind).
    assert ((let* last_seen' := _list_all_pls fuel ec2 in
             emit (EvSleep (backoff * 2 ^ Z.of_nat i)) ;;;
             retries fuel ec2 pid name backoff (k + rest) (S i) last_seen') s1
            = retries fuel ec2 pid name backoff rest (i + S k) last' s') as Hagain.
    { rewrite (bind_Return _ _ _ _ _ Hlist). unfold bind at 1, emit.
      rewrite IH. by rewrite Nat.add_succ_r. }
    destruct o as [p|]; [|done]. unfold found in Hnot. cbn in Hnot.
    by rewrite Hnot.
Qed.

Lemma failed_rounds_sleeps i k last s last' s' :
  failed_rounds fuel ec2 pid name backoff i k last s last' s' →
  ∃ evs, calls s' = calls s ++ evs
         ∧ sleeps evs = (λ j, backoff * 2 ^ Z.of_nat j) <$> seq i k.
Proof.
  induction 1 as [i last s|i k last s o s1 l s2 last' s' Hfind Hnot Hlist _ IH].
  - exists []. by rewrite app_nil_r.
  - destruct (_find_pl_adds ec2 _ _ _ _ _ _ Hfind) as (e1 & Hc1 & He1).
    destruct (_list_all_pls_adds ec2 _ _ _ _ Hlist) as (e2 & Hc2 & He2).
    destruct IH as (e3 & Hc3 & He3). cbn [calls] in Hc3.
    exists (e1 ++ e2 ++ [EvSleep (backoff * 2 ^ Z.of_nat i)] ++ e3). split.
    + rewrite Hc3, Hc2, Hc1. by rewrite <- !app_assoc.
    + rewrite !sleeps_app, (sleeps_describe _ _ He1), (sleeps_describe _ _ He2), He3.
      done.
Qed.
End Locator.

(** X9. When [attempts] rounds in a row find nothing, the locator raises the
    not-found error, naming the account, the region and both hints, with a
    preview of at most 20 of the records last listed. It has slept after
    every round, the last one included, [backoff * 2 ** i] after round [i]. *)
Theorem locator_gives_up {W} ACCOUNT fuel (ec2 : Ec2 W) pid name backoff
    attempts s last s' :
  failed_rounds fuel ec2 pid name backoff 0 attempts [] s last s' →
  _describe_pl_with_retries ACCOUNT fuel ec2 pid name attempts backoff s
  = (Raise (NotFoundError attempts ACCOUNT (region_name ec2) pid name
              (preview_of <$> take 20 last)), s')
  ∧ (length (preview_of <$> take 20 last) ≤ 20)%nat
  ∧ ∃ evs, calls s' = calls s ++ evs
           ∧ sleeps evs = (λ i, backoff * 2 ^ Z.of_nat i) <$> seq 0 attempts.
Proof.
  intros Hrounds. split_and!.
  - unfold _describe_pl_with_retries. unfold bind.
    pose proof (retries_after_failed fuel ec2 pid name backoff _ _ _ _ _ _ 0%nat
                  Hrounds) as Hrun.
    rewrite Nat.add_0_r in Hrun. by rewrite Hrun.
  - rewrite length_fmap, length_take. lia.
  - by eapply failed_rounds_sleeps.
Qed.

(** X10. When [k] rounds find nothing and the next one, still within
    [attempts], finds a record, the locator returns that record in the state
    in which it was found, having slept [backoff * 2 ** i] after each failed
    round [i] and not after the round that found it. *)
Theorem locator_returns_late_find {W} ACCOUNT fuel (ec2 : Ec2 W) pid name backoff
    attempts k s last s1 pl s2 :
  failed_rounds fuel ec2 pid name backoff 0 k [] s last s1 →
  _find_pl fuel ec2 pid name s1 = (Return (Some pl), s2) →
  PL.nonempty pl = true →
  (k < attempts)%nat →
  _describe_pl_with_retries ACCOUNT fuel ec2 pid name attempts backoff s
  = (Return pl, s2)
  ∧ ∃ evs, calls s2 = calls s ++ evs
           ∧ sleeps evs = (λ i, backoff * 2 ^ Z.of_nat i) <$> seq 0 k.
Proof.
  intros Hrounds Hfind Hpl Hk. split.
  - unfold _describe_pl_with_retries. unfold bind.
    replace attempts with (k + S (attempts - S k))%nat by lia.
    rewrite (retries_after_failed fuel ec2 pid name backoff _ _ _ _ _ _ _ Hrounds).
    cbn [retries]. rewrite (bind_Return _ _ _ _ _ Hfind). by rewrite Hpl.
  - destruct (failed_rounds_sleeps fuel ec2 pid name backoff _ _ _ _ _ _ Hrounds)
      as (e1 & Hc1 & He1).
    destruct (_find_pl_adds ec2 _ _ _ _ _ _ Hfind) as (e2 & Hc2 & He2).
    exists (e1 ++ e2). split.
    + by rewrite Hc2, Hc1, app_assoc.
    + by rewrite sleeps_app, He1, (sleeps_describe _ _ He2), app_nil_r.
Qed.

Lemma locator_gives_up_witness :
  let s := Fake.start Scenario.nothing in
  let run := _describe_pl_with_retries "111" 2 Scenario.us_east_1 "pl-4" None 2
                                       BACKOFF s in
  run = (Raise (NotFoundError 2 "111" "us-east-1" "pl-4" None []), run.2)
  ∧ ∃ evs, calls run.2 = calls s ++ evs ∧ sleeps evs = [1; 2].
Proof.
  intros s run.
  destruct (locator_gives_up "111" 2%nat Scenario.us_east_1 "pl-4" None BACKOFF
              2%nat s [] run.2) as (Hrun & _ & Hsleeps).
  - eapply failed_more; [reflexivity|reflexivity|reflexivity|].
    eapply failed_more; [reflexivity|reflexivity|reflexivity|].
    apply failed_none.
  - split; [exact Hrun|exact Hsleeps].
Defined.

Lemma locator_returns_late_find_witness :
  let s := mkState 3%nat [] in
  let run := _describe_pl_with_retries "111" 2 Lagging.ec2 "pl-4" None ATTEMPTS
                                       BACKOFF s in
  run = (Return Lagging.record, run.2)
  ∧ ∃ evs, calls run.2 = calls s ++ evs ∧ sleeps evs = [1].
Proof.
  intros s run.
  apply (locator_returns_late_find "111" 2%nat Lagging.ec2 "pl-4" None BACKOFF
           ATTEMPTS 1%nat s []
           (mkState 0%nat
              (calls (retries 2 Lagging.ec2 "pl-4" None BACKOFF 1 0 [] s).2))
           Lagging.record run.2).
  - eapply failed_more; [reflexivity|reflexivity|reflexivity|].
    apply failed_none.
  - reflexivity.
  - reflexivity.
  - unfold ATTEMPTS. lia.
Defined.

(** ** Looking a list up *)

(** X11. What [_find_pl] returns. With an identifier hint, a non-empty
    answer to the lookup by identifier is final: its first record is
    returned after that single call, without any listing and without
    comparing its identifier with the hint. Otherwise a record returned
    carries the identifier hint, or else the name hint; with neither hint
    nothing is ever returned. *)
Theorem find_pl_matches_a_hint {W} fuel (ec2 : Ec2 W) pid name s :
  (∀ resp s1 pl rest,
     pid ≠ "" →
     _describe_managed_pls ec2 (Some [pid]) None s = (Return resp, s1) →
     _pls resp = pl :: rest →
     _find_pl fuel ec2 pid name s = (Return (Some pl), s1))
  ∧ (∀ pl s',
       _find_pl fuel ec2 pid name s = (Return (Some pl), s') →
       (pid ≠ "" ∧ ∃ resp,
          _describe_managed_pls ec2 (Some [pid]) None s = (Return resp, s')
          ∧ head (_pls resp) = Some pl)
       ∨ (pid ≠ "" ∧ get (PL.PrefixListId pl) = Some pid)
       ∨ (truthy_str name = true ∧ get (PL.PrefixListName pl) = name)).
Proof.
  split.
  - intros resp s1 pl rest Hpid Hresp Hpls. unfold _find_pl.
    apply String.eqb_neq in Hpid. cbn [truthy_str]. rewrite Hpid. cbn [negb].
    unfold bind at 1, bind at 1. rewrite Hresp. unfold ret. by rewrite Hpls.
  - intros pl s' Hrun. unfold _find_pl in Hrun. cbn [truthy_str] in Hrun.
    destruct (String.eqb_spec pid "") as [Hemp|Hpid]; cbn [negb andb] in Hrun.
    + unfold bind at 1, ret at 1 in Hrun.
      unfold bind at 1 in Hrun.
      destruct (_list_all_pls fuel ec2 s) as [[all| |] s1]; try done.
      cbn [negb andb] in Hrun.
      assert (List.find (λ _ : PL.t, false) all = None) as Hnone
        by (clear; induction all; [done|by cbn]).
      rewrite Hnone in Hrun.
      destruct (truthy_str name) eqn:Hname; [|done].
      unfold bind in Hrun.
      destruct (_list_all_pls fuel ec2 s1) as [[again| |] s2]; try done.
      destruct (List.find _ again) as [p|] eqn:Hfind; [|done].
      injection Hrun as -> ->. right. right. split; [done|].
      apply find_some in Hfind as [_ Hp]. by apply bool_decide_eq_true in Hp.
    + unfold bind at 1, bind at 1 in Hrun.
      destruct (_describe_managed_pls ec2 (Some [pid]) None s)
        as [[resp| |] s1] eqn:Hresp; try done.
      unfold ret at 1 in Hrun.
      destruct (head (_pls resp)) as [p|] eqn:Hhead.
      { injection Hrun as -> ->. left. split; [done|]. by exists resp. }
      unfold bind at 1 in Hrun.
      destruct (_list_all_pls fuel ec2 s1) as [[all| |] s2]; try done.
      destruct (List.find _ all) as [p|] eqn:Hfind.
      { injection Hrun as -> ->. right. left. split; [done|].
        apply find_some in Hfind as [_ Hp]. by apply bool_decide_eq_true in Hp. }
      destruct (truthy_str name) eqn:Hname; [|done].
      unfold bind in Hrun.
      destruct (_list_all_pls fuel ec2 s2) as [[again| |] s3]; try done.
      destruct (List.find _ again) as [p|] eqn:Hfind2; [|done].
      injection Hrun as -> ->. right. right. split; [done|].
      apply find_some in Hfind2 as [_ Hp]. by apply bool_decide_eq_true in Hp.
Qed.

Lemma find_pl_matches_a_hint_witness :
  let s := Fake.start Scenario.owned in
  let by_id := _find_pl 5 Scenario.us_east_1 "pl-4" None s in
  let by_name := _find_pl 5 Scenario.us_east_1 "" (Some "cf-v4") s in
  let pl := Fake.managed_record "pl-4" "cf-v4" "111" 3 10 in
  by_id = (Return (Some pl),
           mkState Scenario.owned
             [EvDescribeManaged "us-east-1" (DescribeKw.mk (Some ["pl-4"]) None)])
  ∧ ((("" : string) ≠ "" ∧ ∃ resp,
        _describe_managed_pls Scenario.us_east_1 (Some [""]) None s
        = (Return resp, by_name.2)
        ∧ head (_pls resp) = Some pl)
     ∨ (("" : string) ≠ "" ∧ get (PL.PrefixListId pl) = Some "")
     ∨ (truthy_str (Some "cf-v4") = true
        ∧ get (PL.PrefixListName pl) = Some "cf-v4")).
Proof.
  intros s by_id by_name pl. split.
  - apply (proj1 (find_pl_matches_a_hint 5%nat Scenario.us_east_1 "pl-4" None s)
             (DescribeResp.mk (Some [pl]) None None) _ pl []);
      [discriminate|reflexivity|reflexivity].
  - apply (proj2 (find_pl_matches_a_hint 5%nat Scenario.us_east_1 ""
                    (Some "cf-v4") s) pl by_name.2).
    reflexivity.
Defined.

(** ** Reading the entries *)

Section Entries.
Context {W : Type} (ec2 : Ec2 W) (pid : string).

Lemma entry_pages_run fuel token have s ps s' :
  entry_pages_of ec2 pid token s ps s' →
  (length ps ≤ fuel)%nat →
  entry_pages fuel ec2 pid token have s
  = (Return (foldl add_cidr have (entries_of ps)), s').
Proof.
  intros Hpages. revert fuel have.
  induction Hpages as [token s resp s' Hresp Hlast
                      |token s resp s1 rest s' Hresp Hmore _ IH];
    intros [|fuel] have Hfuel; simpl in Hfuel; try lia;
    cbn [entry_pages]; rewrite (bind_Return _ _ _ _ _ Hresp).
  - rewrite Hlast. unfold entries_of. cbn. by rewrite app_nil_r.
  - rewrite Hmore, IH by lia. unfold entries_of. cbn. by rewrite foldl_app.
Qed.

Lemma add_cidr_fold have es c :
  c ∈ foldl add_cidr have es
  ↔ c ∈ have ∨ (c ≠ "" ∧ ∃ e, e ∈ es ∧ get (Entry.Cidr e) = Some c).
Proof.
  revert have. induction es as [|e es IH]; intros have; cbn [foldl].
  - split; [by left|]. intros [?|(_ & e & He & _)]; [done|].
    by apply elem_of_nil in He.
  - rewrite IH. unfold add_cidr.
    destruct (get (Entry.Cidr e)) as [x|] eqn:Ex; cbn [truthy_str].
    + destruct (String.eqb_spec x "") as [->|Hx]; cbn [negb].
      * split; (intros [?|(Hc & e' & He' & Hg)]; [by left|right]);
          (split; [done|]); exists e'; (split; [|done]).
        -- by right.
        -- apply elem_of_cons in He' as [->|?]; [congruence|done].
      * cbn [default from_option Datatypes.id].
        rewrite elem_of_union, elem_of_singleton. split.
        -- intros [[->|?]|(Hc & e' & He' & Hg)].
           ++ right. split; [done|]. exists e. split; [by left|done].
           ++ by left.
           ++ right. split; [done|]. exists e'. split; [by right|done].
        -- intros [?|(Hc & e' & He' & Hg)]; [left; by right|].
           apply elem_of_cons in He' as [->|?].
           ++ left. left. congruence.
           ++ right. split; [done|]. by exists e'.
    + split; (intros [?|(Hc & e' & He' & Hg)]; [by left|right]);
        (split; [done|]); exists e'; (split; [|done]).
      * by right.
      * apply elem_of_cons in He' as [->|?]; [congruence|done].
Qed.
End Entries.

(** X12. When the reads of the entries answer with the pages [ps], each
    asked for with the token of the page before, the entry reader returns,
    with fuel for that many pages, the set of the non-empty [Cidr] values of
    all the entries of all the pages; an entry without [Cidr] adds nothing. *)
Theorem entries_are_all_pages {W} fuel (ec2 : Ec2 W) pid s ps s' :
  entry_pages_of ec2 pid None s ps s' →
  (length ps ≤ fuel)%nat →
  ∃ have,
    entry_pages fuel ec2 pid None ∅ s = (Return have, s')
    ∧ ∀ c, c ∈ have
           ↔ c ≠ "" ∧ ∃ e, e ∈ entries_of ps ∧ get (Entry.Cidr e) = Some c.
Proof.
  intros Hpages Hfuel. eexists. split.
  - by apply entry_pages_run.
  - intros c. rewrite add_cidr_fold, elem_of_empty. tauto.
Qed.

Lemma entries_are_all_pages_witness :
  let s := Fake.start Cases.gappy in
  let run := entry_pages 2 Scenario.us_east_1 "pl-4" None ∅ s in
  ∃ have,
    run = (Return have, run.2)
    ∧ ∀ c, c ∈ have
           ↔ c ≠ ""
             ∧ ∃ e, e ∈ [Fake.entry "10.0.0.0/8"; Entry.mk Absent (Val "no range");
                         Fake.entry "192.168.0.0/16"]
                    ∧ get (Entry.Cidr e) = Some c.
Proof.
  intros s run.
  apply (entries_are_all_pages 2%nat Scenario.us_east_1 "pl-4" s
           [EntriesResp.mk (Some [Fake.entry "10.0.0.0/8";
                                  Entry.mk Absent (Val "no range")]) (Some "2");
            EntriesResp.mk (Some [Fake.entry "192.168.0.0/16"]) None]
           run.2).
  - eapply entry_pages_more; [reflexivity|reflexivity|].
    eapply entry_pages_last; reflexivity.
  - cbn. lia.
Defined.

(** ** Update calls that fail *)

(** X13. An update call that the provider rejects with anything but a
    [ClientError] taken for a version conflict is not retried: [_modify]
    raises that very error after the single call, without locating the
    list again. An accepted call whose answer lacks the new version raises
    [KeyError] after the call has been made. *)
Theorem other_rejections_are_final {W} ACCOUNT fuel (ec2 : Ec2 W) pid name
    add_batch rem_batch hint s :
  let kwargs := modify_kwargs pid hint add_batch rem_batch in
  let after w' := mkState w' (calls s ++ [EvModify (region_name ec2) kwargs]) in
  (∀ e w',
     modify_managed_prefix_list ec2 kwargs (world s) = (inl e, w') →
     (∀ msg, e = ClientError msg → version_conflict msg = false) →
     _modify ACCOUNT fuel ec2 pid name add_batch rem_batch hint s
     = (Raise e, after w'))
  ∧ (∀ resp w',
       modify_managed_prefix_list ec2 kwargs (world s) = (inr resp, w') →
       ModifyResp.PrefixList resp = None
       ∨ ModifyResp.PrefixList resp = Some None →
       ∃ key,
         _modify ACCOUNT fuel ec2 pid name add_batch rem_batch hint s
         = (Raise (KeyError key), after w')).
Proof.
  intros kwargs after. split.
  - intros e w' Hcall Hother.
    unfold _modify, except_ClientError. fold kwargs.
    unfold bind at 1, call at 1. rewrite Hcall. cbn iota beta.
    destruct e as [msg| | | |]; try done.
    by rewrite (Hother msg eq_refl).
  - intros resp w' Hcall Hmissing.
    unfold _modify, except_ClientError. fold kwargs.
    unfold bind at 1, call at 1. rewrite Hcall. cbn iota beta.
    unfold version_of. destruct Hmissing as [-> | ->]; by eexists.
Qed.

Lemma other_rejections_are_final_witness :
  _modify "111" 5 Scenario.us_east_1 "pl-4" None Scenario.one_add None 3
          (Fake.start Cases.refusing)
  = (Raise (ClientError Cases.denied),
     mkState (Fake.mkWorld (Fake.managed Cases.refusing) (Fake.plain Cases.refusing)
                           (Fake.entries Cases.refusing) 1 [Fake.updated 4])
             [EvModify "us-east-1" (modify_kwargs "pl-4" 3 Scenario.one_add None)])
  ∧ ∃ key,
      _modify "111" 5 Scenario.us_east_1 "pl-4" None Scenario.one_add None 3
              (Fake.start Cases.mute)
      = (Raise (KeyError key),
         mkState (Fake.mkWorld (Fake.managed Cases.mute) (Fake.plain Cases.mute)
                               (Fake.entries Cases.mute) 1 [])
                 [EvModify "us-east-1"
                    (modify_kwargs "pl-4" 3 Scenario.one_add None)]).
Proof.
  split.
  - apply (proj1 (other_rejections_are_final "111" 5%nat Scenario.us_east_1 "pl-4"
                    None Scenario.one_add None 3 (Fake.start Cases.refusing))
             (ClientError Cases.denied)).
    + reflexivity.
    + intros msg [= <-]. reflexivity.
  - apply (proj2 (other_rejections_are_final "111" 5%nat Scenario.us_east_1 "pl-4"
                    None Scenario.one_add None 3 (Fake.start Cases.mute))
             (ModifyResp.mk None)).
    + reflexivity.
    + by left.
Defined.

(** X14. When an update call is rejected for its version and the locator
    then fails, [_modify] raises the locator's error in the state in which
    the locator failed: the batch is not submitted a second time. *)
Theorem conflict_without_list_is_final {W} ACCOUNT fuel (ec2 : Ec2 W) pid name
    add_batch rem_batch hint s msg w1 e s2 :
  let kwargs := modify_kwargs pid hint add_batch rem_batch in
  modify_managed_prefix_list ec2 kwargs (world s) = (inl (ClientError msg), w1) →
  version_conflict msg = true →
  _describe_pl_with_retries ACCOUNT fuel ec2 pid name ATTEMPTS BACKOFF
    (mkState w1 (calls s ++ [EvModify (region_name ec2) kwargs])) = (Raise e, s2) →
  _modify ACCOUNT fuel ec2 pid name add_batch rem_batch hint s = (Raise e, s2)
  ∧ List.filter is_modify (calls s2)
    = List.filter is_modify (calls s) ++ [EvModify (region_name ec2) kwargs].
Proof.
  intros kwargs Hfirst Hconflict Hlost. split.
  - unfold _modify, except_ClientError. fold kwargs.
    unfold bind at 1, call at 1. rewrite Hfirst. cbn iota beta.
    rewrite Hconflict. unfold bind at 1. by rewrite Hlost.
  - destruct (_describe_pl_with_retries_reads _ _ _ _ _ _ _ _ _ _ Hlost)
      as (evs & Hcalls & Hevs).
    cbn [calls] in Hcalls. rewrite Hcalls, !List.filter_app.
    cbn [List.filter is_modify].
    assert (List.filter is_modify evs = []) as ->.
    { clear -Hevs. induction Hevs as [|ev evs Hev _ IH]; [done|].
      cbn. by rewrite Hev. }
    by rewrite app_nil_r.
Qed.

Lemma conflict_without_list_is_final_witness :
  let s := Fake.start Cases.vanished in
  let first := EvModify "us-east-1" (modify_kwargs "pl-4" 3 Scenario.one_add None) in
  let lost :=
    _describe_pl_with_retries "111" 2 Scenario.us_east_1 "pl-4" None ATTEMPTS BACKOFF
      (mkState (Fake.mkWorld (inr []) (inr []) [] 1 [Fake.updated 4]) [first]) in
  _modify "111" 2 Scenario.us_east_1 "pl-4" None Scenario.one_add None 3 s
  = (Raise (NotFoundError 8 "111" "us-east-1" "pl-4" None []), lost.2)
  ∧ List.filter is_modify (calls lost.2) = [first].
Proof.
  intros s first lost.
  apply (conflict_without_list_is_final "111" 2%nat Scenario.us_east_1 "pl-4" None
           Scenario.one_add None 3 s Scenario.stale
           (Fake.mkWorld (inr []) (inr []) [] 1 [Fake.updated 4])
           (NotFoundError 8 "111" "us-east-1" "pl-4" None []) lost.2).
  - reflexivity.
  - reflexivity.
  - reflexivity.
Defined.

(** ** Update calls that succeed *)

Section Accepted.
Context {W : Type} (ACCOUNT : string) (fuel : nat) (ec2 : Ec2 W)
  (pid : string) (name : option string).

Lemma submit_all_accepted v s pairs evs v' w' :
  all_accepted ec2 pid v (world s) pairs evs v' w' →
  submit_all ACCOUNT fuel ec2 pid name pairs v s
  = (Return v', mkState w' (calls s ++ evs))
  ∧ length evs = length pairs.
Proof.
  intros Hrun. remember (world s) as w eqn:Hw. revert s Hw.
  induction Hrun as [v w|v w a r resp w1 v1 pairs evs v' w' Hcall Hv _ IH];
    intros s ->.
  - cbn. rewrite app_nil_r. by destruct s.
  - cbn [submit_all]. unfold bind.
    rewrite (_modify_accepted ACCOUNT fuel ec2 pid name a r v s resp w1 v1 Hcall Hv).
    destruct (IH (mkState w1 (calls s ++ [EvModify (region_name ec2)
                                         (modify_kwargs pid v a r)])) eq_refl)
      as [Hsubmit Hlen].
    rewrite Hsubmit. cbn [calls length]. by rewrite Hlen, <- app_assoc.
Qed.
End Accepted.

(** ** What the update calls carry *)

Section Sent.
Context {W : Type} (ec2 : Ec2 W) (pid : string).

(** The calls of an accepted run are the pairs it submits, each with the
    token of its turn. *)
Lemma all_accepted_calls v w pairs evs v' w' :
  all_accepted ec2 pid v w pairs evs v' w' →
  Forall (λ p, p.1 ≠ Some [] ∧ p.2 ≠ Some []) pairs →
  Forall2 (λ p ev, ∃ hint, ev = EvModify (region_name ec2)
                                  (ModifyKw.mk pid hint p.1 p.2)) pairs evs.
Proof.
  induction 1 as [|v w a r resp w1 v1 pairs evs v' w' _ _ _ IH]; intros Hp.
  - constructor.
  - apply Forall_cons in Hp as [[Ha Hr] Hp]. constructor; [|by apply IH].
    exists v. by rewrite modify_kwargs_carries.
Qed.

Lemma calls_carry pairs evs :
  Forall2 (λ p ev, ∃ hint, ev = EvModify (region_name ec2)
                                  (ModifyKw.mk pid hint p.1 p.2)) pairs evs →
  omap add_entries_of evs = omap fst pairs
  ∧ omap remove_entries_of evs = omap snd pairs.
Proof.
  induction 1 as [|[a r] ev pairs evs [hint ->] _ [IHa IHr]]; [done|].
  cbn [omap list_omap add_entries_of remove_entries_of ModifyKw.AddEntries
       ModifyKw.RemoveEntries fst snd].
  by rewrite IHa, IHr.
Qed.
End Sent.

(** X3. When the provider accepts every update call, the loop of
    [apply_delta] sends each entry to add and each entry to remove exactly
    once and in order: the entries its update calls carry, taken together,
    are the two lists. It issues update calls only, none empty on both sides
    and none of more than 80 entries a side, and as many as the larger of
    the two ceilings of size over 80. *)
Theorem update_calls_cover_both_lists {W} ACCOUNT fuel (ec2 : Ec2 W) pid name
    (adds : list AddEntry.t) (rems : list RemoveEntry.t) v s evs v' w' :
  all_accepted ec2 pid v (world s)
    (paired (_chunks adds MAX_BATCH) (_chunks rems MAX_BATCH)) evs v' w' →
  update_loop ACCOUNT
    (length (_chunks adds MAX_BATCH) `max` length (_chunks rems MAX_BATCH))
    fuel ec2 pid name (_chunks adds MAX_BATCH) (_chunks rems MAX_BATCH) 0 0 v s
  = (Return v', mkState w' (calls s ++ evs))
  ∧ adds_sent evs = adds
  ∧ rems_sent evs = rems
  ∧ Forall (update_of_at_most 80) evs
  ∧ length evs
    = (((length adds + 79) / 80) `max` ((length rems + 79) / 80))%nat.
Proof.
  intros Hrun.
  destruct (submit_all_accepted ACCOUNT fuel ec2 pid name _ _ _ _ _ _ Hrun)
    as [Hsubmit Hlen].
  assert (0 < MAX_BATCH)%nat as Hpos by (unfold MAX_BATCH; lia).
  pose proof (_chunks_sizes MAX_BATCH adds Hpos) as Ha.
  pose proof (_chunks_sizes MAX_BATCH rems Hpos) as Hr.
  rewrite Forall_forall in Ha. rewrite Forall_forall in Hr.
  assert (Forall (λ p, (∀ b, p.1 = Some b → (0 < length b ≤ 80)%nat)
                       ∧ (∀ b, p.2 = Some b → (0 < length b ≤ 80)%nat)
                       ∧ (is_Some p.1 ∨ is_Some p.2))
                 (paired (_chunks adds MAX_BATCH) (_chunks rems MAX_BATCH)))
    as Hpairs.
  { apply Forall_forall. intros [a r] (Hin1 & Hin2 & Hsome)%paired_elem.
    split_and!; [intros b Hb; apply Ha, Hin1, Hb
                |intros b Hb; apply Hr, Hin2, Hb|done]. }
  assert (Forall2 (λ p ev, ∃ hint, ev = EvModify (region_name ec2)
                                          (ModifyKw.mk pid hint p.1 p.2))
                  (paired (_chunks adds MAX_BATCH) (_chunks rems MAX_BATCH)) evs)
    as Hcalls.
  { eapply all_accepted_calls; [done|].
    eapply Forall_impl; [exact Hpairs|]. intros [a r] (H1 & H2 & _). cbn in *.
    split; intros ->; [specialize (H1 _ eq_refl)|specialize (H2 _ eq_refl)];
      cbn in *; lia. }
  destruct (calls_carry ec2 pid _ _ Hcalls) as [Eadd Erem].
  split_and!.
  - rewrite update_loop_from by lia. by rewrite !drop_0.
  - unfold adds_sent. rewrite Eadd, paired_fst. by apply _chunks_concat.
  - unfold rems_sent. rewrite Erem, paired_snd. by apply _chunks_concat.
  - clear Hrun Hsubmit Hlen Eadd Erem.
    induction Hcalls as [|[a r] ev pairs evs' [hint ->] _ IH]; [constructor|].
    apply Forall_cons in Hpairs as [(H1 & H2 & Hsome) Hpairs].
    constructor; [|by apply IH]. cbn in *.
    split_and!; [done| | |done].
    + destruct a as [b|]; [apply (H1 b eq_refl)|cbn; lia].
    + destruct r as [b|]; [apply (H2 b eq_refl)|cbn; lia].
  - rewrite Hlen, paired_length, !_chunks_length. unfold MAX_BATCH.
    by replace (length adds + 80 - 1)%nat with (length adds + 79)%nat by lia;
      replace (length rems + 80 - 1)%nat with (length rems + 79)%nat by lia.
Qed.

Lemma update_calls_cover_both_lists_witness :
  let s := Fake.start Scenario.two_updates in
  let adds := Scenario.adds_85 in
  let rems := [RemoveEntry.mk "10.0.0.0/8"] in
  let evs :=
    [EvModify "us-east-1"
       (ModifyKw.mk "pl-4" 3 (Some (take 80 adds)) (Some rems));
     EvModify "us-east-1" (ModifyKw.mk "pl-4" 4 (Some (drop 80 adds)) None)] in
  update_loop "111"
    (length (_chunks adds MAX_BATCH) `max` length (_chunks rems MAX_BATCH))
    5 Scenario.us_east_1 "pl-4" None (_chunks adds MAX_BATCH)
    (_chunks rems MAX_BATCH) 0 0 3 s
  = (Return 5, mkState Scenario.no_update_left (calls s ++ evs))
  ∧ adds_sent evs = adds
  ∧ rems_sent evs = rems
  ∧ Forall (update_of_at_most 80) evs
  ∧ length evs = (((length adds + 79) / 80) `max` ((length rems + 79) / 80))%nat.
Proof.
  intros s adds rems evs.
  apply (update_calls_cover_both_lists "111" 5%nat Scenario.us_east_1 "pl-4" None
           adds rems 3 s evs 5 Scenario.no_update_left).
  change (paired (_chunks adds MAX_BATCH) (_chunks rems MAX_BATCH))
    with [(Some (take 80 adds), Some rems); (Some (drop 80 adds), None)].
  eapply accepted_more; [reflexivity|reflexivity|].
  eapply accepted_more; [reflexivity|reflexivity|]. apply accepted_none.
Defined.

(** X15. When the provider accepts every update call of a delta that is not
    empty, [apply_delta]'s update phase issues exactly these calls, one per
    pair of batches: as many as the larger of the two ceilings of size over
    80. It returns the result that reports the whole delta as added and
    removed, [changed] true, the version read as [from_version] and the
    version of the last answer as [to_version]. *)
Theorem accepted_delta_is_reported {W} ACCOUNT fuel (ec2 : Ec2 W) pid desc name
    v want have s evs v' w' :
  to_add want have ≠ [] ∨ to_remove want have ≠ [] →
  all_accepted ec2 pid v (world s)
    (paired (_chunks (entries_to_add desc (to_add want have)) MAX_BATCH)
            (_chunks (RemoveEntry.mk <$> to_remove want have) MAX_BATCH))
    evs v' w' →
  ∃ r,
    push_delta ACCOUNT fuel ec2 pid desc name v want have s
    = (Return r, mkState w' (calls s ++ evs))
    ∧ id r = pid ∧ from_version r = v ∧ to_version r = v'
    ∧ added r = to_add want have ∧ removed r = to_remove want have
    ∧ changed r = true
    ∧ length evs
      = (((length (to_add want have) + 79) / 80)
         `max` ((length (to_remove want have) + 79) / 80))%nat.
Proof.
  intros Hdelta Hrun.
  exists (applied pid v v' (to_add want have) (to_remove want have)).
  destruct (submit_all_accepted ACCOUNT fuel ec2 pid name _ _ _ _ _ _ Hrun)
    as [Hsubmit Hlen].
  split_and!; try done.
  - unfold push_delta.
    assert (negb (truthy_list (to_add want have))
            && negb (truthy_list (to_remove want have)) = false) as ->.
    { destruct Hdelta as [H|H]; [destruct (to_add want have)|
                                 destruct (to_remove want have)]; try done.
      apply andb_false_r. }
    unfold bind. rewrite update_loop_from by lia. rewrite !drop_0.
    by rewrite Hsubmit.
  - cbn. destruct Hdelta as [H|H]; [destruct (to_add want have)|
                                    destruct (to_remove want have)]; try done.
    apply orb_true_r.
  - rewrite Hlen, paired_length, !_chunks_length. unfold entries_to_add, MAX_BATCH.
    rewrite !length_fmap.
    by replace (length (to_add want have) + 80 - 1)%nat
      with (length (to_add want have) + 79)%nat by lia;
    replace (length (to_remove want have) + 80 - 1)%nat
      with (length (to_remove want have) + 79)%nat by lia.
Qed.

Lemma accepted_delta_is_reported_witness :
  let s := Fake.start Scenario.two_updates in
  let want : gset string := {["172.16.0.0/12"]} in
  let call :=
    EvModify "us-east-1"
      (modify_kwargs "pl-4" 3
         (Some [AddEntry.mk "172.16.0.0/12" DESCR_DEFAULT])
         (Some [RemoveEntry.mk "10.0.0.0/8"; RemoveEntry.mk "192.168.0.0/16"])) in
  ∃ r,
    push_delta "111" 5 Scenario.us_east_1 "pl-4" "" None 3 want
               Scenario.have_owned s
    = (Return r, mkState Scenario.one_update_left [call])
    ∧ id r = "pl-4" ∧ from_version r = 3 ∧ to_version r = 4
    ∧ added r = to_add want Scenario.have_owned
    ∧ removed r = to_remove want Scenario.have_owned
    ∧ changed r = true
    ∧ length [call]
      = (((length (to_add want Scenario.have_owned) + 79) / 80)
         `max` ((length (to_remove want Scenario.have_owned) + 79) / 80))%nat.
Proof.
  intros s want call.
  apply (accepted_delta_is_reported "111" 5%nat Scenario.us_east_1 "pl-4" "" None
           3 want Scenario.have_owned s [call] 4 Scenario.one_update_left).
  - left. vm_compute. discriminate.
  - eapply accepted_more; [reflexivity|reflexivity|]. apply accepted_none.
Defined.

(** X16. An empty desired list is reconciled like any other: on a list of
    the caller whose maximum entry count is not negative it passes the
    capacity check, nothing is to be added and every entry read is to be
    removed. *)
Theorem empty_desired_list_removes_all {W} ACCOUNT fuel (ec2 : Ec2 W) pid desc
    name acct s v have m owner s' :
  get_pl_entries ACCOUNT fuel ec2 pid name s = (Return (v, have, m, owner), s') →
  owner = "" ∨ owner = acct →
  0 ≤ m →
  apply_delta ACCOUNT fuel ec2 pid desc [] name acct s
  = push_delta ACCOUNT fuel ec2 pid desc name v ∅ have s'
  ∧ to_add ∅ have = []
  ∧ list_to_set (to_remove ∅ have) = have
  ∧ length (to_remove ∅ have) = size have.
Proof.
  intros Hread Howned Hm.
  destruct (sorted_elements (have ∖ ∅)) as (Er & _ & _).
  rewrite difference_empty_L in Er.
  split_and!.
  - rewrite (apply_delta_after_read _ _ _ _ _ _ _ _ _ _ _ _ _ _ Hread).
    rewrite owned_passes_guard by done.
    change (list_to_set (@nil string) : gset string) with (∅ : gset string).
    rewrite size_empty.
    assert (truthy_int (Some m) && (m <? Z.of_nat 0) = false) as ->.
    { apply andb_false_iff. right. apply Z.ltb_ge. cbn. lia. }
    done.
  - unfold to_add.
    assert (∅ ∖ have = (∅ : gset string)) as ->; [|done].
    apply set_eq. intros x. rewrite elem_of_difference, elem_of_empty. tauto.
  - unfold to_remove. by rewrite difference_empty_L.
  - unfold to_remove, sorted.
    by rewrite difference_empty_L, merge_sort_Permutation.
Qed.

Lemma empty_desired_list_removes_all_witness :
  let s := Fake.start Scenario.owned in
  let s' := (get_pl_entries "111" 5 Scenario.us_east_1 "pl-4" None s).2 in
  apply_delta "111" 5 Scenario.us_east_1 "pl-4" "" [] None "111" s
  = push_delta "111" 5 Scenario.us_east_1 "pl-4" "" None 3 ∅ Scenario.have_owned s'
  ∧ to_add ∅ Scenario.have_owned = []
  ∧ list_to_set (to_remove ∅ Scenario.have_owned) = Scenario.have_owned
  ∧ length (to_remove ∅ Scenario.have_owned) = size Scenario.have_owned.
Proof.
  intros s s'.
  apply (empty_desired_list_removes_all "111" 5%nat Scenario.us_east_1 "pl-4" ""
           None "111" s 3 Scenario.have_owned 10 "111" s').
  - vm_compute. reflexivity.
  - by right.
  - lia.
Defined.

(** ** The pass *)

Section Pass.
Context {W : Type} (ACCOUNT DEFAULT_REGION : string) (DEFAULT_EC2 : Ec2 W)
  (SESSION_client : string → Ec2 W)
  (feed : W → (exn + list string * list string) * W)
  (post : string → list result → nat * nat → W → (exn + Z * string) * W).
Implicit Types s : state W.

Lemma bind_Return_inv {A B} (m : M W A) (k : A → M W B) s b s' :
  bind m k s = (Return b, s') →
  ∃ a s1, m s = (Return a, s1) ∧ k a s1 = (Return b, s').
Proof.
  unfold bind. destruct (m s) as [[a|e|] s1]; try done. intros H. by exists a, s1.
Qed.

(** [notify_slack] on any answer of the webhook. *)
Lemma notify_slack_run webhook reported counts s :
  notify_slack post webhook reported counts s
  = match post webhook reported counts (world s) with
    | (inr (code, _), w') =>
        (Return tt,
         mkState w' (calls s ++ [EvSlackPost webhook reported counts;
                                 EvPrint (SlackStatus code)]))
    | (inl e, w') =>
        if is_Exception e then
          (Return tt,
           mkState w' (calls s ++ [EvSlackPost webhook reported counts;
                                   EvPrint SlackError]))
        else
          (Raise e, mkState w' (calls s ++ [EvSlackPost webhook reported counts]))
    end.
Proof.
  unfold notify_slack, except_Exception, bind, call, emit.
  destruct (post webhook reported counts (world s)) as [[e|[code body]] w'].
  - destruct (is_Exception e); [|done]. cbn [world calls]. by rewrite <- app_assoc.
  - cbn [world calls]. by rewrite <- app_assoc.
Qed.

(** When [notify_slack] returns, it has posted once and printed once. *)
Lemma notify_slack_returns webhook reported counts s s' :
  notify_slack post webhook reported counts s = (Return tt, s') →
  ∃ p, calls s' = calls s ++ [EvSlackPost webhook reported counts; EvPrint p].
Proof.
  rewrite notify_slack_run.
  destruct (post webhook reported counts (world s)) as [[e|[code body]] w'].
  - destruct (is_Exception e); [|done]. intros [= <-]. by eexists.
  - intros [= <-]. by eexists.
Qed.

Lemma slack_posts_app evs evs' :
  slack_posts (evs ++ evs') = slack_posts evs ++ slack_posts evs'.
Proof. apply List.filter_app. Qed.

Lemma slack_posts_engine region pid evs :
  Forall (λ ev, engine_event region pid ev = true) evs → slack_posts evs = [].
Proof.
  induction 1 as [|ev evs Hev _ IH]; [done|].
  unfold slack_posts in *. cbn. rewrite IH. by destruct ev.
Qed.

(** One target of [handler]: reconciled when configured, its result
    appended to those before. *)
Lemma target_run (configured : bool) (m : M W result) (before : list result)
    region pid s l s1 :
  adds_only (engine_event region pid) m →
  (if configured then (let* r := m in ret (before ++ [r])) else ret before) s
  = (Return l, s1) →
  ∃ evs, calls s1 = calls s ++ evs
         ∧ slack_posts evs = []
         ∧ length l = (length before + if configured then 1 else 0)%nat.
Proof.
  intros Hm Hrun. destruct configured.
  - apply bind_Return_inv in Hrun as (r & s0 & Hr & [= <- <-]).
    destruct (Hm _ _ _ Hr) as (evs & Hc & Hevs). exists evs.
    split_and!; [done|by eapply slack_posts_engine|].
    rewrite length_app. cbn. lia.
  - injection Hrun as <- <-. exists []. rewrite app_nil_r.
    split_and!; [done|done|lia].
Qed.
End Pass.

(** X17. An [Exception] of the webhook cannot fail the pass. [notify_slack]
    posts once; when the webhook answers it prints the status code and
    returns; when the webhook raises an [Exception] it prints a Slack error
    and returns; what is no [Exception] ([KeyboardInterrupt], [SystemExit],
    [GeneratorExit]) is raised on, with nothing printed. *)
Theorem slack_failure_is_contained {W}
    (post : string → list result → nat * nat → W → (exn + Z * string) * W)
    webhook reported counts (s : state W) :
  let answer := post webhook reported counts (world s) in
  let posted := calls s ++ [EvSlackPost webhook reported counts] in
  notify_slack post webhook reported counts s
  = match answer.1 with
    | inr (code, _) =>
        (Return tt, mkState answer.2 (posted ++ [EvPrint (SlackStatus code)]))
    | inl e =>
        if is_Exception e
        then (Return tt, mkState answer.2 (posted ++ [EvPrint SlackError]))
        else (Raise e, mkState answer.2 posted)
    end.
Proof.
  intros answer posted. subst answer posted.
  unfold notify_slack, except_Exception, bind, call, emit.
  destruct (post webhook reported counts (world s)) as [[e|[code body]] w'];
    cbn [fst snd]; [destruct (is_Exception e)|]; done.
Qed.

Lemma slack_failure_is_contained_witness :
  let s := Fake.start Passes.roomy in
  let url := "https://hooks.slack.example/services/T0" in
  notify_slack Scenario.webhook url [] (2, 1)%nat s
  = (Return tt, mkState Passes.roomy [EvSlackPost url [] (2, 1)%nat;
                                      EvPrint (SlackStatus 200)])
  ∧ notify_slack Passes.slack_down url [] (2, 1)%nat s
    = (Return tt, mkState Passes.roomy [EvSlackPost url [] (2, 1)%nat;
                                        EvPrint SlackError])
  ∧ notify_slack Passes.interrupted url [] (2, 1)%nat s
    = (Raise (OtherError "KeyboardInterrupt" ""),
       mkState Passes.roomy [EvSlackPost url [] (2, 1)%nat]).
Proof.
  intros s url. split_and!.
  - apply (slack_failure_is_contained Scenario.webhook url [] (2, 1)%nat s).
  - apply (slack_failure_is_contained Passes.slack_down url [] (2, 1)%nat s).
  - apply (slack_failure_is_contained Passes.interrupted url [] (2, 1)%nat s).
Defined.

(** X18. A pass that returns has fetched the feed first and printed its
    summary last; the summary names the account and holds one result per
    configured target. In between, Slack is posted to at most once: exactly
    when notification is switched on, a webhook is set and some result is a
    change, and then with the changed results only. *)
Theorem pass_reports_and_notifies {W} ACCOUNT DEFAULT_REGION (DEFAULT_EC2 : Ec2 W)
    SESSION_client feed post fuel env s out s' :
  handler ACCOUNT DEFAULT_REGION DEFAULT_EC2 SESSION_client feed post fuel env s
  = (Return out, s') →
  ∃ evs,
    calls s' = calls s ++ evs
    ∧ head evs = Some EvFetch
    ∧ last evs = Some (EvPrint (Summary out))
    ∧ slack_posts evs
      = (if env_bool (SLACK_NOTIFY env) false
            && truthy_str (SLACK_WEBHOOK_URL env)
            && truthy_list (filter (λ r, changed r = true) (results out))
         then [EvSlackPost (default "" (SLACK_WEBHOOK_URL env))
                 (filter (λ r, changed r = true) (results out)) (counts out)]
         else [])
    ∧ account out = ACCOUNT
    ∧ length (results out)
      = ((if truthy_str (PL_V4_ID env) || truthy_str (PL_V4_NAME env) then 1 else 0)
         + (if truthy_str (PL_V6_ID env) || truthy_str (PL_V6_NAME env) then 1 else 0))%nat.
Proof.
  intros Hrun. unfold handler in Hrun.
  apply bind_Return_inv in Hrun as ([v4 v6] & s0 & Hfetch & Hrun).
  assert (calls s0 = calls s ++ [EvFetch]) as Hc0.
  { unfold call in Hfetch. destruct (feed (world s)) as [[e|x] w1]; [done|].
    by injection Hfetch as _ <-. }
  apply bind_Return_inv in Hrun as (results4 & s4 & H4 & Hrun).
  apply bind_Return_inv in Hrun as (results6 & s6 & H6 & Hrun).
  apply (target_run _ _ []) with (region := region_name
           (make_ec2 DEFAULT_REGION DEFAULT_EC2 SESSION_client
                     (or_str (PL_V4_REGION env) DEFAULT_REGION)))
        (pid := or_str (PL_V4_ID env) "") in H4 as (e4 & Hc4 & Hp4 & Hl4);
    [|apply apply_delta_adds].
  apply target_run with (region := region_name
           (make_ec2 DEFAULT_REGION DEFAULT_EC2 SESSION_client
                     (or_str (PL_V6_REGION env) DEFAULT_REGION)))
        (pid := or_str (PL_V6_ID env) "") in H6 as (e6 & Hc6 & Hp6 & Hl6);
    [|apply apply_delta_adds].
  apply bind_Return_inv in Hrun as ([] & s7 & Hslack & Hrun).
  apply bind_Return_inv in Hrun as ([] & s8 & Hprint & [= <- <-]).
  injection Hprint as <-. cbn [results counts account calls] in *.
  set (reported := filter (λ r, changed r = true) results6) in *.
  assert (∃ es, calls s7 = calls s6 ++ es
                ∧ slack_posts es
                  = (if env_bool (SLACK_NOTIFY env) false
                        && truthy_str (SLACK_WEBHOOK_URL env)
                        && truthy_list reported
                     then [EvSlackPost (default "" (SLACK_WEBHOOK_URL env))
                             reported (length v4, length v6)]
                     else [])) as (es & Hc7 & Hp7).
  { destruct (env_bool (SLACK_NOTIFY env) false && truthy_str (SLACK_WEBHOOK_URL env)
              && truthy_list reported) eqn:Hcond.
    - apply notify_slack_returns in Hslack as (p & Hn).
      eexists. split; [done|]. done.
    - destruct (env_bool (SLACK_NOTIFY env) false
                && truthy_str (SLACK_WEBHOOK_URL env)).
      + injection Hslack as <-. exists [EvPrint SlackSkipped]. by split.
      + injection Hslack as <-. exists []. by rewrite app_nil_r. }
  eexists ([EvFetch] ++ e4 ++ e6 ++ es ++ [EvPrint (Summary _)]).
  split_and!.
  - rewrite Hc7, Hc6, Hc4, Hc0. by rewrite <- !app_assoc.
  - done.
  - rewrite !app_assoc. apply last_snoc.
  - rewrite !slack_posts_app, Hp4, Hp6, Hp7. cbn [slack_posts List.filter app].
    by rewrite app_nil_r.
  - done.
  - rewrite Hl6, Hl4. cbn [length]. lia.
Qed.

Lemma pass_reports_and_notifies_witness :
  match handler "111" "us-east-1" Scenario.us_east_1 Fake.ec2 Scenario.feed
                Scenario.webhook 3 Passes.notifying (Fake.start Passes.roomy) with
  | (Return out, s') =>
      ∃ evs,
        calls s' = [] ++ evs
        ∧ head evs = Some EvFetch
        ∧ last evs = Some (EvPrint (Summary out))
        ∧ slack_posts evs
          = (if env_bool (SLACK_NOTIFY Passes.notifying) false
                && truthy_str (SLACK_WEBHOOK_URL Passes.notifying)
                && truthy_list (filter (λ r, changed r = true) (results out))
             then [EvSlackPost (default "" (SLACK_WEBHOOK_URL Passes.notifying))
                     (filter (λ r, changed r = true) (results out)) (counts out)]
             else [])
        ∧ account out = "111"
        ∧ length (results out) = 2%nat
  | _ => False
  end.
Proof.
  destruct (handler "111" "us-east-1" Scenario.us_east_1 Fake.ec2 Scenario.feed
              Scenario.webhook 3 Passes.notifying (Fake.start Passes.roomy))
    as [[out| |] s'] eqn:E.
  - apply (pass_reports_and_notifies "111" "us-east-1" Scenario.us_east_1 Fake.ec2
             Scenario.feed Scenario.webhook 3%nat Passes.notifying
             (Fake.start Passes.roomy) out s' E).
  - vm_compute in E. discriminate.
  - vm_compute in E. discriminate.
Defined.

(** X19. A pass that fails produces no summary. When the feed raises,
    [handler] raises that error after the fetch alone, before any call to
    the provider. When the first target has been reconciled and the second
    one raises, [handler] raises that error in the state in which the second
    reconciliation failed: nothing is printed or posted about the first
    target. *)
Theorem failed_pass_leaves_no_summary {W} ACCOUNT DEFAULT_REGION
    (DEFAULT_EC2 : Ec2 W) SESSION_client feed post fuel env s :
  (∀ e w',
     feed (world s) = (inl e, w') →
     handler ACCOUNT DEFAULT_REGION DEFAULT_EC2 SESSION_client feed post fuel env s
     = (Raise e, mkState w' (calls s ++ [EvFetch])))
  ∧ (∀ v4 v6 w1 r4 s4 e s',
       feed (world s) = (inr (v4, v6), w1) →
       truthy_str (PL_V4_ID env) || truthy_str (PL_V4_NAME env) = true →
       truthy_str (PL_V6_ID env) || truthy_str (PL_V6_NAME env) = true →
       apply_delta ACCOUNT fuel
         (make_ec2 DEFAULT_REGION DEFAULT_EC2 SESSION_client
                   (or_str (PL_V4_REGION env) DEFAULT_REGION))
         (or_str (PL_V4_ID env) "")
         (truncate PL_DESCR_TRUNC (strip (or_str (DESCRIPTION env) DESCR_DEFAULT)))
         v4 (PL_V4_NAME env) ACCOUNT (mkState w1 (calls s ++ [EvFetch]))
       = (Return r4, s4) →
       apply_delta ACCOUNT fuel
         (make_ec2 DEFAULT_REGION DEFAULT_EC2 SESSION_client
                   (or_str (PL_V6_REGION env) DEFAULT_REGION))
         (or_str (PL_V6_ID env) "")
         (truncate PL_DESCR_TRUNC (strip (or_str (DESCRIPTION env) DESCR_DEFAULT)))
         v6 (PL_V6_NAME env) ACCOUNT s4
       = (Raise e, s') →
       handler ACCOUNT DEFAULT_REGION DEFAULT_EC2 SESSION_client feed post fuel env s
       = (Raise e, s')
       ∧ ∃ evs, calls s' = calls s ++ evs
                ∧ Forall (λ ev, match ev with
                                | EvPrint _ | EvSlackPost _ _ _ => False
                                | _ => True
                                end) evs).
Proof.
  split.
  - intros e w' Hfeed. unfold handler. unfold bind at 1, call at 1.
    by rewrite Hfeed.
  - intros v4 v6 w1 r4 s4 e s' Hfeed Hc4 Hc6 H4 H6. split.
    + unfold handler. unfold bind at 1, call at 1. rewrite Hfeed. cbn iota beta.
      rewrite Hc4, Hc6. unfold bind at 1, bind at 1. rewrite H4.
      unfold ret at 1. unfold bind at 1, bind at 1. by rewrite H6.
    + destruct (apply_delta_adds _ _ _ _ _ _ _ _ _ _ _ H4) as (e4 & Hcalls4 & He4).
      destruct (apply_delta_adds _ _ _ _ _ _ _ _ _ _ _ H6) as (e6 & Hcalls6 & He6).
      cbn [calls] in Hcalls4. exists ([EvFetch] ++ e4 ++ e6). split.
      * rewrite Hcalls6, Hcalls4. by rewrite <- !app_assoc.
      * apply Forall_app. split; [by constructor|]. apply Forall_app. split.
        -- eapply Forall_impl; [exact He4|]. by intros [].
        -- eapply Forall_impl; [exact He6|]. by intros [].
Qed.

Lemma failed_pass_leaves_no_summary_witness :
  let s := Fake.start Passes.half_refused in
  let run :=
    handler "111" "us-east-1" Scenario.us_east_1 Fake.ec2 Scenario.feed
            Scenario.webhook 3 Passes.notifying s in
  handler "111" "us-east-1" Scenario.us_east_1 Fake.ec2 Passes.broken_feed
          Scenario.webhook 3 Passes.notifying s
  = (Raise (OtherError "JSONDecodeError" "Expecting value"),
     mkState Passes.half_refused [EvFetch])
  ∧ run = (Raise (ClientError Cases.denied), run.2)
  ∧ ∃ evs, calls run.2 = calls s ++ evs
           ∧ Forall (λ ev, match ev with
                           | EvPrint _ | EvSlackPost _ _ _ => False
                           | _ => True
                           end) evs.
Proof.
  intros s run. split.
  - apply (proj1 (failed_pass_leaves_no_summary "111" "us-east-1" Scenario.us_east_1
                    Fake.ec2 Passes.broken_feed Scenario.webhook 3%nat
                    Passes.notifying s)).
    reflexivity.
  - apply (proj2 (failed_pass_leaves_no_summary "111" "us-east-1" Scenario.us_east_1
                    Fake.ec2 Scenario.feed Scenario.webhook 3%nat
                    Passes.notifying s)
             ["173.245.48.0/20"; "103.21.244.0/22"] ["2400:cb00::/32"]
             Passes.half_refused
             (applied "pl-4" 3 4 ["103.21.244.0/22"; "173.245.48.0/20"] [])
             (apply_delta "111" 3 Scenario.us_east_1 "pl-4" DESCR_DEFAULT
                ["173.245.48.0/20"; "103.21.244.0/22"] None "111"
                (mkState Passes.half_refused [EvFetch])).2).
    + reflexivity.
    + reflexivity.
    + reflexivity.
    + vm_compute. reflexivity.
    + vm_compute. reflexivity.
Defined.

(** ** The feed *)

Section FeedProperties.
Context {W : Type} (http_get : string → headers → W → (exn + string) * W)
  (decode_utf8 : string → exn + string) (json_loads : string → exn + ApiData.t).

Lemma plain_lines_decoded (text : string → string) lines :
  (∀ b, b ∈ lines → kept b = true → decode_utf8 b = inr (text b)) →
  plain_lines decode_utf8 lines
  = inr ((λ b, strip (text b)) <$> List.filter kept lines).
Proof.
  induction lines as [|b lines IH]; intros Hdec; [done|].
  cbn [plain_lines List.filter]. unfold kept at 1.
  destruct (String.eqb b "" || String.prefix "#" b) eqn:Hb; cbn [negb].
  - apply IH. intros b' Hb'. apply Hdec. by right.
  - rewrite (Hdec b); [|by left|unfold kept; by rewrite Hb].
    rewrite IH; [done|]. intros b' Hb'. apply Hdec. by right.
Qed.
End FeedProperties.

(** X20. [fetch_plain_lines] returns one string per line of the body that is
    neither empty nor starts with [#], in order: the decoded line without
    the white space around it. A line of white space alone is kept and
    gives the empty string. *)
Theorem plain_feed_keeps_data_lines {W}
    (http_get : string → headers → W → (exn + string) * W)
    (decode_utf8 : string → exn + string) (text : string → string) url w raw w' :
  http_get url UA_HEADERS_PLAIN w = (inr raw, w') →
  (∀ b, b ∈ splitlines raw → kept b = true → decode_utf8 b = inr (text b)) →
  fetch_plain_lines http_get decode_utf8 url w
  = (inr ((λ b, strip (text b)) <$> List.filter kept (splitlines raw)), w')
  ∧ ∀ b, b ∈ splitlines raw → kept b = true → blank (text b) = true →
         "" ∈ (λ b, strip (text b)) <$> List.filter kept (splitlines raw).
Proof.
  intros Hget Hdec. split.
  - unfold fetch_plain_lines. rewrite Hget.
    by rewrite (plain_lines_decoded decode_utf8 text).
  - intros b Hb Hkept Hblank. apply list_elem_of_fmap. exists b. split.
    + symmetry. rewrite <- (string_app_nil_r (text b)).
      change (text b +:+ "") with (text b +:+ "" +:+ "").
      by rewrite strip_padding.
    + apply list_elem_of_In, List.filter_In. split; [|done].
      by apply list_elem_of_In.
Qed.

Lemma plain_feed_keeps_data_lines_witness :
  fetch_plain_lines PlainFeed.http_get PlainFeed.decode_utf8 CF_V4_URL tt
  = (inr ["173.245.48.0/20"; ""; "103.21.244.0/22"], tt)
  ∧ "" ∈ (λ b, strip b) <$> List.filter kept (splitlines PlainFeed.body).
Proof.
  destruct (plain_feed_keeps_data_lines PlainFeed.http_get PlainFeed.decode_utf8
              (λ b, b) CF_V4_URL tt PlainFeed.body tt) as [Hrun Hblank].
  - reflexivity.
  - reflexivity.
  - split; [exact Hrun|]. apply (Hblank "  ").
    + vm_compute. right. right. right. by left.
    + reflexivity.
    + reflexivity.
Defined.

(** X21. [fetch_cloudflare_ips] returns what the two plain endpoints give
    when either list has an element. It asks the API instead when both
    lists are empty, and when either plain fetch raises a URL error, the
    IPv4 list already fetched being dropped; any other exception of a plain
    fetch propagates without the API being asked. *)
Theorem feed_falls_back_to_api {W}
    (http_get : string → headers → W → (exn + string) * W)
    (decode_utf8 : string → exn + string) (json_loads : string → exn + ApiData.t)
    (w : W) :
  let plain := fetch_plain_lines http_get decode_utf8 in
  let api := fetch_via_api http_get json_loads in
  let feed := fetch_cloudflare_ips http_get decode_utf8 json_loads in
  (∀ v4 w1 v6 w2,
     plain CF_V4_URL w = (inr v4, w1) → plain CF_V6_URL w1 = (inr v6, w2) →
     v4 ≠ [] ∨ v6 ≠ [] → feed w = (inr (v4, v6), w2))
  ∧ (∀ w1 w2,
       plain CF_V4_URL w = (inr [], w1) → plain CF_V6_URL w1 = (inr [], w2) →
       feed w = api w2)
  ∧ (∀ e w1,
       plain CF_V4_URL w = (inl e, w1) →
       feed w = if is_url_error e then api w1 else (inl e, w1))
  ∧ (∀ v4 w1 e w2,
       plain CF_V4_URL w = (inr v4, w1) → plain CF_V6_URL w1 = (inl e, w2) →
       feed w = if is_url_error e then api w2 else (inl e, w2)).
Proof.
  intros plain api feed. unfold feed, fetch_cloudflare_ips. fold plain api.
  split_and!.
  - intros v4 w1 v6 w2 -> -> Hsome.
    by destruct Hsome as [H|H]; [destruct v4|destruct v6]; try done;
      rewrite ?orb_true_r.
  - by intros w1 w2 -> ->.
  - by intros e w1 ->.
  - by intros v4 w1 e w2 -> ->.
Qed.

Lemma feed_falls_back_to_api_witness :
  fetch_cloudflare_ips PlainFeed.http_get PlainFeed.decode_utf8
                       PlainFeed.json_loads tt
  = (inr (["173.245.48.0/20"; ""; "103.21.244.0/22"],
          ["173.245.48.0/20"; ""; "103.21.244.0/22"]), tt)
  ∧ fetch_cloudflare_ips PlainFeed.unreachable PlainFeed.decode_utf8
                         PlainFeed.json_loads tt
    = (inr (["173.245.48.0/20"], []), tt).
Proof.
  destruct (feed_falls_back_to_api PlainFeed.http_get PlainFeed.decode_utf8
              PlainFeed.json_loads tt) as (Hplain & _).
  destruct (feed_falls_back_to_api PlainFeed.unreachable PlainFeed.decode_utf8
              PlainFeed.json_loads tt) as (_ & _ & Hdown & _).
  split.
  - apply (Hplain _ tt _ tt); [reflexivity|reflexivity|by left].
  - apply (Hdown (OtherError "URLError" "timed out") tt). reflexivity.
Defined.

(** ** Order of the merged view *)

Section MergeOrder.
Implicit Types (acc : gset string * list PL.t) (l : list PL.t).

Lemma keep_extends acc l :
  ∃ k, (foldl (keep (λ pl, pl)) acc l).2 = acc.2 ++ k ∧ k `sublist_of` l.
Proof.
  revert acc. induction l as [|pl l IH]; intros acc; cbn [foldl].
  - exists []. by rewrite app_nil_r.
  - destruct (IH (keep (λ pl, pl) acc pl)) as (k & -> & Hk).
    unfold keep. destruct (_ && _); cbn [snd].
    + exists (pl :: k). split; [by rewrite <- app_assoc|]. by constructor.
    + exists k. split; [done|]. by constructor.
Qed.
End MergeOrder.

(** X22. The merged view keeps the order of discovery: it is the records of
    the first API followed by the normalized records of the second, with
    records left out and none moved, so a search through it meets the
    records of the first API first. *)
Theorem merged_view_keeps_order {W} fuel (ec2 : Ec2 W) s ps s1 qs s2 :
  pages_of (_describe_managed_pls ec2 None) None s ps s1 →
  pages_of (_describe_prefix_pls ec2) None s1 qs s2 →
  (length ps ≤ fuel)%nat →
  (length qs ≤ fuel)%nat →
  ∃ out,
    _list_all_pls fuel ec2 s = (Return out, s2)
    ∧ out `sublist_of` records ps ++ (normalized <$> records qs).
Proof.
  intros Hps Hqs Hfuel1 Hfuel2.
  destruct (keep_extends (∅, []) (records ps ++ (normalized <$> records qs)))
    as (k & Hout & Hk).
  rewrite foldl_app, <- keep_normalized in Hout. cbn [snd app] in Hout.
  exists k. split; [|done].
  unfold _list_all_pls.
  rewrite (bind_Return _ _ _ _ _ (managed_pages_run ec2 _ _ _ _ _ _ Hps Hfuel1)).
  rewrite (bind_Return _ _ _ _ _ (prefix_pages_run ec2 _ _ _ _ _ _ Hqs Hfuel2)).
  unfold ret. by rewrite Hout.
Qed.

Lemma merged_view_keeps_order_witness :
  let s := Fake.start Scenario.overlapping in
  let a1 := Fake.managed_record "pl-1" "one" "111" 1 10 in
  let a2 := Fake.managed_record "pl-2" "two" "111" 7 20 in
  let b2 := Scenario.short_record "pl-2" "two" ["10.0.0.0/8"] in
  let b3 := Scenario.short_record "pl-3" "three" ["192.168.0.0/16"] in
  ∃ out,
    _list_all_pls 2 Scenario.us_east_1 s
    = (Return out, (_list_all_pls 2 Scenario.us_east_1 s).2)
    ∧ out `sublist_of` [a1; a2; normalized b2; normalized b3].
Proof.
  intros s a1 a2 b2 b3.
  apply (merged_view_keeps_order 2 Scenario.us_east_1 s
           [DescribeResp.mk (Some [a1]) None (Some "1");
            DescribeResp.mk (Some [a2]) None None]
           (managed_pages 2 Scenario.us_east_1 None (∅, []) s).2
           [DescribeResp.mk None (Some [b2]) (Some "1");
            DescribeResp.mk None (Some [b3]) None]
           (_list_all_pls 2 Scenario.us_east_1 s).2).
  - eapply pages_more; [reflexivity|reflexivity|].
    eapply pages_last; reflexivity.
  - eapply pages_more; [reflexivity|reflexivity|].
    eapply pages_last; reflexivity.
  - cbn. lia.
  - cbn. lia.
Defined.

(** ** Partial application *)

Section Partial.
Context {W : Type} (ACCOUNT : string) (fuel : nat) (ec2 : Ec2 W)
  (pid : string) (name : option string).

Lemma submit_all_app pre rest v (s : state W) :
  submit_all ACCOUNT fuel ec2 pid name (pre ++ rest) v s
  = (let* v1 := submit_all ACCOUNT fuel ec2 pid name pre v in
     submit_all ACCOUNT fuel ec2 pid name rest v1) s.
Proof.
  revert v s. induction pre as [|[a r] pre IH]; intros v s; [reflexivity|].
  cbn [app submit_all]. unfold bind.
  destruct (_modify _ _ _ _ _ _ _ _ s) as [[v'| |] s1]; try reflexivity.
  rewrite IH. unfold bind. reflexivity.
Qed.
End Partial.

(** X23. The update calls of a delta stop at the first one that fails. When
    the provider has accepted the calls for the pairs [pre] and the call for
    the next pair raises, [apply_delta]'s update phase raises that error in
    the state in which the call failed: the pairs after it are not
    submitted, the accepted calls are not undone, and no result is
    returned. *)
Theorem failed_batch_stops_the_updates {W} ACCOUNT fuel (ec2 : Ec2 W) pid desc
    name v want have s pre a r post evs v1 w1 e s' :
  paired (_chunks (entries_to_add desc (to_add want have)) MAX_BATCH)
         (_chunks (RemoveEntry.mk <$> to_remove want have) MAX_BATCH)
  = pre ++ (a, r) :: post →
  all_accepted ec2 pid v (world s) pre evs v1 w1 →
  _modify ACCOUNT fuel ec2 pid name a r v1 (mkState w1 (calls s ++ evs))
  = (Raise e, s') →
  push_delta ACCOUNT fuel ec2 pid desc name v want have s = (Raise e, s')
  ∧ length evs = length pre.
Proof.
  intros Hpairs Hpre Hfail.
  destruct (submit_all_accepted ACCOUNT fuel ec2 pid name _ _ _ _ _ _ Hpre)
    as [Hsubmit Hlen].
  split; [|done]. unfold push_delta.
  assert (negb (truthy_list (to_add want have))
          && negb (truthy_list (to_remove want have)) = false) as ->.
  { destruct (to_add want have) eqn:Ea; destruct (to_remove want have) eqn:Er;
      try done.
    exfalso. rewrite ?Ea, ?Er in Hpairs.
    change (paired _ _) with (@nil (option (list AddEntry.t)
                                    * option (list RemoveEntry.t))) in Hpairs.
    by destruct pre. }
  unfold bind. rewrite update_loop_from by lia. rewrite !drop_0.
  rewrite Hpairs, submit_all_app. unfold bind at 1. rewrite Hsubmit.
  cbn [submit_all]. unfold bind. by rewrite Hfail.
Qed.

Lemma failed_batch_stops_the_updates_witness :
  let s := Fake.start Batches.refusing_second in
  let adds := Batches.adds in
  let pre := [(Some (take 80 adds), Some Batches.rems)] in
  let post := [(Some (drop 160 adds), @None (list RemoveEntry.t))] in
  let evs :=
    [EvModify "us-east-1"
       (ModifyKw.mk "pl-4" 3 (Some (take 80 adds)) (Some Batches.rems))] in
  let refused :=
    EvModify "us-east-1"
      (ModifyKw.mk "pl-4" 4 (Some (take 80 (drop 80 adds))) None) in
  paired (_chunks adds MAX_BATCH) (_chunks Batches.rems MAX_BATCH)
  = pre ++ (Some (take 80 (drop 80 adds)), None) :: post
  ∧ all_accepted Scenario.us_east_1 "pl-4" 3 (world s) pre evs 4
      (Fake.mkWorld (Fake.managed Batches.refusing_second)
         (Fake.plain Batches.refusing_second)
         (Fake.entries Batches.refusing_second) 1
         [inl (ClientError Cases.denied); Fake.updated 6])
  ∧ push_delta "111" 5 Scenario.us_east_1 "pl-4" "" None 3 Batches.wide
               Scenario.have_owned s
    = (Raise (ClientError Cases.denied),
       mkState Batches.after_refusal (evs ++ [refused]))
  ∧ length evs = length pre.
Proof.
  intros s adds pre post evs refused.
  assert (paired (_chunks adds MAX_BATCH) (_chunks Batches.rems MAX_BATCH)
          = pre ++ (Some (take 80 (drop 80 adds)), None) :: post) as Hpairs
    by (vm_compute; reflexivity).
  assert (all_accepted Scenario.us_east_1 "pl-4" 3 (world s) pre evs 4
            (Fake.mkWorld (Fake.managed Batches.refusing_second)
               (Fake.plain Batches.refusing_second)
               (Fake.entries Batches.refusing_second) 1
               [inl (ClientError Cases.denied); Fake.updated 6])) as Hpre.
  { assert (evs = [EvModify "us-east-1"
                     (modify_kwargs "pl-4" 3 (Some (take 80 adds))
                                    (Some Batches.rems))]) as ->
      by (vm_compute; reflexivity).
    eapply accepted_more; [reflexivity|reflexivity|]. apply accepted_none. }
  split; [exact Hpairs|]. split; [exact Hpre|].
  apply (failed_batch_stops_the_updates "111" 5%nat Scenario.us_east_1 "pl-4" ""
           None 3 Batches.wide Scenario.have_owned s pre
           (Some (take 80 (drop 80 adds))) None post evs 4 _ _ _ Hpairs Hpre).
  vm_compute. reflexivity.
Defined.

(** X24. A located record without an owner passes the ownership guard for
    every caller: [apply_delta] never skips it. With no maximum entry count
    either, as for a list that only the second discovery API shows, any
    desired list is pushed, from version 1 when the record has no version. *)
Theorem ownerless_record_is_reconciled {W} ACCOUNT fuel (ec2 : Ec2 W) pid desc
    want_list name acct s pl s1 have s2 :
  _describe_pl_with_retries ACCOUNT fuel ec2 pid name ATTEMPTS BACKOFF s
  = (Return pl, s1) →
  entry_pages fuel ec2 pid None ∅ s1 = (Return have, s2) →
  get (PL.OwnerId pl) = None ∨ get (PL.OwnerId pl) = Some "" →
  get (PL.MaxEntries pl) = None ∨ get (PL.MaxEntries pl) = Some 0 →
  apply_delta ACCOUNT fuel ec2 pid desc want_list name acct s
  = push_delta ACCOUNT fuel ec2 pid desc name (or_int (get (PL.Version pl)) 1)
               (list_to_set want_list) have s2
  ∧ (get (PL.Version pl) = None → or_int (get (PL.Version pl)) 1 = 1).
Proof.
  intros Hpl Hhave Howner Hmax. split; [|by intros ->].
  assert (get_pl_entries ACCOUNT fuel ec2 pid name s
          = (Return (or_int (get (PL.Version pl)) 1, have, 0, ""), s2)) as Hread.
  { unfold get_pl_entries. rewrite (bind_Return _ _ _ _ _ Hpl).
    rewrite (bind_Return _ _ _ _ _ Hhave). unfold ret.
    by destruct Howner as [-> | ->]; destruct Hmax as [-> | ->]. }
  rewrite (apply_delta_after_read _ _ _ _ _ _ _ _ _ _ _ _ _ _ Hread).
  by rewrite owned_passes_guard by by left.
Qed.

Lemma ownerless_record_is_reconciled_witness :
  let s := Fake.start Unowned.world in
  let s1 := (_describe_pl_with_retries "111" 5 Scenario.us_east_1 "pl-63a5400a" None
                                       ATTEMPTS BACKOFF s).2 in
  let s2 := (get_pl_entries "111" 5 Scenario.us_east_1 "pl-63a5400a" None s).2 in
  apply_delta "111" 5 Scenario.us_east_1 "pl-63a5400a" "" ["173.245.48.0/20"] None
              "111" s
  = push_delta "111" 5 Scenario.us_east_1 "pl-63a5400a" "" None 1
               (list_to_set ["173.245.48.0/20"]) {["52.216.0.0/15"]} s2.
Proof.
  intros s s1 s2.
  apply (proj1 (ownerless_record_is_reconciled "111" 5%nat Scenario.us_east_1
                  "pl-63a5400a" "" ["173.245.48.0/20"] None "111" s
                  (normalized Unowned.listed) s1 {["52.216.0.0/15"]} s2
                  ltac:(vm_compute; reflexivity) ltac:(vm_compute; reflexivity)
                  ltac:(by left) ltac:(by left))).
Defined.
